(** * alternate-assets: a shallow embedding of [main.go]

    The program rewrites image files in place so that their checksum
    changes.  This development embeds the functions of [main.go]
    ([estimateJpegQuality], [estimatePngCompressionLevel],
    [calculateFileChecksum], [processFile], [processDirectory] and the
    [Run] closure of [main]) as state-passing functions over a model of
    the file system, and proves the properties the specification states
    about them.

    Conventions.
    - Go's [int]/[int64] are [Z].  [width * height] and
      [jpegQuality ± 1] are written with their 64-bit wrap-around;
      [currentDepth + 1] is computed only when [currentDepth < maxDepth]
      and so never wraps.
    - File contents are [list byte].
    - Paths, extensions and error messages are [string]; a Go [error]
      is represented by its message.
    - [float64] is IEEE-754 binary64 as given by [SpecFloat]
      (precision 53, [emax] 1024).
    - What the program calls in libraries whose code is not part of the
      repository (the image codecs, [imaging], [filepath.Join], the
      non-ASCII path of [strings.ToLower]) is an interface, [GoLib]; so
      is the size the system reports for a directory.
    - A path names one file or directory of its own: symbolic and hard
      links, through which two paths share a file, are not modelled, so
      nothing is stated here about paths other than those the program
      is given. *)

From Stdlib Require Import ZArith Lia Strings.Byte Strings.Ascii Strings.String Floats.SpecFloat.
From stdpp Require Import base gmap list strings.

Local Open Scope Z_scope.

(** ** Bytes *)

Definition byte_to_Z (b : byte) : Z := Z.of_N (Byte.to_N b).

Definition byte_of_Z (z : Z) : byte :=
  match Byte.of_N (Z.to_N (z mod 256)) with
  | Some b => b
  | None => x00
  end.

Definition bytes_of_string (s : string) : list byte :=
  List.map Ascii.byte_of_ascii (String.list_ascii_of_string s).

(** ** [crypto/md5] (RFC 1321) *)

Module Md5.

  (** [uint32] arithmetic. *)
Definition wrap32 (x : Z) : Z := x mod 2 ^ 32.
Definition add32 (x y : Z) : Z := wrap32 (x + y).
Definition not32 (x : Z) : Z := Z.lxor x 4294967295.
Definition rotl32 (x c : Z) : Z :=
    Z.lor (wrap32 (Z.shiftl x c)) (Z.shiftr x (32 - c)).

Definition shifts : list Z :=
    [ 7; 12; 17; 22; 7; 12; 17; 22; 7; 12; 17; 22; 7; 12; 17; 22;
      5; 9; 14; 20; 5; 9; 14; 20; 5; 9; 14; 20; 5; 9; 14; 20;
      4; 11; 16; 23; 4; 11; 16; 23; 4; 11; 16; 23; 4; 11; 16; 23;
      6; 10; 15; 21; 6; 10; 15; 21; 6; 10; 15; 21; 6; 10; 15; 21 ].

Definition sines : list Z :=
    [ 3614090360; 3905402710; 606105819; 3250441966; 4118548399; 1200080426; 2821735955; 4249261313;
      1770035416; 2336552879; 4294925233; 2304563134; 1804603682; 4254626195; 2792965006; 1236535329;
      4129170786; 3225465664; 643717713; 3921069994; 3593408605; 38016083; 3634488961; 3889429448;
      568446438; 3275163606; 4107603335; 1163531501; 2850285829; 4243563512; 1735328473; 2368359562;
      4294588738; 2272392833; 1839030562; 4259657740; 2763975236; 1272893353; 4139469664; 3200236656;
      681279174; 3936430074; 3572445317; 76029189; 3654602809; 3873151461; 530742520; 3299628645;
      4096336452; 1126891415; 2878612391; 4237533241; 1700485571; 2399980690; 4293915773; 2240044497;
      1873313359; 4264355552; 2734768916; 1309151649; 4149444226; 3174756917; 718787259; 3951481745 ].

Record digest := Digest { dA : Z; dB : Z; dC : Z; dD : Z }.

Definition init : digest :=
    Digest 1732584193 4023233417 2562383102 271733878.

  (** One of the 64 operations on the block [m] (16 little-endian words). *)
Definition step (m : list Z) (d : digest) (i : nat) : digest :=
    let '(Digest a b c dd) := d in
    let iz := Z.of_nat i in
    let '(f, g) :=
      if iz <? 16 then (Z.lor (Z.land b c) (Z.land (not32 b) dd), iz)
      else if iz <? 32 then (Z.lor (Z.land dd b) (Z.land (not32 dd) c), (5 * iz + 1) mod 16)
      else if iz <? 48 then (Z.lxor (Z.lxor b c) dd, (3 * iz + 5) mod 16)
      else (Z.lxor c (Z.lor b (not32 dd)), (7 * iz) mod 16) in
    let f' := add32 (add32 (add32 f a) (nth i sines 0)) (nth (Z.to_nat g) m 0) in
    Digest dd (add32 b (rotl32 f' (nth i shifts 0))) b c.

Definition le32 (b0 b1 b2 b3 : byte) : Z :=
    byte_to_Z b0 + 256 * byte_to_Z b1 + 65536 * byte_to_Z b2 + 16777216 * byte_to_Z b3.

Fixpoint words (bs : list byte) : list Z :=
    match bs with
    | b0 :: b1 :: b2 :: b3 :: rest => le32 b0 b1 b2 b3 :: words rest
    | _ => []
    end.

Definition block (d : digest) (bs : list byte) : digest :=
    let m := words bs in
    let d' := fold_left (step m) (seq 0 64) d in
    Digest (add32 (dA d) (dA d')) (add32 (dB d) (dB d'))
           (add32 (dC d) (dC d')) (add32 (dD d) (dD d')).

  (** The message is cut into 64-byte blocks; [fuel] bounds their number. *)
Fixpoint blocks (fuel : nat) (d : digest) (bs : list byte) : digest :=
    match fuel, bs with
    | O, _ | _, [] => d
    | S fuel', _ => blocks fuel' (block d (take 64 bs)) (drop 64 bs)
    end.

Definition le_bytes (n : nat) (x : Z) : list byte :=
    List.map (fun k => byte_of_Z (Z.shiftr x (8 * Z.of_nat k))) (seq 0 n).

  (** Padding: a [0x80] byte, zeros up to 56 modulo 64, then the bit
      length as a little-endian [uint64]. *)
Definition pad (bs : list byte) : list byte :=
    let len := Z.of_nat (length bs) in
    let zeros := Z.to_nat ((55 - len) mod 64) in
    bs ++ x80 :: replicate zeros x00 ++ le_bytes 8 ((8 * len) mod 2 ^ 64).

  (** [md5.Sum]: the 16 digest bytes. *)
Definition sum (bs : list byte) : list byte :=
    let p := pad bs in
    let d := blocks (length p) init p in
    le_bytes 4 (dA d) ++ le_bytes 4 (dB d) ++ le_bytes 4 (dC d) ++ le_bytes 4 (dD d).

Definition Size : nat := 16.

End Md5.

(** ** [encoding/hex] *)

Module Hex.

Definition hextable : string := "0123456789abcdef".

Definition digit (n : Z) : ascii :=
    match String.get (Z.to_nat n) hextable with
    | Some c => c
    | None => "0"%char
    end.

Fixpoint EncodeToString (src : list byte) : string :=
    match src with
    | [] => EmptyString
    | b :: rest =>
        String (digit (Z.shiftr (byte_to_Z b) 4))
          (String (digit (Z.land (byte_to_Z b) 15)) (EncodeToString rest))
    end.

Definition is_hex_digit (c : ascii) : bool :=
    let n := Z.of_N (N_of_ascii c) in
    ((48 <=? n) && (n <=? 57)) || ((97 <=? n) && (n <=? 102)).

Fixpoint all_hex (s : string) : bool :=
    match s with
    | EmptyString => true
    | String c rest => is_hex_digit c && all_hex rest
    end.

End Hex.

(** ** [path/filepath] and [strings] *)

(** [os.IsPathSeparator] on the Unix targets; on Windows the backslash
    is a separator too. *)
Definition IsPathSeparator (c : ascii) : bool := Ascii.eqb c "/"%char.

(** [filepath.Ext]: scan from the last byte towards the first, stop at a
    separator, return the suffix that starts at the first dot met. *)
Fixpoint ext_scan (before : list ascii) (suffix : string) : string :=
  match before with
  | [] => EmptyString
  | c :: before' =>
      if IsPathSeparator c then EmptyString
      else if Ascii.eqb c "."%char then String c suffix
      else ext_scan before' (String c suffix)
  end.

Definition Ext (path : string) : string :=
  ext_scan (rev (String.list_ascii_of_string path)) EmptyString.

Definition isASCII (c : ascii) : bool := (N_of_ascii c <? 128)%N.

Definition lowerASCII (c : ascii) : ascii :=
  let n := N_of_ascii c in
  if ((65 <=? n) && (n <=? 90))%N then ascii_of_N (n + 32) else c.

Fixpoint all_ascii (s : string) : bool :=
  match s with
  | EmptyString => true
  | String c s' => isASCII c && all_ascii s'
  end.

Fixpoint map_string (f : ascii -> ascii) (s : string) : string :=
  match s with
  | EmptyString => EmptyString
  | String c s' => String (f c) (map_string f s')
  end.

(** ** [float64] *)

Module Float64.

Definition prec : Z := 53.
Definition emax : Z := 1024.

  (** [float64(n)] for an integer [n], rounded to nearest even. *)
Definition of_int (n : Z) : spec_float := binary_normalize prec emax n 0 false.

  (** A literal [m * 2^e]. *)
Definition lit (m e : Z) : spec_float := binary_normalize prec emax m e false.

Definition div (x y : spec_float) : spec_float := SFdiv prec emax x y.
Definition ltb (x y : spec_float) : bool := SFltb x y.

Definition c0_5 : spec_float := lit 1 (-1).
Definition c0_75 : spec_float := lit 3 (-2).
Definition c1_0 : spec_float := lit 1 0.
Definition c1_5 : spec_float := lit 3 (-1).

End Float64.

(** Go's [int] and [int64] on the 64-bit targets the build script names. *)
Definition int64_wrap (z : Z) : Z := (z + 2 ^ 63) mod 2 ^ 64 - 2 ^ 63.

(** ** [image/png] compression levels *)

Inductive CompressionLevel :=
| DefaultCompression
| NoCompression
| BestSpeed
| BestCompression.

#[global] Instance CompressionLevel_eq_dec : EqDecision CompressionLevel.
Proof. solve_decision. Defined.

(** ** Libraries and system facts outside the repository *)

(** What an encoder did with its writer: the bytes that reached it and
    the error, if any, the encoder returned. *)
Record write_result := WriteResult {
  written : list byte;
  werr : option string
}.

Class GoLib := {
  (** [image.Image] *)
  Image : Type;
  (** [img.Bounds().Dx()] and [img.Bounds().Dy()] *)
  Dx : Image -> Z;
  Dy : Image -> Z;
  (** [image.Decode] with the registered formats: the image and the
      format name, or an error message *)
  image_Decode : list byte -> string + (Image * string);
  (** [imaging.AdjustBrightness(img, 0.1)] *)
  imaging_AdjustBrightness : Image -> Image;
  (** [jpeg.Encode(w, img, &jpeg.Options{Quality: q})] *)
  jpeg_Encode : Image -> Z -> write_result;
  (** [(&png.Encoder{CompressionLevel: l}).Encode(w, img)] *)
  png_Encode : CompressionLevel -> Image -> write_result;
  (** [imaging.Save(img, path)] *)
  imaging_Save : Image -> string -> write_result;
  (** [filepath.Join(dir, name)] *)
  filepath_Join : string -> string -> string;
  (** [strings.Map(unicode.ToLower, s)], the path [strings.ToLower]
      takes when [s] is not pure ASCII *)
  unicode_ToLower : string -> string;
  (** [fileInfo.Size()] of the directory at a path, which Go leaves to
      the system (4096 on many file systems) *)
  dir_Size : string -> Z
}.

(** ** The file system and the process state *)

Record file := File {
  data : list byte;
  (** whether [os.Open], [f.Stat], reading and [os.Create] succeed *)
  f_open : bool;
  f_stat : bool;
  f_read : bool;
  f_create : bool;
  (** whether [os.Open] and reading still succeed once the file has
      been written to *)
  f_reopen : bool;
  f_reread : bool
}.

(** The file once it has been written to: other contents, and from then
    on opened and read as [f_reopen] and [f_reread] say. *)
Definition with_data (f : file) (bs : list byte) : file :=
  File bs (f_reopen f) (f_stat f) (f_reread f) (f_create f) (f_reopen f) (f_reread f).

(** [os.DirEntry] *)
Record DirEntry := Entry { Name : string; IsDir : bool }.

(** What a path names: a file, or a directory with its listing ([None]
    when the directory cannot be read). *)

Inductive node :=
| NFile (f : file)
| NDir (listing : option (list DirEntry)).

(** The calls the program makes to the operating system and to the
    codecs. *)
Inductive call :=
| SysStat (path : string)
| SysOpen (path : string)
| SysFstat (path : string)
| SysCreate (path : string)
| SysReadDir (path : string)
| LibJpegEncode (quality : Z)
| LibPngEncode (level : CompressionLevel)
| LibImagingSave (path : string).

(** Lines printed with [fmt.Printf]. *)
Inductive out_line :=
| OutJpegAdjustment (jpegQuality adjustedQuality : Z)
| OutProcessed (path : string)
| OutOriginalChecksum (sum : string)
| OutNewChecksum (sum : string)
| OutChecksumChanged (changed : bool)
| OutProcessedMark (path : string) (changed : bool).

(** Lines printed with [fmt.Fprintf(os.Stderr, ...)]. *)
Inductive err_line :=
| ErrError (err : string)
| ErrProcessingDirectory (path err : string)
| ErrProcessingFile (path err : string).

(** The state of a run: the file system, the flags, and what has been
    called and printed so far. *)
Record world := World {
  fs : gmap string node;
  (** the package-level variables set from the flags *)
  recursiveDepth : Z;
  verbose : bool;
  (** what the process did, oldest first *)
  calls : list call;
  stdout : list out_line;
  stderr : list err_line
}.

Definition set_fs (m : gmap string node) (w : world) : world :=
  World m (recursiveDepth w) (verbose w) (calls w) (stdout w) (stderr w).

(** ** A state-and-error monad for the program's effects *)

Inductive result (A : Type) :=
| Ok (a : A)
| Err (msg : string).
Arguments Ok {A} a.
Arguments Err {A} msg.

(** A computation returns a value or an error, and the next state; the
    state changes made before an error are kept. *)
Definition IO (A : Type) : Type := world -> result A * world.

Definition ret {A} (a : A) : IO A := fun w => (Ok a, w).
Definition fail {A} (msg : string) : IO A := fun w => (Err msg, w).

Definition bind {A B} (m : IO A) (k : A -> IO B) : IO B :=
  fun w =>
    match m w with
    | (Ok a, w') => k a w'
    | (Err e, w') => (Err e, w')
    end.

(** [v, err := m]: run [m] and hand back its outcome as a value. *)
Definition catch {A} (m : IO A) : IO (result A) :=
  fun w => let '(r, w') := m w in (Ok r, w').

(** [fmt.Errorf(prefix + ": %w", err)] *)
Definition Errorf (prefix err : string) : string :=
  (prefix ++ ": " ++ err)%string.

#[global] Instance IO_ret : MRet IO := @ret.
#[global] Instance IO_bind : MBind IO := fun A B k m => bind m k.

(** Recording a call, and printing a line. *)
Definition log (c : call) : IO unit :=
  fun w => (Ok tt, World (fs w) (recursiveDepth w) (verbose w)
                         (calls w ++ [c]) (stdout w) (stderr w)).

Definition Printf (l : out_line) : IO unit :=
  fun w => (Ok tt, World (fs w) (recursiveDepth w) (verbose w)
                         (calls w) (stdout w ++ [l]) (stderr w)).

Definition Fprintf_stderr (l : err_line) : IO unit :=
  fun w => (Ok tt, World (fs w) (recursiveDepth w) (verbose w)
                         (calls w) (stdout w) (stderr w ++ [l])).

(** A primitive given by its effect on the state. *)
Definition io {A} (f : world -> result A * world) : IO A := f.

Definition get_verbose : IO bool := fun w => (Ok (verbose w), w).

(** [for _, x := range l { body }] *)
Fixpoint forEach {A} (l : list A) (body : A -> IO unit) : IO unit :=
  match l with
  | [] => ret tt
  | x :: l' => body x;; forEach l' body
  end.

(** ** [os] *)

Definition PathError (op path msg : string) : string :=
  (op ++ " " ++ path ++ ": " ++ msg)%string.

(** [os.Open].  An open file is represented by its path.  A directory
    that can be listed can be opened too: the error comes when it is
    read. *)
Definition os_Open (path : string) : IO string :=
  log (SysOpen path);;
  io (fun w =>
    match fs w !! path with
    | Some (NFile f) =>
        if f_open f then (Ok path, w)
        else (Err (PathError "open" path "permission denied"), w)
    | Some (NDir (Some _)) => (Ok path, w)
    | Some (NDir None) => (Err (PathError "open" path "permission denied"), w)
    | None => (Err (PathError "open" path "no such file or directory"), w)
    end).

(** [file.Stat()] on an open handle: the size in bytes. *)
Definition file_Stat {golib : GoLib} (handle : string) : IO Z :=
  log (SysFstat handle);;
  io (fun w =>
    match fs w !! handle with
    | Some (NFile f) =>
        if f_stat f then (Ok (Z.of_nat (length (data f))), w)
        else (Err (PathError "stat" handle "input/output error"), w)
    | Some (NDir _) => (Ok (dir_Size handle), w)
    | None => (Err (PathError "stat" handle "bad file descriptor"), w)
    end).

(** Reading an open handle to the end. *)
Definition file_ReadAll (handle : string) : IO (list byte) :=
  fun w =>
    match fs w !! handle with
    | Some (NFile f) =>
        if f_read f then (Ok (data f), w)
        else (Err (PathError "read" handle "input/output error"), w)
    | Some (NDir _) => (Err (PathError "read" handle "is a directory"), w)
    | None => (Err (PathError "read" handle "bad file descriptor"), w)
    end.

(** [os.Create]: the file is truncated (or created empty). *)
Definition os_Create (path : string) : IO string :=
  log (SysCreate path);;
  io (fun w =>
    match fs w !! path with
    | Some (NFile f) =>
        if f_create f
        then (Ok path,
              set_fs (<[path := NFile (with_data f [])]> (fs w)) w)
        else (Err (PathError "open" path "permission denied"), w)
    | Some (NDir _) => (Err (PathError "open" path "is a directory"), w)
    | None =>
        (Ok path,
         set_fs (<[path := NFile (File [] true true true true true true)]> (fs w)) w)
    end).

(** Bytes appended through an open handle. *)
Definition file_Write (handle : string) (bs : list byte) : IO unit :=
  fun w =>
    match fs w !! handle with
    | Some (NFile f) =>
        (Ok tt,
         set_fs (<[handle := NFile (with_data f (data f ++ bs))]> (fs w)) w)
    | _ => (Ok tt, w)
    end.

(** [os.ReadDir]: the entries, or an error (and then no entry at all
    reaches the caller). *)
Definition os_ReadDir (path : string) : IO (list DirEntry) :=
  log (SysReadDir path);;
  io (fun w =>
    match fs w !! path with
    | Some (NDir (Some entries)) => (Ok entries, w)
    | Some (NDir None) => (Err (PathError "open" path "permission denied"), w)
    | Some (NFile _) => (Err (PathError "open" path "not a directory"), w)
    | None => (Err (PathError "open" path "no such file or directory"), w)
    end).

(** [os.Stat(path).IsDir()] *)
Definition os_Stat (path : string) : IO bool :=
  log (SysStat path);;
  io (fun w =>
    match fs w !! path with
    | Some (NFile f) =>
        if f_stat f then (Ok false, w)
        else (Err (PathError "stat" path "permission denied"), w)
    | Some (NDir _) => (Ok true, w)
    | None => (Err (PathError "stat" path "no such file or directory"), w)
    end).

(** An encoder writing to an open handle: what it wrote reaches the
    file, then its error, if any, is returned. *)
Definition run_encoder (handle : string) (r : write_result) : IO unit :=
  file_Write handle (written r);;
  match werr r with
  | Some e => fail e
  | None => ret tt
  end.

(** ** The program *)

(** Indexing a Go [map[string]bool]: a missing key yields [false]. *)
Definition map_index (m : gmap string bool) (key : string) : bool :=
  default false (m !! key).

Definition supportedExtensions : gmap string bool :=
  <[".jpg"%string := true]> (<[".jpeg"%string := true]> (<[".png"%string := true]>
    (<[".gif"%string := true]> (<[".webp"%string := true]> ∅)))).

(** The [switch] that ends [estimateJpegQuality]. *)
Definition qualityOfBytesPerPixel (bytesPerPixel : spec_float) : Z :=
  if Float64.ltb bytesPerPixel Float64.c0_5 then 60
  else if Float64.ltb bytesPerPixel Float64.c0_75 then 70
  else if Float64.ltb bytesPerPixel Float64.c1_0 then 80
  else if Float64.ltb bytesPerPixel Float64.c1_5 then 90
  else 95.

(** The [if] chain that ends [estimatePngCompressionLevel]. *)
Definition levelOfSize (size : Z) : CompressionLevel :=
  if size <? 10 * 1024 then NoCompression
  else if size <? 100 * 1024 then BestSpeed
  else if size <? 1024 * 1024 then DefaultCompression
  else BestCompression.

(** The quality [processFile] hands to [jpeg.Encode]. *)
Definition adjustQuality (jpegQuality : Z) : Z :=
  if jpegQuality >? 90 then int64_wrap (jpegQuality - 1)
  else int64_wrap (jpegQuality + 1).

Definition is_jpeg_ext (ext : string) : bool :=
  String.eqb ext ".jpg" || String.eqb ext ".jpeg".

Section Program.

Context {golib : GoLib}.

Definition ToLower (s : string) : string :=
    if all_ascii s then map_string lowerASCII s else unicode_ToLower s.

  (** [image.Decode(file)].  When nothing can be read no format is
      recognised: the read error is dropped and the error is
      [image.ErrFormat]. *)
Definition image_Decode_file (handle : string) : IO (Image * string) :=
    r ← catch (file_ReadAll handle);
    match r with
    | Err _ => fail "image: unknown format"
    | Ok bs =>
        match image_Decode bs with
        | inl e => fail e
        | inr r => ret r
        end
    end.

  (** [imaging.Open(path)] *)
Definition imaging_Open (path : string) : IO Image :=
    file ← os_Open path;
    r ← image_Decode_file file;
    ret (fst r).

  (** [imaging.Save(img, path)]: the library creates the file again and
      writes to it, so the file holds what the library wrote. *)
Definition imaging_Save_file (img : Image) (path : string) : IO unit :=
    log (LibImagingSave path);;
    io (fun w =>
       match fs w !! path with
       | Some (NFile f) =>
           (Ok tt, set_fs (<[path := NFile (with_data f [])]> (fs w)) w)
       | _ => (Ok tt, w)
       end);;
    run_encoder path (imaging_Save img path).

Definition estimateJpegQuality (filePath : string) : IO Z :=
    r ← catch (os_Open filePath);
    match r with
    | Err _ => ret 75
    | Ok file =>
        r ← catch (file_Stat file);
        match r with
        | Err _ => ret 75
        | Ok size =>
            r ← catch (image_Decode_file file);
            match r with
            | Err _ => ret 75
            | Ok (img, format) =>
                if negb (String.eqb format "jpeg") then ret 75
                else
                  let width := Dx img in
                  let height := Dy img in
                  let pixelCount := int64_wrap (width * height) in
                  let bytesPerPixel :=
                    Float64.div (Float64.of_int size) (Float64.of_int pixelCount) in
                  ret (qualityOfBytesPerPixel bytesPerPixel)
            end
        end
    end.

Definition estimatePngCompressionLevel (filePath : string) : IO CompressionLevel :=
    r ← catch (os_Open filePath);
    match r with
    | Err _ => ret DefaultCompression
    | Ok file =>
        r ← catch (file_Stat file);
        match r with
        | Err _ => ret DefaultCompression
        | Ok size => ret (levelOfSize size)
        end
    end.

Definition calculateFileChecksum (path : string) : IO string :=
    file ← os_Open path;
    bs ← file_ReadAll file;
    ret (Hex.EncodeToString (Md5.sum bs)).

Definition wrapErr {A} (prefix : string) (m : IO A) : IO A :=
    fun w =>
      match m w with
      | (Err e, w') => (Err (Errorf prefix e), w')
      | r => r
      end.

Definition when (b : bool) (m : IO unit) : IO unit :=
    if b then m else ret tt.

Definition processFile (path : string) : IO unit :=
    let ext := ToLower (Ext path) in
    if negb (map_index supportedExtensions ext) then
      fail ("unsupported file extension: " ++ ext)%string
    else
      originalChecksum ←
        wrapErr "failed to calculate original checksum" (calculateFileChecksum path);
      est ←
        (if is_jpeg_ext ext then
           q ← estimateJpegQuality path; ret (q, DefaultCompression)
         else if String.eqb ext ".png" then
           l ← estimatePngCompressionLevel path; ret (75, l)
         else ret (75, DefaultCompression));
      let jpegQuality := fst est in
      let compressionLevel := snd est in
      src ← wrapErr "failed to decode image" (imaging_Open path);
      let processed := imaging_AdjustBrightness src in
      outputFile ← wrapErr "failed to create output file" (os_Create path);
      saveErr ←
        (if is_jpeg_ext ext then
           let adjustedQuality := adjustQuality jpegQuality in
           e ← catch (log (LibJpegEncode adjustedQuality);;
                     run_encoder outputFile (jpeg_Encode processed adjustedQuality));
           v ← get_verbose;
           when v (Printf (OutJpegAdjustment jpegQuality adjustedQuality));;
           ret e
         else if String.eqb ext ".png" then
           catch (log (LibPngEncode compressionLevel);;
                run_encoder outputFile (png_Encode compressionLevel processed))
         else
           catch (imaging_Save_file processed path));
      match saveErr with
      | Err e => fail (Errorf "failed to save image" e)
      | Ok _ =>
          newChecksum ←
            wrapErr "failed to calculate new checksum" (calculateFileChecksum path);
          v ← get_verbose;
          match v with
          | true =>
              Printf (OutProcessed path);;
              Printf (OutOriginalChecksum originalChecksum);;
              Printf (OutNewChecksum newChecksum);;
              Printf (OutChecksumChanged (negb (String.eqb originalChecksum newChecksum)))
          | false =>
              Printf (OutProcessedMark path (negb (String.eqb originalChecksum newChecksum)))
          end
      end.

  (** The body of the [for] loop of [processDirectory]; [recurse] is the
      recursive call. *)
Definition processEntry (recurse : string -> Z -> Z -> IO unit)
      (path : string) (currentDepth maxDepth : Z) (entry : DirEntry) : IO unit :=
    let entryPath := filepath_Join path (Name entry) in
    if IsDir entry && (currentDepth <? maxDepth) then
      r ← catch (recurse entryPath (currentDepth + 1) maxDepth);
      match r with
      | Err err => Fprintf_stderr (ErrProcessingDirectory entryPath err)
      | Ok _ => ret tt
      end
    else if negb (IsDir entry) then
      let ext := ToLower (Ext (Name entry)) in
      if map_index supportedExtensions ext then
        r ← catch (processFile entryPath);
        match r with
        | Err err => Fprintf_stderr (ErrProcessingFile entryPath err)
        | Ok _ => ret tt
        end
      else ret tt
    else ret tt.

  (** [processDirectory], with the recursion bounded by [fuel]: a nested
      call is made only while [currentDepth < maxDepth], so
      [maxDepth - currentDepth] nested calls are all there can be. *)
Fixpoint processDirectory_rec (fuel : nat)
      (path : string) (currentDepth maxDepth : Z) : IO unit :=
    if currentDepth >? maxDepth then ret tt
    else
      entries ← wrapErr "failed to read directory" (os_ReadDir path);
      forEach entries
        (processEntry
           (match fuel with
            | O => fun _ _ _ => fail "processDirectory: recursion bound exceeded"
            | S fuel' => processDirectory_rec fuel'
            end)
           path currentDepth maxDepth).

Definition processDirectory (path : string) (currentDepth maxDepth : Z) : IO unit :=
    processDirectory_rec (Z.to_nat (maxDepth - currentDepth)) path currentDepth maxDepth.

  (** The [Run] closure of [main]: the exit status and the final state. *)
Definition Run (path : string) (w : world) : Z * world :=
    match os_Stat path w with
    | (Err err, w1) => (1, snd (Fprintf_stderr (ErrError err) w1))
    | (Ok isDir, w1) =>
        match (if isDir then processDirectory path 0 (recursiveDepth w1)
               else processFile path) w1 with
        | (Err err, w2) => (1, snd (Fprintf_stderr (ErrError err) w2))
        | (Ok _, w2) => (0, w2)
        end
    end.

End Program.

(** ** What the functions compute, as functions of the file system

    The effectful functions above only read the file system; the
    definitions below give their results in closed form.  They are used
    to state and prove the properties; the equations that link them to
    the program are proved further down. *)

Definition add_calls (cs : list call) (w : world) : world :=
  World (fs w) (recursiveDepth w) (verbose w) (calls w ++ cs) (stdout w) (stderr w).

(** What [os.Open] returns on [path]. *)
Definition openOf (m : gmap string node) (path : string) : result string :=
  match m !! path with
  | Some (NFile f) =>
      if f_open f then Ok path else Err (PathError "open" path "permission denied")
  | Some (NDir (Some _)) => Ok path
  | Some (NDir None) => Err (PathError "open" path "permission denied")
  | None => Err (PathError "open" path "no such file or directory")
  end.

(** Whether [os.Open] succeeds on [path]. *)
Definition opens (m : gmap string node) (path : string) : bool :=
  match m !! path with
  | Some (NFile f) => f_open f
  | Some (NDir (Some _)) => true
  | _ => false
  end.

(** The system calls of either estimator. *)
Definition estimate_calls (m : gmap string node) (path : string) : list call :=
  SysOpen path :: (if opens m path then [SysFstat path] else []).

Definition checksumOf (m : gmap string node) (path : string) : result string :=
  match m !! path with
  | Some (NFile f) =>
      if f_open f then
        if f_read f then Ok (Hex.EncodeToString (Md5.sum (data f)))
        else Err (PathError "read" path "input/output error")
      else Err (PathError "open" path "permission denied")
  | Some (NDir (Some _)) => Err (PathError "read" path "is a directory")
  | Some (NDir None) => Err (PathError "open" path "permission denied")
  | None => Err (PathError "open" path "no such file or directory")
  end.

(** The table of the JPEG estimator read over the exact ratio
    [size / pixels], for a positive pixel count: [size / pixels < 1/2]
    is [2 * size < pixels], and so on. *)
Definition qualityOfExactRatio (size pixels : Z) : Z :=
  if 2 * size <? pixels then 60
  else if 4 * size <? 3 * pixels then 70
  else if size <? pixels then 80
  else if 2 * size <? 3 * pixels then 90
  else 95.

(** Two file systems with the same directories. *)
Definition same_dirs (m m' : gmap string node) : Prop :=
  forall p l, m !! p = Some (NDir l) <-> m' !! p = Some (NDir l).

(** The path a line of standard output is about. *)
Definition line_path (l : out_line) : option string :=
  match l with
  | OutProcessed p | OutProcessedMark p _ => Some p
  | _ => None
  end.

(** [processFile] was run on [p]: it printed its report, or the walk
    printed its error. *)
Definition reported (p : string) (os : list out_line) (es : list err_line) : Prop :=
  (exists l, l ∈ os /\ line_path l = Some p) \/ (exists e, ErrProcessingFile p e ∈ es).

(** [w'] is [w] after more calls and more output, with the same
    directories and flags. *)
Record grows (w w' : world) (cs : list call) (os : list out_line) (es : list err_line) : Prop :=
  Grows {
    g_dirs : same_dirs (fs w) (fs w');
    g_depth : recursiveDepth w' = recursiveDepth w;
    g_verbose : verbose w' = verbose w;
    g_calls : calls w' = calls w ++ cs;
    g_stdout : stdout w' = stdout w ++ os;
    g_stderr : stderr w' = stderr w ++ es
  }.

Definition is_encoder_call (c : call) : bool :=
  match c with
  | LibJpegEncode _ | LibPngEncode _ | LibImagingSave _ => true
  | _ => false
  end.

Section Semantics.

Context {golib : GoLib}.

Definition pngLevelOf (m : gmap string node) (path : string) : CompressionLevel :=
    match m !! path with
    | Some (NFile f) =>
        if f_open f && f_stat f then levelOfSize (Z.of_nat (length (data f)))
        else DefaultCompression
    | Some (NDir (Some _)) => levelOfSize (dir_Size path)
    | _ => DefaultCompression
    end.

Definition decodedAt (m : gmap string node) (path : string) : result (Image * string) :=
    match m !! path with
    | Some (NFile f) =>
        if f_read f then
          match image_Decode (data f) with
          | inl e => Err e
          | inr r => Ok r
          end
        else Err "image: unknown format"%string
    | _ => Err "image: unknown format"%string
    end.

  (** [float64(fileInfo.Size()) / float64(pixelCount)] *)
Definition bytesPerPixelOf (size : Z) (img : Image) : spec_float :=
    Float64.div (Float64.of_int size) (Float64.of_int (int64_wrap (Dx img * Dy img))).

Definition jpegQualityOf (m : gmap string node) (path : string) : Z :=
    match m !! path with
    | Some (NFile f) =>
        if f_open f && f_stat f then
          match decodedAt m path with
          | Ok (img, format) =>
              if String.eqb format "jpeg"
              then qualityOfBytesPerPixel (bytesPerPixelOf (Z.of_nat (length (data f))) img)
              else 75
          | Err _ => 75
          end
        else 75
    | _ => 75
    end.

  (** *** The outcomes of [processFile path] from the state [w] *)

Section Outcome.

Variables (path : string) (w : world).

Definition extOf : string := ToLower (Ext path).

    (** [jpegQuality] and [compressionLevel] after the estimation step. *)
Definition estimateOf : Z * CompressionLevel :=
      if is_jpeg_ext extOf then (jpegQualityOf (fs w) path, DefaultCompression)
      else if String.eqb extOf ".png" then (75, pngLevelOf (fs w) path)
      else (75, DefaultCompression).

    (** The calls up to and including [imaging.Open]. *)
Definition read_calls : list call :=
      SysOpen path ::
      (if is_jpeg_ext extOf || String.eqb extOf ".png"
       then estimate_calls (fs w) path else []) ++
      [SysOpen path].

Definition encoder_call : call :=
      if is_jpeg_ext extOf then LibJpegEncode (adjustQuality (fst estimateOf))
      else if String.eqb extOf ".png" then LibPngEncode (snd estimateOf)
      else LibImagingSave path.

Definition encoder_result (src : Image) : write_result :=
      let processed := imaging_AdjustBrightness src in
      if is_jpeg_ext extOf then jpeg_Encode processed (adjustQuality (fst estimateOf))
      else if String.eqb extOf ".png" then png_Encode (snd estimateOf) processed
      else imaging_Save processed path.

Definition adjustment_lines : list out_line :=
      if is_jpeg_ext extOf && verbose w
      then [OutJpegAdjustment (fst estimateOf) (adjustQuality (fst estimateOf))]
      else [].

Definition report_lines (originalChecksum newChecksum : string) : list out_line :=
      let changed := negb (String.eqb originalChecksum newChecksum) in
      if verbose w
      then [OutProcessed path; OutOriginalChecksum originalChecksum;
            OutNewChecksum newChecksum; OutChecksumChanged changed]
      else [OutProcessedMark path changed].

    (** The state once the encoder returned, having written [bs]. *)
Definition after_encoding (f : file) (bs : list byte) (more : list call)
        (lines : list out_line) : world :=
      World (<[path := NFile (with_data f bs)]> (fs w)) (recursiveDepth w) (verbose w)
            (calls w ++ read_calls ++ SysCreate path :: encoder_call :: more)
            (stdout w ++ adjustment_lines ++ lines) (stderr w).

Inductive processFile_outcome : result unit -> world -> Prop :=
    | PF_unsupported :
        map_index supportedExtensions extOf = false ->
        processFile_outcome (Err ("unsupported file extension: " ++ extOf)%string) w
    | PF_checksum_failed e :
        map_index supportedExtensions extOf = true ->
        checksumOf (fs w) path = Err e ->
        processFile_outcome
          (Err (Errorf "failed to calculate original checksum" e))
          (add_calls [SysOpen path] w)
    | PF_decode_failed f e :
        map_index supportedExtensions extOf = true ->
        fs w !! path = Some (NFile f) -> f_open f = true -> f_read f = true ->
        image_Decode (data f) = inl e ->
        processFile_outcome
          (Err (Errorf "failed to decode image" e))
          (add_calls read_calls w)
    | PF_create_failed f src format :
        map_index supportedExtensions extOf = true ->
        fs w !! path = Some (NFile f) -> f_open f = true -> f_read f = true ->
        image_Decode (data f) = inr (src, format) ->
        f_create f = false ->
        processFile_outcome
          (Err (Errorf "failed to create output file"
                  (PathError "open" path "permission denied")))
          (add_calls (read_calls ++ [SysCreate path]) w)
    | PF_save_failed f src format e :
        map_index supportedExtensions extOf = true ->
        fs w !! path = Some (NFile f) -> f_open f = true -> f_read f = true ->
        image_Decode (data f) = inr (src, format) ->
        f_create f = true ->
        werr (encoder_result src) = Some e ->
        processFile_outcome
          (Err (Errorf "failed to save image" e))
          (after_encoding f (written (encoder_result src)) [] [])
    | PF_rechecksum_failed f src format e :
        map_index supportedExtensions extOf = true ->
        fs w !! path = Some (NFile f) -> f_open f = true -> f_read f = true ->
        image_Decode (data f) = inr (src, format) ->
        f_create f = true ->
        werr (encoder_result src) = None ->
        checksumOf (<[path := NFile (with_data f (written (encoder_result src)))]> (fs w)) path
        = Err e ->
        processFile_outcome
          (Err (Errorf "failed to calculate new checksum" e))
          (after_encoding f (written (encoder_result src)) [SysOpen path] [])
    | PF_done f src format :
        map_index supportedExtensions extOf = true ->
        fs w !! path = Some (NFile f) -> f_open f = true -> f_read f = true ->
        image_Decode (data f) = inr (src, format) ->
        f_create f = true ->
        werr (encoder_result src) = None ->
        f_reopen f = true -> f_reread f = true ->
        processFile_outcome (Ok tt)
          (after_encoding f (written (encoder_result src)) [SysOpen path]
             (report_lines (Hex.EncodeToString (Md5.sum (data f)))
                (Hex.EncodeToString (Md5.sum (written (encoder_result src)))))).

End Outcome.

  (** *** Directory levels *)

  (** [dir_at m root k d]: [d] is reached from [root] through [k] listed
      sub-directory entries, so it lies [k] levels below [root]. *)
Inductive dir_at (m : gmap string node) : string -> nat -> string -> Prop :=
  | at_root root : dir_at m root 0 root
  | at_below root entries name k d :
      m !! root = Some (NDir (Some entries)) ->
      Entry name true ∈ entries ->
      dir_at m (filepath_Join root name) k d ->
      dir_at m root (S k) d.

  (** [p] is a file entry with a supported extension of the directory [d]. *)
Definition eligible_in (m : gmap string node) (d p : string) : Prop :=
    exists entries name,
      m !! d = Some (NDir (Some entries)) /\ Entry name false ∈ entries /\
      map_index supportedExtensions (ToLower (Ext name)) = true /\
      p = filepath_Join d name.

  (** [p] is an eligible file of a directory [k] levels below [path],
      for a [k] with [cur + k <= max]. *)
Definition within_bound (m : gmap string node) (path : string) (cur max : Z)
      (p : string) : Prop :=
    exists (k : nat) (d : string),
      cur + Z.of_nat k <= max /\ dir_at m path k d /\ eligible_in m d p.

  (** The same for what one turn of the loop reaches through the entry
      [e]: the entry itself when it is an eligible file, or what lies
      within the bound below it when it is a directory. *)
Definition through_entry (m : gmap string node) (path : string) (cur max : Z)
      (e : DirEntry) (p : string) : Prop :=
    (IsDir e = false /\
     map_index supportedExtensions (ToLower (Ext (Name e))) = true /\
     p = filepath_Join path (Name e)) \/
    (IsDir e = true /\ within_bound m (filepath_Join path (Name e)) (cur + 1) max p).

  (** The shape of the three specifications below: the state grows by
      [cs], [os] and [es]; the directories read are those [dirs]
      describes; [processFile] is run on the paths [files] describes,
      which shows in what is printed ([reported]) and in the first
      system call of [processFile], the [open] for the original
      checksum, made when the extension of the whole path is
      supported. *)
Definition post (dirs files : string -> Prop) (w w' : world) : Prop :=
    exists cs os es,
      grows w w' cs os es /\
      (forall d, SysReadDir d ∈ cs <-> dirs d) /\
      (forall p, reported p os es <-> files p) /\
      (forall p, SysOpen p ∈ cs <->
                 files p /\ map_index supportedExtensions (ToLower (Ext p)) = true).

  (** What a walk of [path] at depth [cur] with bound [max] adds to the
      state [w]: it reads exactly the directories [k] levels below [path]
      with [cur + k <= max], and runs [processFile] on exactly the
      eligible files of those directories. *)
Definition walk_post (path : string) (cur max : Z) (w w' : world) : Prop :=
    post (fun d => exists k : nat, cur + Z.of_nat k <= max /\ dir_at (fs w) path k d)
         (within_bound (fs w) path cur max) w w'.

  (** The same for one turn of the loop, on the entry [e], and for the
      loop over the entries [l]. *)
Definition entry_post (path : string) (cur max : Z) (e : DirEntry) (w w' : world) : Prop :=
    post (fun d => IsDir e = true /\
                   exists k : nat, cur + 1 + Z.of_nat k <= max /\
                                   dir_at (fs w) (filepath_Join path (Name e)) k d)
         (through_entry (fs w) path cur max e) w w'.

Definition loop_post (path : string) (cur max : Z) (l : list DirEntry) (w w' : world) : Prop :=
    post (fun d => exists e, e ∈ l /\ IsDir e = true /\
                   exists k : nat, cur + 1 + Z.of_nat k <= max /\
                                   dir_at (fs w) (filepath_Join path (Name e)) k d)
         (fun p => exists e, e ∈ l /\ through_entry (fs w) path cur max e p) w w'.

End Semantics.

(** ** A small concrete library, for running the program

    A toy image format: a tag byte ([J]peg, [P]ng or [G]if), width,
    height, one parameter byte (the quality or the compression level the
    file was written with), then one byte per pixel. *)

Module Demo.

Record img := Img {
    i_format : string;
    i_width : Z;
    i_height : Z;
    i_pixels : list byte
  }.

Definition decode (bs : list byte) : string + (img * string) :=
    match bs with
    | tag :: w :: h :: _ :: px =>
        let mk fmt := inr (Img fmt (byte_to_Z w) (byte_to_Z h) px, fmt) in
        if Byte.eqb tag x4a then mk "jpeg"%string
        else if Byte.eqb tag x50 then mk "png"%string
        else if Byte.eqb tag x47 then mk "gif"%string
        else inl "image: unknown format"%string
    | _ => inl "image: unknown format"%string
    end.

Definition brighten (i : img) : img :=
    Img (i_format i) (i_width i) (i_height i)
        (List.map (fun b => byte_of_Z (Z.min 255 (byte_to_Z b + 1))) (i_pixels i)).

Definition encode (tag : byte) (param : Z) (i : img) : list byte :=
    tag :: byte_of_Z (i_width i) :: byte_of_Z (i_height i) :: byte_of_Z param :: i_pixels i.

Definition level_code (l : CompressionLevel) : Z :=
    match l with
    | DefaultCompression => 0
    | NoCompression => 1
    | BestSpeed => 2
    | BestCompression => 3
    end.

  (** [imaging.Save] picks the format from the file name and knows no
      WebP encoder. *)
Definition save (i : img) (path : string) : write_result :=
    let ext := map_string lowerASCII (Ext path) in
    if String.eqb ext ".jpg" || String.eqb ext ".jpeg" then WriteResult (encode x4a 95 i) None
    else if String.eqb ext ".png" then WriteResult (encode x50 0 i) None
    else if String.eqb ext ".gif" then WriteResult (encode x47 0 i) None
    else WriteResult [] (Some "imaging: unsupported image format"%string).

Definition lib : GoLib := {|
    Image := img;
    Dx := i_width;
    Dy := i_height;
    image_Decode := decode;
    imaging_AdjustBrightness := brighten;
    jpeg_Encode := fun i q => WriteResult (encode x4a q i) None;
    png_Encode := fun l i => WriteResult (encode x50 (level_code l) i) None;
    imaging_Save := save;
    filepath_Join := fun dir name => (dir ++ "/" ++ name)%string;
    unicode_ToLower := fun s => s;
    dir_Size := fun _ => 4096
  |}.

  (** A library whose JPEG encoder fails after writing two bytes. *)
Definition failing_lib : GoLib := {|
    Image := img;
    Dx := i_width;
    Dy := i_height;
    image_Decode := decode;
    imaging_AdjustBrightness := brighten;
    jpeg_Encode := fun i q => WriteResult [xff; xd8] (Some "write: no space left on device"%string);
    png_Encode := fun l i => WriteResult (encode x50 (level_code l) i) None;
    imaging_Save := save;
    filepath_Join := fun dir name => (dir ++ "/" ++ name)%string;
    unicode_ToLower := fun s => s;
    dir_Size := fun _ => 4096
  |}.

Definition plain (bs : list byte) : node := NFile (File bs true true true true true true).

  (** A directory with a 2x2 JPEG, a file that is not an image, a 2x2
      PNG, a text file and a sub-directory two levels deep; and, next
      to it, a PNG payload under a [.webp] name. *)
Definition jpg_bytes : list byte := [x4a; x02; x02; x50; x10; x20; x30; x40].
Definition png_bytes : list byte := [x50; x02; x02; x03; x10; x20; x30; x40].

Definition tree : gmap string node :=
    <["d"%string := NDir (Some [Entry "a.jpg" false; Entry "b.jpg" false;
                               Entry "c.png" false; Entry "notes.txt" false;
                               Entry "sub" true])]>
    (<["d/a.jpg"%string := plain jpg_bytes]>
    (<["d/b.jpg"%string := plain [x00; x01]]>
    (<["d/c.png"%string := plain png_bytes]>
    (<["d/notes.txt"%string := plain [x68; x69]]>
    (<["d/sub"%string := NDir (Some [Entry "e.PNG" false; Entry "deep" true])]>
    (<["d/sub/e.PNG"%string := plain png_bytes]>
    (<["d/sub/deep"%string := NDir (Some [Entry "f.jpg" false])]>
    (<["d/sub/deep/f.jpg"%string := plain jpg_bytes]>
    (<["w.webp"%string := plain png_bytes]> ∅))))))))).

Definition start (depth : Z) (v : bool) : world := World tree depth v [] [] [].

End Demo.

(** ** Further definitions used to state properties *)

(** The zlib level [image/png] turns a [CompressionLevel] into
    ([levelToZlib]; the default is zlib's level 6). *)
Definition zlib_level (l : CompressionLevel) : Z :=
  match l with
  | NoCompression => 0
  | BestSpeed => 1
  | DefaultCompression => 6
  | BestCompression => 9
  end.

(** Reading back what [Hex.EncodeToString] writes. *)
Module HexDecode.

Definition fromHexChar (c : ascii) : option Z :=
    let n := Z.of_N (N_of_ascii c) in
    if (48 <=? n) && (n <=? 57) then Some (n - 48)
    else if (97 <=? n) && (n <=? 102) then Some (n - 97 + 10)
    else None.

Fixpoint DecodeString (s : string) : option (list byte) :=
    match s with
    | EmptyString => Some []
    | String hi (String lo rest) =>
        match fromHexChar hi, fromHexChar lo, DecodeString rest with
        | Some h, Some l, Some bs => Some (byte_of_Z (16 * h + l) :: bs)
        | _, _, _ => None
        end
    | String _ EmptyString => None
    end.

End HexDecode.

(** A name as [os.ReadDir] returns it: not empty, without a separator,
    and neither [.] nor [..]. *)
Fixpoint no_slash (s : string) : bool :=
  match s with
  | EmptyString => true
  | String c rest => negb (Ascii.eqb c "/") && no_slash rest
  end.

Definition entry_name (name : string) : bool :=
  negb (String.eqb name "") && no_slash name &&
  negb (String.eqb name ".") && negb (String.eqb name "..").

(** ** The earlier copy of the program

    The repository holds a second copy of the Go file whose
    [processFile] makes no estimate: it encodes JPEG at quality 99 and
    PNG at best compression, and words the decoding error differently.
    Its other functions are those of [main.go]. *)

Module Legacy.

Section Program.

Context {golib : GoLib}.

Definition processFile (path : string) : IO unit :=
      let ext := ToLower (Ext path) in
      if negb (map_index supportedExtensions ext) then
        fail ("unsupported file extension: " ++ ext)%string
      else
        originalChecksum ←
          wrapErr "failed to calculate original checksum" (calculateFileChecksum path);
        src ← wrapErr "failed to open image" (imaging_Open path);
        let processed := imaging_AdjustBrightness src in
        outputFile ← wrapErr "failed to create output file" (os_Create path);
        saveErr ←
          (if is_jpeg_ext ext then
             catch (log (LibJpegEncode 99);;
                    run_encoder outputFile (jpeg_Encode processed 99))
           else if String.eqb ext ".png" then
             catch (log (LibPngEncode BestCompression);;
                    run_encoder outputFile (png_Encode BestCompression processed))
           else
             catch (imaging_Save_file processed path));
        match saveErr with
        | Err e => fail (Errorf "failed to save image" e)
        | Ok _ =>
            newChecksum ←
              wrapErr "failed to calculate new checksum" (calculateFileChecksum path);
            v ← get_verbose;
            match v with
            | true =>
                Printf (OutProcessed path);;
                Printf (OutOriginalChecksum originalChecksum);;
                Printf (OutNewChecksum newChecksum);;
                Printf (OutChecksumChanged (negb (String.eqb originalChecksum newChecksum)))
            | false =>
                Printf (OutProcessedMark path (negb (String.eqb originalChecksum newChecksum)))
            end
        end.

    (** The encoder call of the earlier [processFile]. *)
Definition encoder_call (path : string) : call :=
      let ext := ToLower (Ext path) in
      if is_jpeg_ext ext then LibJpegEncode 99
      else if String.eqb ext ".png" then LibPngEncode BestCompression
      else LibImagingSave path.

End Program.

End Legacy.

(** ** The build script

    For each target [os/arch] it builds the binary and copies it to
    [npm/bin] under a name with the target in it. *)

Module Build.

Definition BINARY : string := "alternate-assets".

Definition PLATFORMS : list string :=
    ["darwin/amd64"; "darwin/arm64"; "linux/amd64"; "linux/arm64"; "windows/amd64"]%string.

  (** What is left of [s] before its last slash, if it has one. *)
Fixpoint before_last_slash (s : string) : option string :=
    match s with
    | EmptyString => None
    | String c rest =>
        match before_last_slash rest with
        | Some t => Some (String c t)
        | None => if Ascii.eqb c "/" then Some EmptyString else None
        end
    end.

  (** What is left of [s] after its first slash, if it has one. *)
Fixpoint after_first_slash (s : string) : option string :=
    match s with
    | EmptyString => None
    | String c rest => if Ascii.eqb c "/" then Some rest else after_first_slash rest
    end.

  (** [${PLATFORM%/*}]: the shortest suffix matching [/*] removed. *)
Definition GOOS (PLATFORM : string) : string :=
    default PLATFORM (before_last_slash PLATFORM).

  (** [${PLATFORM#*/}]: the shortest prefix matching [*/] removed. *)
Definition GOARCH (PLATFORM : string) : string :=
    default PLATFORM (after_first_slash PLATFORM).

  (** A word the shell hands on as it is when it expands it without
      quotes: not empty, no blank to split it at, and no character of a
      file name pattern. *)
Definition plain_char (c : ascii) : bool :=
    negb (Ascii.eqb c " " || Ascii.eqb c "009" || Ascii.eqb c "010"
          || Ascii.eqb c "*" || Ascii.eqb c "?" || Ascii.eqb c "[" || Ascii.eqb c "\").

Fixpoint plain_chars (s : string) : bool :=
    match s with
    | EmptyString => true
    | String c rest => plain_char c && plain_chars rest
    end.

Definition plain_word (s : string) : bool :=
    negb (String.eqb s "") && plain_chars s.

  (** [[ $GOOS = "windows" ]].  [$GOOS] is not quoted: the shell splits
      it into words and expands patterns before the test sees it.  For
      a plain word the test compares that word with ["windows"]; what
      the test is handed otherwise (no word, several words, file names)
      is not modelled, and the result is [None]. *)
Definition is_windows (goos : string) : option bool :=
    if plain_word goos then Some (String.eqb goos "windows") else None.

Definition NPM_BINARY (goos goarch : string) : option string :=
    match is_windows goos with
    | Some windows =>
        Some (BINARY ++ "-" ++ goos ++ "-" ++ goarch
              ++ (if windows then ".exe" else ""))%string
    | None => None
    end.

  (** The names the loop copies to [npm/bin], in order. *)
Definition npm_binaries : list (option string) :=
    List.map (fun PLATFORM => NPM_BINARY (GOOS PLATFORM) (GOARCH PLATFORM)) PLATFORMS.

End Build.

(** ** The npm wrapper, [npm/bin/alternate-assets.js] *)

Module Wrapper.

  (** What [execFileSync] did: it returned, or it threw an error whose
      [status] is the exit code of the child ([None] when the property
      is [null] or missing: the child was killed or never started). *)
Inductive exec_outcome :=
  | Returned
  | Threw (status : option Z).

  (** What the script gets from Node and from the machine.
      [accessSync_X_OK] tells whether [fs.accessSync(location, X_OK)]
      returns rather than throws. *)
Record env := Env {
    os_platform : string;
    os_arch : string;
    dirname : string;
    argv : list string;
    path_join : list string -> string;
    accessSync_X_OK : string -> bool;
    execFileSync : string -> list string -> exec_outcome
  }.

Definition platforms : gmap string string :=
    <["win32"%string := "windows"%string]> (<["darwin"%string := "darwin"%string]>
      (<["linux"%string := "linux"%string]> (<["freebsd"%string := "freebsd"%string]> ∅))).

Definition architectures : gmap string string :=
    <["x64"%string := "amd64"%string]> (<["arm64"%string := "arm64"%string]>
      (<["x32"%string := "386"%string]> (<["ia32"%string := "386"%string]> ∅))).

  (** [table[key] || key]: a missing entry and the empty string are
      falsy.  (Property names an object inherits are not names of
      platforms or architectures and are left out.) *)
Definition lookup_or_key (table : gmap string string) (key : string) : string :=
    match table !! key with
    | Some v => if String.eqb v "" then key else v
    | None => key
    end.

Definition getPlatformName (e : env) : string := lookup_or_key platforms (os_platform e).
Definition getArchName (e : env) : string := lookup_or_key architectures (os_arch e).

Definition extension (e : env) : string :=
    if String.eqb (os_platform e) "win32" then ".exe"%string else ""%string.

Definition platformSpecificBinary (e : env) : string :=
    ("alternate-assets-" ++ getPlatformName e ++ "-" ++ getArchName e ++ extension e)%string.

Definition genericBinary (e : env) : string :=
    ("alternate-assets" ++ extension e)%string.

Definition binLocations (e : env) : list string :=
    [ path_join e [dirname e; platformSpecificBinary e];
      path_join e [dirname e; genericBinary e];
      path_join e [dirname e; ".."; ".."; genericBinary e]%string;
      genericBinary e ].

  (** The [for] loop: the first location that can be accessed is kept
      and the loop is left. *)
Fixpoint findBinary (e : env) (locations : list string) (binaryPath : option string)
      : option string :=
    match locations with
    | [] => binaryPath
    | location :: rest =>
        if accessSync_X_OK e location then Some location
        else findBinary e rest binaryPath
    end.

Record outcome := Outcome {
    exit_code : Z;
    console_error : list string;
    (** the binary that was run and its arguments *)
    executed : option (string * list string)
  }.

  (** [error.status || 1] *)
Definition status_or_1 (status : option Z) : Z :=
    match status with
    | Some n => if n =? 0 then 1 else n
    | None => 1
    end.

Definition main (e : env) : outcome :=
    match findBinary e (binLocations e) None with
    | Some binaryPath =>
        if String.eqb binaryPath "" then
          Outcome 1 ["Error: Could not find alternate-assets binary. Please ensure it is installed correctly."%string] None
        else
          let args := drop 2 (argv e) in
          match execFileSync e binaryPath args with
          | Returned => Outcome 0 [] (Some (binaryPath, args))
          | Threw status => Outcome (status_or_1 status) [] (Some (binaryPath, args))
          end
    | None =>
        Outcome 1 ["Error: Could not find alternate-assets binary. Please ensure it is installed correctly."%string] None
    end.

  (** A machine for running the script: Windows on x64, the package
      installed under [/pkg/bin] with only the generic binary in it,
      and a binary that exits with status 1. *)
Definition demo : env :=
    Env "win32" "x64" "/pkg/bin" ["node"; "alternate-assets.js"; "photos"; "-r"; "1"]%string
        (fun parts => fold_right (fun p acc => if String.eqb acc "" then p else (p ++ "/" ++ acc)%string)
                                 ""%string parts)
        (fun location => String.eqb location "/pkg/bin/alternate-assets.exe")
        (fun _ _ => Threw (Some 1)).

End Wrapper.


(** More concrete states for running the program. *)
Module DemoMore.

  (** A directory whose listing cannot be read. *)
Definition locked : world :=
    World (<["secret"%string := NDir None]> ∅) 0 false [] [] [].

  (** A JPEG header announcing a width of 0: an image without pixels. *)
Definition empty_jpeg : world :=
    World (<["z.jpg"%string := Demo.plain [x4a; x00; x02; x50]]> ∅) 0 false [] [] [].

  (** A JPEG that can no longer be opened once it has been written to. *)
Definition fragile : world :=
    World (<["a.jpg"%string :=
               NFile (File Demo.jpg_bytes true true true true false true)]> ∅)
          0 true [] [] [].

End DemoMore.
Example md5_empty :
  Hex.EncodeToString (Md5.sum []) = "d41d8cd98f00b204e9800998ecf8427e"%string.
Proof. vm_compute. reflexivity. Qed.

Example md5_abc :
  Hex.EncodeToString (Md5.sum (bytes_of_string "abc"))
  = "900150983cd24fb0d6963f7d28e17f72"%string.
Proof. vm_compute. reflexivity. Qed.

Example md5_two_blocks :
  Hex.EncodeToString (Md5.sum (replicate 70 x61))
  = "0f5c6c4e740bfcc08c3c26ccb2673d46"%string.
Proof. vm_compute. reflexivity. Qed.


(** * [float64]: the quotient against the thresholds

    [SpecFloat] gives the IEEE-754 operations as functions on mantissas
    and exponents.  The lemmas below follow [float64(size) /
    float64(pixels)] through them, for integers that [float64] holds
    exactly, and compare the rounded quotient with the four thresholds
    of [estimateJpegQuality]. *)


Lemma digits2_pos_bounds (p : positive) :
  2 ^ (Zpos (digits2_pos p) - 1) <= Zpos p < 2 ^ Zpos (digits2_pos p).
Proof.
  induction p as [p IH|p IH|]; cbn [digits2_pos].
  - rewrite Pos2Z.inj_succ. change (Zpos p~1) with (2 * Zpos p + 1).
    replace (Z.succ (Zpos (digits2_pos p)) - 1) with (Z.succ (Zpos (digits2_pos p) - 1)) by lia.
    rewrite !Z.pow_succ_r by lia.
    destruct IH as [IH1 IH2]. revert IH1 IH2.
    generalize (2 ^ (Zpos (digits2_pos p) - 1)) (2 ^ Zpos (digits2_pos p)). intros; lia.
  - rewrite Pos2Z.inj_succ. change (Zpos p~0) with (2 * Zpos p).
    replace (Z.succ (Zpos (digits2_pos p)) - 1) with (Z.succ (Zpos (digits2_pos p) - 1)) by lia.
    rewrite !Z.pow_succ_r by lia.
    destruct IH as [IH1 IH2]. revert IH1 IH2.
    generalize (2 ^ (Zpos (digits2_pos p) - 1)) (2 ^ Zpos (digits2_pos p)). intros; lia.
  - cbn. lia.
Qed.

Lemma digits2_pos_unique (p : positive) (k : Z) :
  2 ^ (k - 1) <= Zpos p < 2 ^ k -> Zpos (digits2_pos p) = k.
Proof.
  intros [Hlo Hhi]. pose proof (digits2_pos_bounds p) as [Hlo' Hhi'].
  set (d := Zpos (digits2_pos p)) in *.
  assert (Hd : 1 <= d) by (unfold d; lia).
  destruct (Z.lt_trichotomy d k) as [Hlt|[Heq|Hgt]]; [|exact Heq|].
  - pose proof (Z.pow_le_mono_r 2 d (k - 1) ltac:(lia) ltac:(lia)). lia.
  - destruct (Z.le_gt_cases 0 k) as [Hk|Hk].
    + pose proof (Z.pow_le_mono_r 2 k (d - 1) ltac:(lia) ltac:(lia)). lia.
    + rewrite (Z.pow_neg_r 2 k) in Hhi by lia. lia.
Qed.

Lemma iter_xO_value (m d : positive) :
  Zpos (Pos.iter xO m d) = Zpos m * 2 ^ Zpos d.
Proof.
  apply (Pos.iter_ind _ xO m (fun d r => Zpos r = Zpos m * 2 ^ Zpos d)).
  - change (Zpos m~0) with (2 * Zpos m). change (2 ^ 1) with 2. lia.
  - intros p r IH. change (Zpos r~0) with (2 * Zpos r). rewrite IH, Pos2Z.inj_succ, Z.pow_succ_r by lia. lia.
Qed.

(** Rounding a 53-bit mantissa that is exact changes nothing. *)
Lemma binary_round_aux_exact (sx : bool) (m : positive) (e : Z) :
  Zpos (digits2_pos m) = 53 -> -1074 <= e <= 971 ->
  binary_round_aux 53 1024 sx (Zpos m) e loc_Exact = S754_finite sx m e.
Proof.
  intros Hd He. unfold binary_round_aux, shr_fexp. cbn [Zdigits2 shr_record_of_loc].
  rewrite Hd.
  assert (Hz : fexp 53 1024 (53 + e) - e = 0) by (unfold fexp, emin; lia).
  rewrite Hz. cbn [shr shr_m loc_of_shr_record round_nearest_even Zdigits2 shr_record_of_loc].
  rewrite Hd, Hz. cbn [shr shr_m].
  destruct (Z.leb_spec e (1024 - 53)); [reflexivity|lia].
Qed.

Lemma of_int_normal (n : Z) :
  0 < n < 2 ^ 53 ->
  exists (m : positive) (e : Z),
    Float64.of_int n = S754_finite false m e /\
    Zpos (digits2_pos m) = 53 /\ -52 <= e <= 0 /\ Zpos m = n * 2 ^ (- e).
Proof.
  intros [Hpos Hlt]. destruct n as [|p|p]; try lia.
  pose proof (digits2_pos_bounds p) as [Hlo Hhi].
  set (d := Zpos (digits2_pos p)) in *.
  assert (Hd : 1 <= d <= 53).
  { split; [unfold d; lia|].
    destruct (Z.le_gt_cases d 53) as [|Hgt]; [assumption|].
    pose proof (Z.pow_le_mono_r 2 53 (d - 1) ltac:(lia) ltac:(lia)). lia. }
  unfold Float64.of_int, Float64.prec, Float64.emax, binary_normalize, binary_round, shl_align.
  fold d.
  assert (Hf : fexp 53 1024 (d + 0) - 0 = d - 53) by (unfold fexp, emin; lia).
  rewrite Hf. replace (fexp 53 1024 (d + 0)) with (d - 53) by (unfold fexp, emin; lia).
  destruct (d - 53) as [|k|k] eqn:Hk; try lia.
  - exists p, 0. split; [apply binary_round_aux_exact; [fold d; lia|lia]|].
    split; [fold d; lia|]. split; [lia|]. change (2 ^ (- 0)) with 1. lia.
  - exists (Pos.iter xO p k), (Zneg k).
    assert (Hval : Zpos (Pos.iter xO p k) = Zpos p * 2 ^ Zpos k) by apply iter_xO_value.
    assert (Hdig : Zpos (digits2_pos (Pos.iter xO p k)) = 53).
    { apply digits2_pos_unique. rewrite Hval.
      assert (H52 : 2 ^ (53 - 1) = 2 ^ (d - 1) * 2 ^ Zpos k).
      { rewrite <- Z.pow_add_r by lia. f_equal. lia. }
      assert (H53 : 2 ^ 53 = 2 ^ d * 2 ^ Zpos k).
      { rewrite <- Z.pow_add_r by lia. f_equal. lia. }
      rewrite H52, H53.
      assert (0 < 2 ^ Zpos k) by (apply Z.pow_pos_nonneg; lia).
      split; [apply Z.mul_le_mono_nonneg_r; lia|apply Z.mul_lt_mono_pos_r; lia]. }
    split; [apply binary_round_aux_exact; [exact Hdig|lia]|].
    split; [exact Hdig|]. split; [lia|]. exact Hval.
Qed.


Lemma loc_roundtrip (m : Z) (l : location) :
  (l = loc_Exact \/ l = loc_Inexact Lt \/ l = loc_Inexact Eq \/ l = loc_Inexact Gt) /\
  shr_m (shr_record_of_loc m l) = m /\
  loc_of_shr_record (shr_record_of_loc m l) = l.
Proof. destruct l as [|[| |]]; cbn; tauto. Qed.

(** Where the remainder [r] of a division by [b] lies. *)
Lemma new_location_spec (b r : Z) :
  0 < b -> 0 <= r < b ->
  match new_location b r with
  | loc_Exact => r = 0
  | loc_Inexact Lt => 0 < 2 * r < b
  | loc_Inexact Eq => 2 * r = b
  | loc_Inexact Gt => b < 2 * r
  end.
Proof.
  intros Hb Hr. unfold new_location, new_location_even, new_location_odd.
  destruct (Z.even b) eqn:Hev.
  - destruct (Z.eqb_spec r 0) as [|Hne]; [assumption|].
    destruct (Z.compare_spec (2 * r) b); lia.
  - destruct (Z.eqb_spec r 0) as [|Hne]; [assumption|].
    assert (Hodd : Z.odd b = true) by (rewrite <- Z.negb_even, Hev; reflexivity).
    apply Z.odd_spec in Hodd as [c Hc].
    destruct (Z.compare_spec (2 * r + 1) b); lia.
Qed.

Lemma round_nearest_even_spec (m : Z) (l : location) :
  m <= round_nearest_even m l <= m + 1 /\
  (round_nearest_even m l = m + 1 -> l = loc_Inexact Eq \/ l = loc_Inexact Gt).
Proof.
  destruct l as [|[| |]]; cbn [round_nearest_even]; try (split; [lia|intros; lia]).
  - destruct (Z.even m); split; try lia; auto.
  - split; [lia|auto].
Qed.

(** The quotient of two 53-bit mantissas, rounded to 53 bits. *)
Lemma SFdiv_normal (a b : positive) (e1 e2 : Z) :
  Zpos (digits2_pos a) = 53 -> Zpos (digits2_pos b) = 53 ->
  -52 <= e1 <= 0 -> -52 <= e2 <= 0 ->
  exists (q r : Z) (M : positive),
    Zpos a * 2 ^ 53 = Zpos b * q + r /\ 0 <= r < Zpos b /\
    2 ^ 52 <= Zpos M < 2 ^ 53 /\
    ((Zpos a < Zpos b /\
      SFdiv 53 1024 (S754_finite false a e1) (S754_finite false b e2)
      = S754_finite false M (e1 - e2 - 53) /\
      q <= Zpos M <= q + 1 /\ (Zpos M = q + 1 -> Zpos b <= 2 * r)) \/
     (Zpos b <= Zpos a /\
      SFdiv 53 1024 (S754_finite false a e1) (S754_finite false b e2)
      = S754_finite false M (e1 - e2 - 52) /\
      q - 1 <= 2 * Zpos M <= q + 1)).
Proof.
  intros Ha Hb He1 He2.
  pose proof (digits2_pos_bounds a) as Hba. rewrite Ha in Hba.
  pose proof (digits2_pos_bounds b) as Hbb. rewrite Hb in Hbb.
  change (2 ^ (53 - 1)) with 4503599627370496 in *.
  change (2 ^ 53) with 9007199254740992 in *.
  change (2 ^ 52) with 4503599627370496 in *.
  unfold SFdiv, SFdiv_core_binary. cbn [Zdigits2 xorb]. rewrite Ha, Hb.
  replace (Z.min (fexp 53 1024 (53 + e1 - (53 + e2))) (e1 - e2)) with (e1 - e2 - 53)
    by (unfold fexp, emin; lia).
  replace (e1 - e2 - (e1 - e2 - 53)) with 53 by lia.
  cbv beta iota zeta.
  rewrite Z.shiftl_mul_pow2 by lia.
  change (2 ^ 53) with 9007199254740992.
  pose proof (Z_div_mod (Zpos a * 9007199254740992) (Zpos b) ltac:(lia)) as Hdiv.
  destruct (Z.div_eucl (Zpos a * 9007199254740992) (Zpos b)) as [q r].
  destruct Hdiv as [Hdiv Hr].
  exists q, r.
  pose proof (new_location_spec (Zpos b) r ltac:(lia) Hr) as Hloc.
  set (e' := e1 - e2 - 53).
  assert (Hq52 : 4503599627370496 <= q) by nia.
  destruct (Z.lt_ge_cases (Zpos a) (Zpos b)) as [Hlt|Hge].
  - (* the quotient has 53 bits *)
    assert (Hq53 : q <= 9007199254740990) by nia.
    destruct q as [|qp|qp]; try lia.
    assert (Hdq : Zpos (digits2_pos qp) = 53).
    { apply digits2_pos_unique. change (2 ^ (53 - 1)) with 4503599627370496.
      change (2 ^ 53) with 9007199254740992. lia. }
    unfold binary_round_aux, shr_fexp. cbn [Zdigits2]. rewrite Hdq.
    assert (Hz : fexp 53 1024 (53 + e') - e' = 0) by (unfold fexp, emin, e'; lia).
    rewrite Hz. cbn [shr].
    destruct (loc_roundtrip (Zpos qp) (new_location (Zpos b) r)) as (Hcases & -> & ->).
    pose proof (round_nearest_even_spec (Zpos qp) (new_location (Zpos b) r)) as [Hrange Hup].
    destruct (round_nearest_even (Zpos qp) (new_location (Zpos b) r)) as [|M|M] eqn:HM; try lia.
    assert (HdM : Zpos (digits2_pos M) = 53).
    { apply digits2_pos_unique. change (2 ^ (53 - 1)) with 4503599627370496.
      change (2 ^ 53) with 9007199254740992. lia. }
    cbn [Zdigits2 shr_record_of_loc]. rewrite HdM, Hz. cbn [shr shr_m].
    exists M. split; [exact Hdiv|]. split; [exact Hr|]. split; [lia|]. left.
    split; [exact Hlt|]. split.
    + destruct (Z.leb_spec e' (1024 - 53)); [reflexivity|unfold e' in *; lia].
    + split; [lia|]. intros Hone. specialize (Hup Hone).
      destruct Hup as [Hl|Hl]; rewrite Hl in Hloc; lia.
  - (* the quotient has 54 bits *)
    assert (Hq53 : 9007199254740992 <= q) by nia.
    assert (Hq54 : q <= 18014398509481982) by nia.
    destruct q as [|qp|qp]; try lia.
    assert (Hdq : Zpos (digits2_pos qp) = 54).
    { apply digits2_pos_unique. change (2 ^ (54 - 1)) with 9007199254740992.
      change (2 ^ 54) with 18014398509481984. lia. }
    unfold binary_round_aux, shr_fexp. cbn [Zdigits2]. rewrite Hdq.
    assert (Hz : fexp 53 1024 (54 + e') - e' = 1) by (unfold fexp, emin, e'; lia).
    rewrite Hz. cbn [shr SpecFloat.iter_pos].
    assert (Hz' : fexp 53 1024 (53 + (e' + 1)) - (e' + 1) = 0) by (unfold fexp, emin, e'; lia).
    assert (Hfin : forall M : positive,
              4503599627370496 <= Zpos M < 9007199254740992 ->
              (let '(mrs'', e'') :=
                 shr (shr_record_of_loc (Zpos M) loc_Exact) (e' + 1)
                   (fexp 53 1024 (Zdigits2 (Zpos M) + (e' + 1)) - (e' + 1)) in
               match shr_m mrs'' with
               | 0 => S754_zero false
               | Zpos m => if e'' <=? 1024 - 53 then S754_finite false m e''
                           else S754_infinity false
               | Zneg _ => S754_nan
               end) = S754_finite false M (e1 - e2 - 52)).
    { intros M HM.
      assert (HdM : Zpos (digits2_pos M) = 53).
      { apply digits2_pos_unique. change (2 ^ (53 - 1)) with 4503599627370496.
        change (2 ^ 53) with 9007199254740992. lia. }
      cbn [Zdigits2 shr_record_of_loc]. rewrite HdM, Hz'. cbn [shr shr_m].
      destruct (Z.leb_spec (e' + 1) (1024 - 53)); [|unfold e' in *; lia].
      f_equal. unfold e'. lia. }
    destruct (loc_roundtrip (Zpos qp) (new_location (Zpos b) r)) as (Hcases & _ & _).
    destruct qp as [h|h|]; try lia;
      destruct Hcases as [Hl|[Hl|[Hl|Hl]]]; rewrite Hl;
      cbn [shr_record_of_loc shr_1 orb shr_m loc_of_shr_record round_nearest_even].
    all: try (exists h; split; [exact Hdiv|]; split; [exact Hr|]; split; [lia|]; right;
              split; [exact Hge|]; split; [apply Hfin; lia|lia]).
    all: try (destruct (Z.even (Zpos h));
              [ exists h; split; [exact Hdiv|]; split; [exact Hr|]; split; [lia|]; right;
                split; [exact Hge|]; split; [apply Hfin; lia|lia]
              | ]).
    all: change (Zpos h + 1) with (Zpos (h + 1));
      exists (h + 1)%positive; split; [exact Hdiv|]; split; [exact Hr|]; split; [lia|]; right;
      split; [exact Hge|]; split; [apply Hfin; lia|lia].
Qed.


Lemma SFltb_finite (M C : positive) (E k : Z) :
  SFltb (S754_finite false M E) (S754_finite false C k)
  = (E <? k) || ((E =? k) && (Zpos M <? Zpos C)).
Proof.
  unfold SFltb, SFcompare. rewrite Pos.compare_cont_spec. cbn [Pos.switch_Eq].
  change (Pos.compare M C) with (Z.compare (Zpos M) (Zpos C)).
  destruct (Z.compare_spec E k), (Z.ltb_spec E k), (Z.eqb_spec E k); try lia; cbn [orb andb];
    try reflexivity.
  all: destruct (Z.compare_spec (Zpos M) (Zpos C)), (Z.ltb_spec (Zpos M) (Zpos C));
    try lia; reflexivity.
Qed.

Lemma thresholds :
  Float64.c0_5 = S754_finite false 4503599627370496 (-53) /\
  Float64.c0_75 = S754_finite false 6755399441055744 (-53) /\
  Float64.c1_0 = S754_finite false 4503599627370496 (-52) /\
  Float64.c1_5 = S754_finite false 6755399441055744 (-52).
Proof. repeat split; vm_compute; reflexivity. Qed.

(** How the scalings [2 ^ - e1] and [2 ^ - e2] of two mantissas compare. *)
Lemma pow2_rel (e1 e2 : Z) :
  e1 <= 0 -> e2 <= 0 ->
  0 < 2 ^ (- e1) /\ 0 < 2 ^ (- e2) /\
  ((e1 = e2 /\ 2 ^ (- e1) = 2 ^ (- e2)) \/
   (e1 = e2 - 1 /\ 2 ^ (- e1) = 2 * 2 ^ (- e2)) \/
   (e1 <= e2 - 2 /\ exists w, 4 <= w /\ 2 ^ (- e1) = 2 ^ (- e2) * w) \/
   (e1 = e2 + 1 /\ 2 ^ (- e2) = 2 * 2 ^ (- e1)) \/
   (e2 + 2 <= e1 /\ exists w, 4 <= w /\ 2 ^ (- e2) = 2 ^ (- e1) * w)).
Proof.
  intros H1 H2.
  assert (Hpos : forall e, e <= 0 -> 0 < 2 ^ (- e)) by (intros; apply Z.pow_pos_nonneg; lia).
  assert (Hsplit : forall x y, x <= y -> y <= 0 -> 2 ^ (- x) = 2 ^ (- y) * 2 ^ (y - x)).
  { intros x y Hxy Hy. rewrite <- Z.pow_add_r by lia. f_equal. lia. }
  assert (Hbig : forall d, 2 <= d -> 4 <= 2 ^ d).
  { intros d Hd. change 4 with (2 ^ 2). apply Z.pow_le_mono_r; lia. }
  split; [auto|]. split; [auto|].
  destruct (Z.lt_trichotomy e1 e2) as [Hlt|[Heq|Hgt]].
  - destruct (Z.eq_dec e1 (e2 - 1)) as [Hone|Hmore].
    + right. left. split; [exact Hone|]. rewrite (Hsplit e1 e2) by lia.
      replace (e2 - e1) with 1 by lia. change (2 ^ 1) with 2. lia.
    + right. right. left. split; [lia|]. exists (2 ^ (e2 - e1)).
      split; [apply Hbig; lia|apply Hsplit; lia].
  - left. subst. tauto.
  - destruct (Z.eq_dec e1 (e2 + 1)) as [Hone|Hmore].
    + right. right. right. left. split; [exact Hone|]. rewrite (Hsplit e2 e1) by lia.
      replace (e1 - e2) with 1 by lia. change (2 ^ 1) with 2. lia.
    + right. right. right. right. split; [lia|]. exists (2 ^ (e1 - e2)).
      split; [apply Hbig; lia|apply Hsplit; lia].
Qed.

(** The facts about [float64(s) / float64(n)] the comparisons need:
    the scaled mantissas [a = s * u] and [b = n * v], the quotient [q]
    and remainder [r] of [a * 2^53] by [b], and the rounded result
    [(M, E)]. *)
Inductive quotient_facts (s n : Z) (x : spec_float) : Prop :=
| QuotientFacts (a b u v e1 e2 q r : Z) (M : positive) (E : Z) :
    x = S754_finite false M E ->
    a = s * u -> b = n * v ->
    4503599627370496 <= a < 9007199254740992 ->
    4503599627370496 <= b < 9007199254740992 ->
    4503599627370496 <= Zpos M < 9007199254740992 ->
    a * 9007199254740992 = b * q + r ->
    0 <= r < b ->
    0 < u -> 0 < v ->
    ((e1 = e2 /\ u = v) \/
     (e1 = e2 - 1 /\ u = 2 * v) \/
     (e1 <= e2 - 2 /\ exists w, 4 <= w /\ u = v * w) \/
     (e1 = e2 + 1 /\ v = 2 * u) \/
     (e2 + 2 <= e1 /\ exists w, 4 <= w /\ v = u * w)) ->
    ((a < b /\ E = e1 - e2 - 53 /\
      q <= Zpos M <= q + 1 /\ (Zpos M = q + 1 -> b <= 2 * r)) \/
     (b <= a /\ E = e1 - e2 - 52 /\ q - 1 <= 2 * Zpos M <= q + 1)) ->
    quotient_facts s n x.

Lemma quotient_facts_hold (s n : Z) :
  0 < s < 2 ^ 53 -> 0 < n < 2 ^ 53 ->
  quotient_facts s n (Float64.div (Float64.of_int s) (Float64.of_int n)).
Proof.
  intros Hs Hn.
  destruct (of_int_normal s Hs) as (a & e1 & -> & Hda & He1 & Ha).
  destruct (of_int_normal n Hn) as (b & e2 & -> & Hdb & He2 & Hb).
  destruct (SFdiv_normal a b e1 e2 Hda Hdb He1 He2) as (q & r & M & Hdiv & Hr & HM & Hcases).
  pose proof (digits2_pos_bounds a) as Hba. rewrite Hda in Hba.
  pose proof (digits2_pos_bounds b) as Hbb. rewrite Hdb in Hbb.
  change (2 ^ (53 - 1)) with 4503599627370496 in *.
  change (2 ^ 53) with 9007199254740992 in *.
  change (2 ^ 52) with 4503599627370496 in *.
  destruct (pow2_rel e1 e2 ltac:(lia) ltac:(lia)) as (Hu & Hv & Hrel).
  unfold Float64.div, Float64.prec, Float64.emax.
  destruct Hcases as [(Hlt & -> & Hq & Hup)|(Hge & -> & Hq)].
  - apply (QuotientFacts s n _ (Zpos a) (Zpos b) (2 ^ (- e1)) (2 ^ (- e2)) e1 e2 q r M
             (e1 - e2 - 53)); try assumption; try reflexivity; lia.
  - apply (QuotientFacts s n _ (Zpos a) (Zpos b) (2 ^ (- e1)) (2 ^ (- e2)) e1 e2 q r M
             (e1 - e2 - 52)); try assumption; try reflexivity; lia.
Qed.

Lemma scale_lt (t x y : Z) : 0 < t -> x * t < y * t -> x < y.
Proof. intros Ht. apply Z.mul_lt_mono_pos_r. exact Ht. Qed.

Lemma scale_le (t x y : Z) : 0 < t -> x * t <= y * t -> x <= y.
Proof. intros Ht. apply Z.mul_le_mono_pos_r. exact Ht. Qed.

Lemma grow_le (t x y : Z) : 0 < t -> x <= y -> x * t <= y * t.
Proof. intros Ht. apply Z.mul_le_mono_pos_r. exact Ht. Qed.

(** The quotient [q] against a constant [K], scaled by the divisor. *)
Lemma quotient_against (b q K : Z) :
  0 < b -> (q <= K -> b * q <= b * K) /\ (K <= q -> b * K <= b * q).
Proof. intros Hb. split; intros Hq; apply Z.mul_le_mono_nonneg_l; lia. Qed.

(** The binade of [float64(s) / float64(n)] is the binade of the exact
    ratio [s / n], and within the two binades next to 1 the mantissa
    lies on the same side of [1.5 * 2^52] as the ratio of [3/4] or
    [3/2]. *)
Inductive quotient_shape (s n : Z) (x : spec_float) : Prop :=
| QuotientShape (M : positive) (E : Z) :
    x = S754_finite false M E ->
    4503599627370496 <= Zpos M < 9007199254740992 ->
    ((2 * s < n /\ E <= -54) \/
     (n <= 2 * s /\ s < n /\ E = -53 /\
      (Zpos M < 6755399441055744 <-> 4 * s < 3 * n)) \/
     (n <= s /\ s < 2 * n /\ E = -52 /\
      (Zpos M < 6755399441055744 <-> 2 * s < 3 * n)) \/
     (2 * n <= s /\ -51 <= E)) ->
    quotient_shape s n x.

Lemma quotient_shape_holds (s n : Z) :
  0 < s < 2 ^ 53 -> 0 < n < 2 ^ 52 ->
  quotient_shape s n (Float64.div (Float64.of_int s) (Float64.of_int n)).
Proof.
  intros Hs Hn. change (2 ^ 52) with 4503599627370496 in Hn.
  change (2 ^ 53) with 9007199254740992 in Hs.
  pose proof (quotient_facts_hold s n ltac:(lia) ltac:(lia)) as Hq.
  destruct Hq as [a b u v e1 e2 q r M E Hx Ha Hb Hra Hrb HrM Hdiv Hrem Hu Hv Hscale Hround].
  apply (QuotientShape s n _ M E Hx HrM).
  pose proof (quotient_against b q 6755399441055743 ltac:(lia)) as [K1 K1'].
  pose proof (quotient_against b q 6755399441055744 ltac:(lia)) as [K2 K2'].
  pose proof (quotient_against b q 13510798882111487 ltac:(lia)) as [K3 K3'].
  pose proof (quotient_against b q 13510798882111488 ltac:(lia)) as [K4 K4'].
  destruct Hscale as [[He Huv]|[[He Huv]|[[He (w & Hw & Huv)]|[[He Huv]|[He (w & Hw & Huv)]]]]];
    destruct Hround as [(Hab & HE & Hq & Hup)|(Hab & HE & Hq)]; subst u || subst v.
  - (* same scale, a < b: the ratio is in [1/2, 1) *)
    right. left.
    split; [apply (scale_le v); lia|]. split; [apply (scale_lt v); lia|]. split; [lia|].
    split; intros Hlt.
    + apply (scale_lt v); lia.
    + pose proof (grow_le v (4 * s + 1) (3 * n) Hv ltac:(lia)).
      pose proof (grow_le v (n + 1) 4503599627370496 Hv ltac:(lia)). lia.
  - (* same scale, b <= a: the ratio is in [1, 2) *)
    right. right. left.
    split; [apply (scale_le v); lia|]. split; [apply (scale_lt v); lia|]. split; [lia|].
    split; intros Hlt.
    + apply (scale_lt v); lia.
    + pose proof (grow_le v (2 * s + 1) (3 * n) Hv ltac:(lia)).
      pose proof (grow_le v (n + 1) 4503599627370496 Hv ltac:(lia)). lia.
  - (* a scaled twice as much, a < b: the ratio is below 1/2 *)
    left. split; [apply (scale_lt v); lia|lia].
  - (* a scaled twice as much, b <= a: the ratio is in [1/2, 1) *)
    right. left.
    split; [apply (scale_le v); lia|]. split; [apply (scale_lt v); lia|]. split; [lia|].
    split; intros Hlt.
    + apply (scale_lt v); lia.
    + pose proof (grow_le v (4 * s + 1) (3 * n) Hv ltac:(lia)).
      pose proof (grow_le v (n + 1) 4503599627370496 Hv ltac:(lia)). lia.
  - (* a scaled at least four times as much *)
    left. split; [|lia].
    assert (s * w < 2 * n) by (apply (scale_lt v); lia).
    pose proof (Z.mul_le_mono_nonneg_l 4 w s ltac:(lia) Hw). lia.
  - left. split; [|lia].
    assert (s * w < 2 * n) by (apply (scale_lt v); lia).
    pose proof (Z.mul_le_mono_nonneg_l 4 w s ltac:(lia) Hw). lia.
  - (* b scaled twice as much, a < b: the ratio is in [1, 2) *)
    right. right. left.
    split; [apply (scale_le u); lia|]. split; [apply (scale_lt u); lia|]. split; [lia|].
    split; intros Hlt.
    + apply (scale_lt u); lia.
    + pose proof (grow_le u (2 * s + 1) (3 * n) Hu ltac:(lia)).
      pose proof (grow_le u (n + 1) 4503599627370496 Hu ltac:(lia)). lia.
  - (* b scaled twice as much, b <= a: the ratio is at least 2 *)
    right. right. right. split; [apply (scale_le u); lia|lia].
  - (* b scaled at least four times as much *)
    right. right. right. split; [|lia].
    assert (n * w < 2 * s) by (apply (scale_lt u); lia).
    pose proof (Z.mul_le_mono_nonneg_l 4 w n ltac:(lia) Hw). lia.
  - right. right. right. split; [|lia].
    assert (n * w < 2 * s) by (apply (scale_lt u); lia).
    pose proof (Z.mul_le_mono_nonneg_l 4 w n ltac:(lia) Hw). lia.
Qed.

Ltac shape_cases s n :=
  let Hq := fresh "Hq" in
  pose proof (quotient_shape_holds s n ltac:(assumption) ltac:(assumption)) as Hq;
  destruct Hq as [M E Hx HrM Hshape];
  rewrite Hx; unfold Float64.ltb; rewrite SFltb_finite;
  destruct Hshape as [(H1 & HE)|[(H1 & H2 & HE & HM)|[(H1 & H2 & HE & HM)|(H1 & HE)]]];
  repeat match goal with
  | |- context [?x <? ?y] => destruct (Z.ltb_spec x y)
  | |- context [?x =? ?y] => destruct (Z.eqb_spec x y)
  end; cbn [orb andb]; try reflexivity; lia.

Lemma ltb_c0_5 (s n : Z) :
  0 < s < 2 ^ 53 -> 0 < n < 2 ^ 52 ->
  Float64.ltb (Float64.div (Float64.of_int s) (Float64.of_int n)) Float64.c0_5 = (2 * s <? n).
Proof. intros Hs Hn. destruct thresholds as (-> & _). shape_cases s n. Qed.

Lemma ltb_c0_75 (s n : Z) :
  0 < s < 2 ^ 53 -> 0 < n < 2 ^ 52 ->
  Float64.ltb (Float64.div (Float64.of_int s) (Float64.of_int n)) Float64.c0_75
  = (4 * s <? 3 * n).
Proof. intros Hs Hn. destruct thresholds as (_ & -> & _). shape_cases s n. Qed.

Lemma ltb_c1_0 (s n : Z) :
  0 < s < 2 ^ 53 -> 0 < n < 2 ^ 52 ->
  Float64.ltb (Float64.div (Float64.of_int s) (Float64.of_int n)) Float64.c1_0 = (s <? n).
Proof. intros Hs Hn. destruct thresholds as (_ & _ & -> & _). shape_cases s n. Qed.

Lemma ltb_c1_5 (s n : Z) :
  0 < s < 2 ^ 53 -> 0 < n < 2 ^ 52 ->
  Float64.ltb (Float64.div (Float64.of_int s) (Float64.of_int n)) Float64.c1_5
  = (2 * s <? 3 * n).
Proof. intros Hs Hn. destruct thresholds as (_ & _ & _ & ->). shape_cases s n. Qed.

(** On sizes below [2^53] and pixel counts from 1 to [2^52 - 1] the
    [float64] quotient falls on the same side of each threshold as the
    exact ratio. *)
Lemma qualityOfBytesPerPixel_exact (size pixels : Z) :
  0 <= size < 2 ^ 53 -> 0 < pixels < 2 ^ 52 ->
  qualityOfBytesPerPixel (Float64.div (Float64.of_int size) (Float64.of_int pixels))
  = qualityOfExactRatio size pixels.
Proof.
  intros Hs Hn. unfold qualityOfBytesPerPixel, qualityOfExactRatio.
  destruct (Z.eq_dec size 0) as [->|Hne].
  - destruct (of_int_normal pixels) as (b & e2 & Hb & _).
    { change (2 ^ 53) with 9007199254740992. change (2 ^ 52) with 4503599627370496 in Hn. lia. }
    rewrite Hb. destruct thresholds as (-> & _).
    destruct (Z.ltb_spec (2 * 0) pixels); [reflexivity|lia].
  - rewrite ltb_c0_5, ltb_c0_75, ltb_c1_0, ltb_c1_5 by lia. reflexivity.
Qed.

(** The bound on the pixel count cannot be raised to [2^53]: here the
    ratio is below 0.75 and its [float64] rounding is 0.75. *)
Example qualityOfBytesPerPixel_rounding :
  let size := 3 * 2 ^ 51 - 1 in
  let pixels := 2 ^ 53 - 1 in
  qualityOfExactRatio size pixels = 70 /\
  qualityOfBytesPerPixel (Float64.div (Float64.of_int size) (Float64.of_int pixels)) = 80.
Proof. vm_compute. split; reflexivity. Qed.

(** * Properties *)

(** ** Running the effects *)

Ltac io_unfold :=
  unfold mbind, mret, IO_bind, IO_ret, bind, ret, fail, catch, io, log, wrapErr, when,
    get_verbose, Printf, Fprintf_stderr in *.

(** Projections of explicit states and files. *)
Ltac wsimpl :=
  cbn [fst snd fs recursiveDepth verbose calls stdout stderr set_fs add_calls
       with_data data f_open f_stat f_read f_create f_reopen f_reread] in *.

(** Closes a goal that equates two states up to the bracketing of the
    appended logs. *)
Ltac io_done :=
  unfold add_calls; cbn; rewrite <- ?app_assoc; cbn; reflexivity.



Section Equations.

Context {golib : GoLib}.

Lemma os_Open_eq path w :
    os_Open path w = (openOf (fs w) path, add_calls [SysOpen path] w).
Proof.
    unfold os_Open, openOf, add_calls. io_unfold. cbn.
    destruct (fs w !! path) as [[f|[l|]]|]; try reflexivity.
    destruct (f_open f); reflexivity.
Qed.

Lemma calculateFileChecksum_eq path w :
    calculateFileChecksum path w = (checksumOf (fs w) path, add_calls [SysOpen path] w).
Proof.
    unfold calculateFileChecksum, checksumOf. io_unfold. rewrite os_Open_eq.
    unfold openOf, file_ReadAll. cbn. repeat case_match; congruence.
Qed.

Lemma image_Decode_file_eq path w :
    image_Decode_file path w = (decodedAt (fs w) path, w).
Proof.
    unfold image_Decode_file, file_ReadAll, decodedAt. io_unfold.
    repeat case_match; simplify_eq; congruence.
Qed.

Lemma estimateJpegQuality_eq path w :
    estimateJpegQuality path w =
    (Ok (jpegQualityOf (fs w) path), add_calls (estimate_calls (fs w) path) w).
Proof.
    unfold estimateJpegQuality, jpegQualityOf, estimate_calls, opens, openOf, bytesPerPixelOf.
    io_unfold. rewrite os_Open_eq. unfold openOf, file_Stat. io_unfold.
    destruct (fs w !! path) as [[f|[l|]]|] eqn:E; try reflexivity.
    - destruct (f_open f); try reflexivity. cbn. rewrite E.
      destruct (f_stat f); cbn; [|io_done].
      rewrite image_Decode_file_eq. cbn.
      destruct (decodedAt (fs w) path) as [[img format]|e]; [|io_done].
      destruct (String.eqb format "jpeg"); io_done.
    - cbn. rewrite E. cbn. rewrite image_Decode_file_eq. cbn.
      unfold decodedAt. rewrite E. io_done.
Qed.

Lemma estimatePngCompressionLevel_eq path w :
    estimatePngCompressionLevel path w =
    (Ok (pngLevelOf (fs w) path), add_calls (estimate_calls (fs w) path) w).
Proof.
    unfold estimatePngCompressionLevel, pngLevelOf, estimate_calls, opens.
    io_unfold. rewrite os_Open_eq. unfold openOf, file_Stat. io_unfold.
    destruct (fs w !! path) as [[f|[l|]]|] eqn:E; try reflexivity.
    - destruct (f_open f); try reflexivity. cbn. rewrite E.
      destruct (f_stat f); io_done.
    - cbn. rewrite E. io_done.
Qed.

Lemma imaging_Open_eq path w :
    imaging_Open path w =
    (match openOf (fs w) path with
     | Ok _ =>
         match decodedAt (fs w) path with
         | Ok r => Ok (fst r)
         | Err e => Err e
         end
     | Err e => Err e
     end, add_calls [SysOpen path] w).
Proof.
    unfold imaging_Open. io_unfold. rewrite os_Open_eq.
    destruct (openOf (fs w) path) as [file|e] eqn:E; [|reflexivity].
    assert (file = path) as ->.
    { unfold openOf in E. repeat case_match; congruence. }
    rewrite image_Decode_file_eq. cbn.
    destruct (decodedAt (fs w) path); reflexivity.
Qed.

End Equations.

(** ** [processFile] has one of its seven outcomes *)

Section ProcessFile.

Context {golib : GoLib}.


Lemma checksumOf_Ok m path sum :
    checksumOf m path = Ok sum ->
    exists f, m !! path = Some (NFile f) /\ f_open f = true /\ f_read f = true /\
              sum = Hex.EncodeToString (Md5.sum (data f)).
Proof.
    unfold checksumOf. intros Hc.
    destruct (m !! path) as [[f|[l|]]|]; try discriminate.
    destruct (f_open f) eqn:Ho; try discriminate.
    destruct (f_read f) eqn:Hr; try discriminate.
    exists f. repeat split; congruence.
Qed.

  (** The encoding step of [processFile], run on the freshly truncated
      file. *)
Lemma run_encoder_eq path (f : file) r w :
    fs w !! path = Some (NFile (with_data f [])) ->
    run_encoder path r w =
    (match werr r with Some e => Err e | None => Ok tt end,
     set_fs (<[path := NFile (with_data f (written r))]> (fs w)) w).
Proof.
    intros Hf. unfold run_encoder, file_Write. io_unfold. rewrite Hf. cbn.
    destruct (werr r); reflexivity.
Qed.

Lemma imaging_Save_file_eq path (f : file) img w :
    fs w !! path = Some (NFile (with_data f [])) ->
    imaging_Save_file img path w =
    (match werr (imaging_Save img path) with Some e => Err e | None => Ok tt end,
     set_fs (<[path := NFile (with_data f (written (imaging_Save img path)))]> (fs w))
       (add_calls [LibImagingSave path] w)).
Proof.
    intros Hf. unfold imaging_Save_file. io_unfold. cbn. rewrite Hf.
    erewrite run_encoder_eq by (cbn; apply lookup_insert_eq).
    cbn. rewrite insert_insert_eq. reflexivity.
Qed.


Theorem processFile_run path w :
    processFile_outcome path w (fst (processFile path w)) (snd (processFile path w)).
Proof.
    unfold processFile. fold (extOf path).
    destruct (map_index supportedExtensions (extOf path)) eqn:Hs; cbn [negb];
      [|apply PF_unsupported; assumption].
    io_unfold. rewrite calculateFileChecksum_eq.
    destruct (checksumOf (fs w) path) as [sum|e] eqn:Hc;
      [|cbn; apply PF_checksum_failed; assumption].
    destruct (checksumOf_Ok _ _ _ Hc) as (f & Hf & Ho & Hr & ->).
    pose proof (eq_refl : encoder_result path w = encoder_result path w) as Hres.
    unfold encoder_result at 1 in Hres. unfold estimateOf in Hres.
    assert (Hleaf : forall r w1 w2, processFile_outcome path w r w1 ->
              fs w1 = fs w2 -> recursiveDepth w1 = recursiveDepth w2 ->
              verbose w1 = verbose w2 -> calls w1 = calls w2 ->
              stdout w1 = stdout w2 -> stderr w1 = stderr w2 ->
              processFile_outcome path w r w2).
    { intros r [] [] Hout; cbn; intros; subst; assumption. }
    destruct (is_jpeg_ext (extOf path)) eqn:Hj;
      [|destruct (String.eqb (extOf path) ".png") eqn:Hp];
      [rewrite estimateJpegQuality_eq|rewrite estimatePngCompressionLevel_eq|];
      rewrite imaging_Open_eq; cbn [fs add_calls]; unfold openOf; rewrite Hf, Ho;
      unfold decodedAt; rewrite Hf, Hr;
      (destruct (image_Decode (data f)) as [e|[src format]] eqn:Hd;
       [ cbn; eapply Hleaf; [eapply PF_decode_failed; eauto|..];
         unfold read_calls; rewrite ?Hj, ?Hp; cbn; rewrite <- ?app_assoc; reflexivity
       | ]);
      cbn [fst snd];
      unfold os_Create; io_unfold; cbn [fs add_calls]; rewrite Hf;
      (destruct (f_create f) eqn:Hcr;
       [ | cbn; eapply Hleaf; [eapply PF_create_failed; eauto|..];
           unfold read_calls; rewrite ?Hj, ?Hp; cbn; rewrite <- ?app_assoc; reflexivity ]);
      cbn [fst snd];
      first [ erewrite run_encoder_eq by (cbn; apply lookup_insert_eq)
            | erewrite imaging_Save_file_eq by (cbn; apply lookup_insert_eq) ];
      cbn [fst snd fs set_fs add_calls verbose]; rewrite insert_insert_eq;
      (pose proof (f_equal (fun g => g src) Hres) as Hres';
       cbn beta zeta in Hres'; rewrite ?Hj, ?Hp in Hres'; cbn [fst snd] in Hres';
       rewrite Hres'; clear Hres');
      (destruct (werr (encoder_result path w src)) as [e|] eqn:Hw;
       [ destruct (verbose w) eqn:Hv; cbn;
         (eapply Hleaf; [eapply PF_save_failed; eauto|..]);
         unfold after_encoding, read_calls, encoder_call, adjustment_lines, estimateOf;
         rewrite ?Hj, ?Hp, ?Hv; cbn; rewrite ?app_nil_r, <- ?app_assoc; reflexivity
       | ]).
    all: wsimpl; destruct (verbose w) eqn:Hv; wsimpl;
      rewrite calculateFileChecksum_eq;
      match goal with |- context [checksumOf ?m ?p] =>
        destruct (checksumOf m p) as [sum|e] eqn:Hsum end;
      wsimpl; rewrite ?Hv; wsimpl.
    all: try (eapply Hleaf; [eapply PF_rechecksum_failed; eauto|..];
              unfold after_encoding, read_calls, encoder_call, adjustment_lines, estimateOf;
              rewrite ?Hj, ?Hp, ?Hv; cbn; rewrite ?app_nil_r, <- ?app_assoc; cbn;
              rewrite <- ?app_assoc; reflexivity).
    all: unfold checksumOf in Hsum; rewrite lookup_insert_eq in Hsum; wsimpl;
      destruct (f_reopen f) eqn:Hro; [|discriminate];
      destruct (f_reread f) eqn:Hrr; [|discriminate];
      injection Hsum as <-;
      (eapply Hleaf; [eapply PF_done; eauto|..]);
      unfold after_encoding, read_calls, encoder_call, adjustment_lines, report_lines,
        estimateOf;
      rewrite ?Hj, ?Hp, ?Hv; cbn; rewrite ?app_nil_r, <- ?app_assoc; cbn;
      rewrite <- ?app_assoc; reflexivity.
Qed.

End ProcessFile.

(** ** Extensions *)

Lemma supported_iff (ext : string) :
  map_index supportedExtensions ext = true <->
  ext ∈ [".jpg"; ".jpeg"; ".png"; ".gif"; ".webp"]%string.
Proof.
  unfold map_index, supportedExtensions.
  rewrite !elem_of_cons, elem_of_nil.
  repeat (rewrite lookup_insert; case_decide; [subst; cbn; tauto|]).
  rewrite lookup_empty. cbn. split; [discriminate|].
  intros Hext. repeat destruct Hext as [Hext|Hext]; first [congruence|contradiction].
Qed.

Lemma is_jpeg_ext_spec (ext : string) :
  is_jpeg_ext ext = true <-> ext = ".jpg"%string \/ ext = ".jpeg"%string.
Proof.
  unfold is_jpeg_ext. rewrite orb_true_iff, !String.eqb_eq. reflexivity.
Qed.


(** ** The estimates *)

Lemma qualityOfBytesPerPixel_range (x : spec_float) :
  qualityOfBytesPerPixel x ∈ [60; 70; 80; 90; 95].
Proof.
  unfold qualityOfBytesPerPixel.
  repeat case_match; rewrite !elem_of_cons; tauto.
Qed.

Lemma adjustQuality_table (q : Z) :
  q ∈ [60; 70; 75; 80; 90; 95] ->
  adjustQuality q = (if q >? 90 then q - 1 else q + 1) /\
  adjustQuality q ∈ [61; 71; 76; 81; 91; 94] /\
  adjustQuality q <> q /\ 1 <= adjustQuality q <= 100.
Proof.
  rewrite !elem_of_cons, !elem_of_nil.
  intros [->|[->|[->|[->|[->|[->|[]]]]]]];
    (split; [vm_compute; reflexivity
            |split; [vm_compute; auto 10
                    |split; [vm_compute; discriminate|vm_compute; split; discriminate]]]).
Qed.

Lemma levelOfSize_best (size : Z) :
  levelOfSize size = BestCompression <-> 1024 * 1024 <= size.
Proof.
  unfold levelOfSize.
  destruct (Z.ltb_spec size (10 * 1024)), (Z.ltb_spec size (100 * 1024)),
    (Z.ltb_spec size (1024 * 1024)); split; try discriminate; try lia; reflexivity.
Qed.

Section Estimates.

Context {golib : GoLib}.

Lemma jpegQualityOf_range m path :
    jpegQualityOf m path ∈ [60; 70; 75; 80; 90; 95].
Proof.
    unfold jpegQualityOf.
    assert (Hsub : forall q : Z, q ∈ [60; 70; 80; 90; 95] -> q ∈ [60; 70; 75; 80; 90; 95]).
    { intros q. rewrite !elem_of_cons, !elem_of_nil. tauto. }
    assert (H75 : 75 ∈ [60; 70; 75; 80; 90; 95]).
    { rewrite !elem_of_cons. tauto. }
    repeat case_match; try exact H75.
    apply Hsub, qualityOfBytesPerPixel_range.
Qed.

Lemma read_calls_no_encoder path w c :
    c ∈ read_calls path w -> is_encoder_call c = false.
Proof.
    unfold read_calls, estimate_calls.
    rewrite elem_of_cons, elem_of_app, list_elem_of_singleton.
    intros [->|[Hc| ->]]; try reflexivity.
    destruct (_ || _); [|by apply elem_of_nil in Hc].
    apply elem_of_cons in Hc as [->|Hc]; [reflexivity|].
    destruct (opens _ _); [|by apply elem_of_nil in Hc].
    by apply list_elem_of_singleton in Hc as ->.
Qed.

End Estimates.

(** ** Single-file processing *)

Section SingleFile.

Context {golib : GoLib}.

  (** C6. [processFile] on a path whose lower-cased extension is not one
      of [.jpg], [.jpeg], [.png], [.gif], [.webp] returns the
      unsupported-extension error and leaves the whole state as it was:
      no file is opened (so no checksum is computed), none is created or
      written, nothing is printed. *)
Theorem processFile_unsupported_extension (path : string) (w : world) :
    ToLower (Ext path) ∉ [".jpg"; ".jpeg"; ".png"; ".gif"; ".webp"]%string ->
    processFile path w =
    (Err ("unsupported file extension: " ++ ToLower (Ext path))%string, w).
Proof.
    intros Hext. unfold processFile.
    destruct (map_index supportedExtensions (ToLower (Ext path))) eqn:Hs.
    - apply supported_iff in Hs. contradiction.
    - reflexivity.
Qed.

  (** The whole program on a single file with an unsupported extension:
      exit status 1 and one line on standard error. *)
Lemma Run_unsupported_file (path : string) (w : world) (f : file) :
    fs w !! path = Some (NFile f) -> f_stat f = true ->
    map_index supportedExtensions (ToLower (Ext path)) = false ->
    Run path w =
    (1, World (fs w) (recursiveDepth w) (verbose w) (calls w ++ [SysStat path]) (stdout w)
              (stderr w ++ [ErrError ("unsupported file extension: "
                                        ++ ToLower (Ext path))%string])).
Proof.
    intros Hf Hst Hs. unfold Run, os_Stat. io_unfold. cbn [fs].
    rewrite Hf, Hst. unfold processFile. rewrite Hs. reflexivity.
Qed.

  (** The calls [processFile] adds, whatever its outcome. *)
Lemma processFile_calls path w :
    exists more,
      calls (snd (processFile path w)) = calls w ++ more /\
      (forall c, c ∈ more -> is_encoder_call c = true -> c = encoder_call path w) /\
      (fst (processFile path w) = Ok tt -> encoder_call path w ∈ more).
Proof.
    destruct (processFile_run path w) as
      [Hs|e Hs Hc|f e Hs Hf Ho Hr Hd|f src fmt Hs Hf Ho Hr Hd Hcr
      |f src fmt e Hs Hf Ho Hr Hd Hcr Hw|f src fmt e Hs Hf Ho Hr Hd Hcr Hw Hsum
      |f src fmt Hs Hf Ho Hr Hd Hcr Hw Hro Hrr].
    - exists []. rewrite app_nil_r. split; [reflexivity|].
      split; [intros c Hin; by apply elem_of_nil in Hin|discriminate].
    - exists [SysOpen path]. split; [reflexivity|].
      split; [|discriminate].
      intros c Hin. apply list_elem_of_singleton in Hin as ->. discriminate.
    - exists (read_calls path w). split; [reflexivity|].
      split; [|discriminate].
      intros c Hin Henc. apply read_calls_no_encoder in Hin. congruence.
    - exists (read_calls path w ++ [SysCreate path]). split; [reflexivity|].
      split; [|discriminate].
      intros c Hin Henc. apply elem_of_app in Hin as [Hin|Hin].
      + apply read_calls_no_encoder in Hin. congruence.
      + apply list_elem_of_singleton in Hin as ->. discriminate.
    - eexists. split; [reflexivity|]. split.
      + intros c Hin Henc. apply elem_of_app in Hin as [Hin|Hin].
        * apply read_calls_no_encoder in Hin. congruence.
        * rewrite !elem_of_cons, elem_of_nil in Hin.
          destruct Hin as [->|[->|[]]]; [discriminate|reflexivity].
      + intros _. rewrite elem_of_app, !elem_of_cons. tauto.
    - eexists. split; [reflexivity|]. split; [|discriminate].
      intros c Hin Henc. apply elem_of_app in Hin as [Hin|Hin].
      + apply read_calls_no_encoder in Hin. congruence.
      + rewrite !elem_of_cons, elem_of_nil in Hin.
        destruct Hin as [->|[->|[->|[]]]]; [discriminate|reflexivity|discriminate].
    - eexists. split; [reflexivity|]. split.
      + intros c Hin Henc. apply elem_of_app in Hin as [Hin|Hin].
        * apply read_calls_no_encoder in Hin. congruence.
        * rewrite !elem_of_cons, elem_of_nil in Hin.
          destruct Hin as [->|[->|[->|[]]]]; [discriminate|reflexivity|discriminate].
      + intros _. rewrite elem_of_app, !elem_of_cons. tauto.
Qed.

Lemma estimateJpegQuality_value path w :
    fst (estimateJpegQuality path w) = Ok (jpegQualityOf (fs w) path).
Proof. by rewrite estimateJpegQuality_eq. Qed.

Lemma estimatePngCompressionLevel_value path w :
    fst (estimatePngCompressionLevel path w) = Ok (pngLevelOf (fs w) path).
Proof. by rewrite estimatePngCompressionLevel_eq. Qed.

  (** C3. For a JPEG file ([.jpg] or [.jpeg]) every call of [jpeg.Encode]
      made by [processFile] gets the estimated quality minus 1 when the
      estimate exceeds 90 and plus 1 otherwise, which is never the
      estimate itself; and a run that succeeds does make that call. *)
Theorem jpeg_quality_is_adjusted_estimate (path : string) (w : world) :
    is_jpeg_ext (ToLower (Ext path)) = true ->
    exists (estimate : Z) (more : list call),
      fst (estimateJpegQuality path w) = Ok estimate /\
      calls (snd (processFile path w)) = calls w ++ more /\
      (forall q, LibJpegEncode q ∈ more ->
         q = (if estimate >? 90 then estimate - 1 else estimate + 1) /\ q <> estimate) /\
      (fst (processFile path w) = Ok tt ->
         LibJpegEncode (if estimate >? 90 then estimate - 1 else estimate + 1) ∈ more).
Proof.
    intros Hj.
    destruct (processFile_calls path w) as (more & Hcalls & Honly & Hlive).
    pose proof (adjustQuality_table _ (jpegQualityOf_range (fs w) path))
      as (Hadj & _ & Hne & _).
    assert (Hcall : encoder_call path w =
              LibJpegEncode (adjustQuality (jpegQualityOf (fs w) path))).
    { unfold encoder_call, estimateOf, extOf. by rewrite Hj. }
    exists (jpegQualityOf (fs w) path), more.
    split; [apply estimateJpegQuality_value|]. split; [exact Hcalls|]. split.
    - intros q Hin. apply Honly in Hin; [|reflexivity].
      rewrite Hcall in Hin. injection Hin as ->. by rewrite <- Hadj.
    - intros Hok. rewrite <- Hadj, <- Hcall. by apply Hlive.
Qed.

  (** C9. Every quality [processFile] passes to [jpeg.Encode] is one of
      61, 71, 76, 81, 91, 94, hence within the encoder's range 1..100. *)
Theorem jpeg_quality_within_encoder_range (path : string) (w : world) :
    exists more : list call,
      calls (snd (processFile path w)) = calls w ++ more /\
      (forall q, LibJpegEncode q ∈ more ->
         q ∈ [61; 71; 76; 81; 91; 94] /\ 1 <= q <= 100) /\
      (is_jpeg_ext (ToLower (Ext path)) = true ->
       fst (processFile path w) = Ok tt ->
       exists q, LibJpegEncode q ∈ more).
Proof.
    destruct (processFile_calls path w) as (more & Hcalls & Honly & Hlive).
    exists more. split; [exact Hcalls|]. split.
    - intros q Hin. apply Honly in Hin; [|reflexivity].
      pose proof (adjustQuality_table _ (jpegQualityOf_range (fs w) path))
        as (_ & Hset & _ & Hrange).
      unfold encoder_call, estimateOf in Hin.
      destruct (is_jpeg_ext (extOf path)).
      + injection Hin as ->. split; assumption.
      + destruct (String.eqb (extOf path) ".png"); discriminate.
    - intros Hj Hok. apply Hlive in Hok.
      unfold encoder_call, extOf in Hok. rewrite Hj in Hok. eauto.
Qed.

  (** C1, as the code has it. For a PNG file every call of the PNG
      encoder made by [processFile] gets the compression level the
      estimator returned for that file, and a run that succeeds does make
      that call; the level is best-compression exactly when what the
      path names can be opened and stat'ed and has a size of at least
      1 MiB: a file of that many bytes, or a directory for which the
      system reports such a size. *)
Theorem png_level_is_estimate (path : string) (w : world) :
    ToLower (Ext path) = ".png"%string ->
    exists (estimate : CompressionLevel) (more : list call),
      fst (estimatePngCompressionLevel path w) = Ok estimate /\
      calls (snd (processFile path w)) = calls w ++ more /\
      (forall l, LibPngEncode l ∈ more -> l = estimate) /\
      (fst (processFile path w) = Ok tt -> LibPngEncode estimate ∈ more) /\
      (estimate = BestCompression <->
       (exists f, fs w !! path = Some (NFile f) /\ f_open f = true /\ f_stat f = true /\
                  1024 * 1024 <= Z.of_nat (length (data f))) \/
       (exists entries, fs w !! path = Some (NDir (Some entries)) /\
                        1024 * 1024 <= dir_Size path)).
Proof.
    intros Hext.
    destruct (processFile_calls path w) as (more & Hcalls & Honly & Hlive).
    assert (Hcall : encoder_call path w = LibPngEncode (pngLevelOf (fs w) path)).
    { unfold encoder_call, estimateOf, extOf. by rewrite Hext. }
    exists (pngLevelOf (fs w) path), more.
    split; [apply estimatePngCompressionLevel_value|]. split; [exact Hcalls|].
    split; [|split].
    - intros l Hin. apply Honly in Hin; [|reflexivity]. congruence.
    - intros Hok. rewrite <- Hcall. by apply Hlive.
    - unfold pngLevelOf.
      destruct (fs w !! path) as [[f|[l|]]|].
      + destruct (f_open f) eqn:Ho, (f_stat f) eqn:Hst; cbn [andb];
          try (split; [discriminate
                      |intros [(f' & Hf' & ? & ? & _)|(l & ? & _)]; simplify_eq; congruence]).
        rewrite levelOfSize_best. split.
        * intros Hsz. left. exists f. by repeat split.
        * intros [(f' & Hf' & _ & _ & Hsz)|(l & ? & _)]; [|discriminate].
          by simplify_eq.
      + rewrite levelOfSize_best. split.
        * intros Hsz. right. by exists l.
        * intros [(f' & ? & _)|(l' & _ & Hsz)]; [discriminate|exact Hsz].
      + split; [discriminate|]. intros [(f' & ? & _)|(l' & ? & _)]; discriminate.
      + split; [discriminate|]. intros [(f' & ? & _)|(l' & ? & _)]; discriminate.
Qed.

  (** C10. Once the file has been read and decoded and [os.Create] has
      truncated it, an encoder error makes [processFile] return the
      save error, and the file is left with exactly what the encoder
      managed to write (nothing, or a partial image): the original
      bytes are not put back. *)
Theorem save_failure_destroys_file (path : string) (w : world)
      (f : file) (src : Image) (format e : string) :
    map_index supportedExtensions (ToLower (Ext path)) = true ->
    fs w !! path = Some (NFile f) ->
    f_open f = true -> f_read f = true -> f_create f = true ->
    image_Decode (data f) = inr (src, format) ->
    werr (encoder_result path w src) = Some e ->
    fst (processFile path w) = Err ("failed to save image: " ++ e)%string /\
    fs (snd (processFile path w)) !! path
      = Some (NFile (with_data f (written (encoder_result path w src)))) /\
    SysCreate path ∈ calls (snd (processFile path w)).
Proof.
    intros Hs Hf Ho Hr Hcr Hd Hw.
    destruct (processFile_run path w) as
      [Hs'|e' Hs' Hc|f' e' Hs' Hf' Ho' Hr' Hd'|f' src' fmt' Hs' Hf' Ho' Hr' Hd' Hcr'
      |f' src' fmt' e' Hs' Hf' Ho' Hr' Hd' Hcr' Hw'
      |f' src' fmt' e' Hs' Hf' Ho' Hr' Hd' Hcr' Hw' Hsum'
      |f' src' fmt' Hs' Hf' Ho' Hr' Hd' Hcr' Hw' Hro' Hrr'];
      unfold extOf in *; try congruence.
    - unfold checksumOf in Hc. rewrite Hf, Ho, Hr in Hc. discriminate.
    - assert (f' = f) as -> by congruence.
      assert (src' = src) as -> by congruence.
      assert (e' = e) as -> by congruence.
      split; [reflexivity|]. split.
      + unfold after_encoding. wsimpl. apply lookup_insert_eq.
      + unfold after_encoding. wsimpl. rewrite !elem_of_app, !elem_of_cons. tauto.
Qed.

End SingleFile.

(** ** The estimators *)

Section Estimators.

Context {golib : GoLib}.

  (** C4. [estimateJpegQuality] never fails and returns one of 60, 70,
      75, 80, 90, 95.  When the file can be opened, stat'ed, read and
      decoded and the decoded format is ["jpeg"], it divides the size in
      bytes by the pixel count, both converted to [float64], and maps
      the quotient through the table [< 0.5 -> 60], [< 0.75 -> 70],
      [< 1.0 -> 80], [< 1.5 -> 90], else 95 (the thresholds are the
      [float64] values of [1 * 2^-1], [3 * 2^-2], [1 * 2^0] and
      [3 * 2^-1]); in every other case it returns 75.  For a size below
      [2^53] bytes and a pixel count from 1 to [2^52 - 1] the [float64]
      quotient falls on the same side of every threshold as the exact
      ratio [size / pixels]: the estimate is 60 when [2 * size < pixels],
      70 when [4 * size < 3 * pixels], 80 when [size < pixels], 90 when
      [2 * size < 3 * pixels], and 95 otherwise. *)
Theorem jpeg_quality_table (path : string) (w : world) :
    exists q : Z,
      fst (estimateJpegQuality path w) = Ok q /\
      q = match fs w !! path with
          | Some (NFile f) =>
              if f_open f && f_stat f && f_read f then
                match image_Decode (data f) with
                | inr (img, format) =>
                    if String.eqb format "jpeg" then
                      let float64 (m e : Z) := binary_normalize 53 1024 m e false in
                      let bytesPerPixel :=
                        SFdiv 53 1024 (float64 (Z.of_nat (length (data f))) 0)
                                      (float64 (int64_wrap (Dx img * Dy img)) 0) in
                      if SFltb bytesPerPixel (float64 1 (-1)) then 60
                      else if SFltb bytesPerPixel (float64 3 (-2)) then 70
                      else if SFltb bytesPerPixel (float64 1 0) then 80
                      else if SFltb bytesPerPixel (float64 3 (-1)) then 90
                      else 95
                    else 75
                | inl _ => 75
                end
              else 75
          | _ => 75
          end /\
      q ∈ [60; 70; 75; 80; 90; 95] /\
      (q <> 75 -> q ∈ [60; 70; 80; 90; 95]) /\
      (forall (f : file) (img : Image),
         fs w !! path = Some (NFile f) ->
         f_open f = true -> f_stat f = true -> f_read f = true ->
         image_Decode (data f) = inr (img, "jpeg"%string) ->
         let size := Z.of_nat (length (data f)) in
         let pixels := Dx img * Dy img in
         size < 2 ^ 53 -> 0 < pixels < 2 ^ 52 ->
         q = (if 2 * size <? pixels then 60
              else if 4 * size <? 3 * pixels then 70
              else if size <? pixels then 80
              else if 2 * size <? 3 * pixels then 90
              else 95)).
Proof.
    exists (jpegQualityOf (fs w) path).
    split; [apply estimateJpegQuality_value|].
    split; [|split; [|split]].
    - unfold jpegQualityOf, decodedAt, bytesPerPixelOf, qualityOfBytesPerPixel.
      destruct (fs w !! path) as [[f|l]|]; try reflexivity.
      destruct (f_open f), (f_stat f), (f_read f); cbn [andb]; try reflexivity.
      destruct (image_Decode (data f)) as [e|[img format]]; reflexivity.
    - apply jpegQualityOf_range.
    - pose proof (jpegQualityOf_range (fs w) path) as Hq.
      rewrite !elem_of_cons, elem_of_nil in *. intros Hne. tauto.
    - intros f img Hf Ho Hst Hr Hd size pixels Hsize Hpixels.
      unfold jpegQualityOf, decodedAt, bytesPerPixelOf. rewrite Hf, Ho, Hst, Hr, Hd.
      cbn [andb]. replace (String.eqb "jpeg" "jpeg") with true by reflexivity.
      fold size. fold pixels.
      assert (Hwrap : int64_wrap pixels = pixels).
      { unfold int64_wrap. change (2 ^ 52) with 4503599627370496 in Hpixels.
        change (2 ^ 63) with 9223372036854775808.
        change (2 ^ 64) with 18446744073709551616.
        rewrite Z.mod_small by lia. lia. }
      rewrite Hwrap. apply qualityOfBytesPerPixel_exact; [unfold size; lia|exact Hpixels].
Qed.

  (** C5. [estimatePngCompressionLevel] never fails.  When what the
      path names can be opened and stat'ed it maps the size through the
      table [< 10 KiB -> NoCompression], [< 100 KiB -> BestSpeed],
      [< 1 MiB -> DefaultCompression], else [BestCompression]; when
      opening or stat'ing fails it returns [DefaultCompression].  The
      size is the number of bytes of a file; a directory that can be
      listed is opened and stat'ed like a file, and its size is the one
      the system reports for it. *)
Theorem png_level_table (path : string) (w : world) :
    fst (estimatePngCompressionLevel path w) =
    Ok (let table (size : Z) :=
          if size <? 10240 then NoCompression
          else if size <? 102400 then BestSpeed
          else if size <? 1048576 then DefaultCompression
          else BestCompression in
        match fs w !! path with
        | Some (NFile f) =>
            if f_open f && f_stat f then table (Z.of_nat (length (data f)))
            else DefaultCompression
        | Some (NDir (Some _)) => table (dir_Size path)
        | Some (NDir None) | None => DefaultCompression
        end).
Proof.
    rewrite estimatePngCompressionLevel_value. unfold pngLevelOf.
    destruct (fs w !! path) as [[f|[l|]]|]; reflexivity.
Qed.

End Estimators.

(** The comparisons of the JPEG table are strict: a ratio that is
    exactly a threshold falls into the next step.  An image without
    pixels gives an infinite or undefined ratio, which no comparison
    accepts. *)
Example quality_steps :
  List.map (fun '(size, pixels) =>
              qualityOfBytesPerPixel (Float64.div (Float64.of_int size) (Float64.of_int pixels)))
           [(4999, 10000); (5000, 10000); (7499, 10000); (7500, 10000);
            (9999, 10000); (10000, 10000); (14999, 10000); (15000, 10000);
            (15000, 0); (0, 0)]
  = [60; 70; 70; 80; 80; 90; 90; 95; 95; 95].
Proof. vm_compute. reflexivity. Qed.

(** On every size up to 200 bytes and every pixel count from 1 to 100
    the [float64] computation gives what the table gives on the exact
    ratio: no rounding of the quotient crosses a threshold there. *)
Example quality_table_exact_on_small_inputs :
  forallb (fun pixels =>
    forallb (fun size =>
      qualityOfBytesPerPixel
        (Float64.div (Float64.of_int (Z.of_nat size)) (Float64.of_int (Z.of_nat pixels)))
      =? qualityOfExactRatio (Z.of_nat size) (Z.of_nat pixels))
      (seq 0 201))
    (seq 1 100) = true.
Proof. vm_compute. reflexivity. Qed.

(** ** The checksum *)

Lemma le_bytes_length n x : length (Md5.le_bytes n x) = n.
Proof. unfold Md5.le_bytes. by rewrite length_map, length_seq. Qed.

Lemma md5_sum_length bs : length (Md5.sum bs) = Md5.Size.
Proof. unfold Md5.sum. rewrite !length_app, !le_bytes_length. reflexivity. Qed.

Lemma hex_length bs : String.length (Hex.EncodeToString bs) = (2 * length bs)%nat.
Proof. induction bs as [|b bs IH]; cbn [Hex.EncodeToString String.length length]; lia. Qed.

Lemma hex_all_hex bs : Hex.all_hex (Hex.EncodeToString bs) = true.
Proof.
  induction bs as [|b bs IH]; [reflexivity|].
  cbn [Hex.EncodeToString Hex.all_hex]. rewrite IH.
  destruct b; reflexivity.
Qed.

Section Checksum.

Context {golib : GoLib}.

  (** C8. The checksum of a readable file is a function of its bytes
      alone: any run over a file with the same bytes, under any path and
      in any state, returns the same string.  The string has 32
      characters, all hexadecimal digits.  [processFile] uses the two
      checksums it computes only to test whether they are equal: that
      test is the mark it prints. *)
Theorem checksum_deterministic (path : string) (w : world) (f : file) :
    fs w !! path = Some (NFile f) -> f_open f = true -> f_read f = true ->
    exists digest : string,
      fst (calculateFileChecksum path w) = Ok digest /\
      String.length digest = 32%nat /\ Hex.all_hex digest = true /\
      (forall path' w' f',
         fs w' !! path' = Some (NFile f') -> f_open f' = true -> f_read f' = true ->
         data f' = data f ->
         fst (calculateFileChecksum path' w') = Ok digest) /\
      (fst (processFile path w) = Ok tt -> verbose w = false ->
       exists digest' : string,
         fst (calculateFileChecksum path (snd (processFile path w))) = Ok digest' /\
         stdout (snd (processFile path w))
         = stdout w ++ [OutProcessedMark path (negb (String.eqb digest digest'))]).
Proof.
    intros Hf Ho Hr.
    exists (Hex.EncodeToString (Md5.sum (data f))).
    split; [|split; [|split; [|split]]].
    - rewrite calculateFileChecksum_eq. unfold checksumOf. cbn. by rewrite Hf, Ho, Hr.
    - rewrite hex_length, md5_sum_length. reflexivity.
    - apply hex_all_hex.
    - intros path' w' f' Hf' Ho' Hr' Hdata.
      rewrite calculateFileChecksum_eq. unfold checksumOf. cbn.
      by rewrite Hf', Ho', Hr', Hdata.
    - intros Hok Hv.
      destruct (processFile_run path w) as
        [Hs'|e' Hs' Hc|f' e' Hs' Hf' Ho' Hr' Hd'|f' src' fmt' Hs' Hf' Ho' Hr' Hd' Hcr'
        |f' src' fmt' e' Hs' Hf' Ho' Hr' Hd' Hcr' Hw'
      |f' src' fmt' e' Hs' Hf' Ho' Hr' Hd' Hcr' Hw' Hsum'
      |f' src' fmt' Hs' Hf' Ho' Hr' Hd' Hcr' Hw' Hro' Hrr'];
        try discriminate.
      assert (f' = f) as -> by congruence.
      exists (Hex.EncodeToString (Md5.sum (written (encoder_result path w src')))).
      split.
      + rewrite calculateFileChecksum_eq. unfold checksumOf, after_encoding. wsimpl.
        rewrite lookup_insert_eq. wsimpl. by rewrite Hro', Hrr'.
      + unfold after_encoding, adjustment_lines, report_lines. wsimpl.
        rewrite Hv, andb_false_r. reflexivity.
Qed.

End Checksum.

(** ** The directory walk *)

Lemma same_dirs_refl m : same_dirs m m.
Proof. intros p l. reflexivity. Qed.

Lemma same_dirs_trans m1 m2 m3 : same_dirs m1 m2 -> same_dirs m2 m3 -> same_dirs m1 m3.
Proof. intros H12 H23 p l. rewrite (H12 p l). apply H23. Qed.

Lemma same_dirs_sym m1 m2 : same_dirs m1 m2 -> same_dirs m2 m1.
Proof. intros H12 p l. symmetry. apply H12. Qed.

Lemma same_dirs_insert_file m path (f f' : file) :
  m !! path = Some (NFile f) -> same_dirs m (<[path := NFile f']> m).
Proof.
  intros Hf p l. destruct (decide (path = p)) as [->|Hne].
  - rewrite lookup_insert_eq, Hf. split; discriminate.
  - by rewrite lookup_insert_ne.
Qed.

Lemma grows_refl w : grows w w [] [] [].
Proof. split; rewrite ?app_nil_r; try reflexivity. apply same_dirs_refl. Qed.

Lemma grows_trans w1 w2 w3 cs os es cs' os' es' :
  grows w1 w2 cs os es -> grows w2 w3 cs' os' es' ->
  grows w1 w3 (cs ++ cs') (os ++ os') (es ++ es').
Proof.
  intros [Hd Hr Hv Hc Ho He] [Hd' Hr' Hv' Hc' Ho' He'].
  split; rewrite ?app_assoc; try congruence.
  eapply same_dirs_trans; eassumption.
Qed.

Lemma grows_add_calls w cs : grows w (add_calls cs w) cs [] [].
Proof. split; cbn; rewrite ?app_nil_r; try reflexivity. apply same_dirs_refl. Qed.

Lemma grows_stderr w l : grows w (snd (Fprintf_stderr l w)) [] [] [l].
Proof. split; cbn; rewrite ?app_nil_r; try reflexivity. apply same_dirs_refl. Qed.

Lemma reported_app p os os' es es' :
  reported p (os ++ os') (es ++ es') <-> reported p os es \/ reported p os' es'.
Proof.
  unfold reported. split.
  - intros [(l & Hin & Hl)|(e & Hin)]; apply elem_of_app in Hin as [Hin|Hin]; eauto 6.
  - intros [[(l & Hin & Hl)|(e & Hin)]|[(l & Hin & Hl)|(e & Hin)]];
      [left; exists l|right; exists e|left; exists l|right; exists e];
      rewrite elem_of_app; tauto.
Qed.

Lemma reported_nil p : ~ reported p [] [].
Proof.
  intros [(l & Hin & _)|(e & Hin)]; by apply elem_of_nil in Hin.
Qed.

Section Walk.

Context {golib : GoLib}.

Lemma forEach_ext {A} (l : list A) (body body' : A -> IO unit) w :
    (forall x w0, x ∈ l -> body x w0 = body' x w0) ->
    forEach l body w = forEach l body' w.
Proof.
    revert w. induction l as [|x l IH]; intros w Hext; [reflexivity|].
    cbn [forEach]. io_unfold. rewrite Hext by apply list_elem_of_here.
    destruct (body' x w) as [[[]|e] w1]; [|reflexivity].
    apply IH. intros y w0 Hy. apply Hext. by apply list_elem_of_further.
Qed.

Lemma processEntry_ext recurse recurse' path cur max e w :
    (cur < max -> forall w0,
       recurse (filepath_Join path (Name e)) (cur + 1) max w0
       = recurse' (filepath_Join path (Name e)) (cur + 1) max w0) ->
    processEntry recurse path cur max e w = processEntry recurse' path cur max e w.
Proof.
    intros Hrec. unfold processEntry.
    destruct (IsDir e); cbn [andb negb]; [|reflexivity].
    destruct (Z.ltb_spec cur max) as [Hlt|Hge]; [|reflexivity].
    io_unfold. by rewrite Hrec.
Qed.

  (** The recursion equation of [processDirectory], as in the source:
      the bound on nested calls is never reached. *)
Lemma processDirectory_unfold path cur max w :
    processDirectory path cur max w =
    (if cur >? max then ret tt
     else
       entries ← wrapErr "failed to read directory" (os_ReadDir path);
       forEach entries (processEntry processDirectory path cur max)) w.
Proof.
    unfold processDirectory at 1.
    destruct (Z.to_nat (max - cur)) as [|n] eqn:Hn; cbn [processDirectory_rec];
      destruct (cur >? max); try reflexivity; io_unfold;
      destruct (os_ReadDir path w) as [[entries|e] w1]; try reflexivity;
      apply forEach_ext; intros e w0 _; apply processEntry_ext; intros Hlt w2.
    - lia.
    - unfold processDirectory. replace (Z.to_nat (max - (cur + 1))) with n by lia.
      reflexivity.
Qed.

Lemma processEntry_Ok recurse path cur max e w :
    fst (processEntry recurse path cur max e w) = Ok tt.
Proof.
    unfold processEntry. io_unfold.
    repeat case_match; simplify_eq; reflexivity.
Qed.

Lemma forEach_Ok {A} (l : list A) (body : A -> IO unit) w :
    (forall x w0, fst (body x w0) = Ok tt) ->
    fst (forEach l body w) = Ok tt.
Proof.
    intros Hbody. revert w. induction l as [|x l IH]; intros w; [reflexivity|].
    cbn [forEach]. io_unfold. specialize (Hbody x w).
    destruct (body x w) as [[[]|e] w1]; [apply IH|discriminate].
Qed.

Lemma forEach_app {A} (l1 l2 : list A) (body : A -> IO unit) w :
    (forall x w0, fst (body x w0) = Ok tt) ->
    forEach (l1 ++ l2) body w = forEach l2 body (snd (forEach l1 body w)).
Proof.
    intros Hbody. revert w. induction l1 as [|x l1 IH]; intros w; [reflexivity|].
    cbn [forEach app]. io_unfold. specialize (Hbody x w).
    destruct (body x w) as [[[]|e] w1]; [apply IH|discriminate].
Qed.

End Walk.

Section WalkSpec.

Context {golib : GoLib}.

Lemma dir_at_same_dirs m m' root k d :
    same_dirs m m' -> dir_at m root k d -> dir_at m' root k d.
Proof.
    intros Hsame Hat. induction Hat as [root|root entries name k d Hroot Hin _ IH].
    - constructor.
    - econstructor; [by apply Hsame|exact Hin|exact IH].
Qed.

Lemma eligible_in_same_dirs m m' d p :
    same_dirs m m' -> eligible_in m d p -> eligible_in m' d p.
Proof.
    intros Hsame (entries & name & Hd & Hin & Hs & ->).
    exists entries, name. split; [by apply Hsame|]. by repeat split.
Qed.

Lemma read_calls_only path w c :
    c ∈ read_calls path w -> c = SysOpen path \/ c = SysFstat path.
Proof.
    unfold read_calls, estimate_calls.
    rewrite elem_of_cons, elem_of_app, list_elem_of_singleton.
    intros [->|[Hc| ->]]; auto.
    destruct (_ || _); [|by apply elem_of_nil in Hc].
    apply elem_of_cons in Hc as [->|Hc]; [auto|].
    destruct (opens _ _); [|by apply elem_of_nil in Hc].
    apply list_elem_of_singleton in Hc as ->. auto.
Qed.

Lemma encoder_call_lib path w : is_encoder_call (encoder_call path w) = true.
Proof. unfold encoder_call. repeat case_match; reflexivity. Qed.

  (** What [processFile] adds to the state: calls on its own path, the
      first of them the [open] for the original checksum, and lines
      about its own path. *)
Lemma processFile_grows path w :
    exists cs os,
      grows w (snd (processFile path w)) cs os [] /\
      (forall c, c ∈ cs ->
         c = SysOpen path \/ c = SysFstat path \/ c = SysCreate path \/
         is_encoder_call c = true) /\
      (SysOpen path ∈ cs <-> map_index supportedExtensions (ToLower (Ext path)) = true) /\
      (forall l p, l ∈ os -> line_path l = Some p -> p = path) /\
      (fst (processFile path w) = Ok tt -> exists l, l ∈ os /\ line_path l = Some path).
Proof.
    assert (Hadj : forall l p, l ∈ adjustment_lines path w -> line_path l = Some p -> p = path).
    { intros l p Hin. unfold adjustment_lines in Hin.
      destruct (_ && _); [|by apply elem_of_nil in Hin].
      apply list_elem_of_singleton in Hin as ->. discriminate. }
    assert (Hfirst : forall rest, SysOpen path ∈ read_calls path w ++ rest).
    { intros rest. unfold read_calls. apply list_elem_of_here. }
    assert (Hcalls : forall more c,
              (forall c', c' ∈ more -> c' = SysOpen path) ->
              c ∈ read_calls path w ++ SysCreate path :: encoder_call path w :: more ->
              c = SysOpen path \/ c = SysFstat path \/ c = SysCreate path \/
              is_encoder_call c = true).
    { intros more c Hmore Hin. apply elem_of_app in Hin as [Hin|Hin].
      - apply read_calls_only in Hin. tauto.
      - apply elem_of_cons in Hin as [->|Hin]; [tauto|].
        apply elem_of_cons in Hin as [->|Hin]; [|left; by apply Hmore].
        right. right. right. apply encoder_call_lib. }
    assert (Hwritten : forall f bs more lines,
              fs w !! path = Some (NFile f) ->
              grows w (after_encoding path w f bs more lines)
                (read_calls path w ++ SysCreate path :: encoder_call path w :: more)
                (adjustment_lines path w ++ lines) []).
    { intros f bs more lines Hf. unfold after_encoding. split; wsimpl; try reflexivity.
      - by eapply same_dirs_insert_file.
      - by rewrite app_nil_r. }
    destruct (processFile_run path w) as
      [Hs|e Hs Hc|f e Hs Hf Ho Hr Hd|f src fmt Hs Hf Ho Hr Hd Hcr
      |f src fmt e Hs Hf Ho Hr Hd Hcr Hw|f src fmt e Hs Hf Ho Hr Hd Hcr Hw Hsum
      |f src fmt Hs Hf Ho Hr Hd Hcr Hw Hro Hrr]; unfold extOf in Hs.
    - exists [], []. split; [apply grows_refl|].
      split; [intros d Hin; by apply elem_of_nil in Hin|].
      split; [split; [intros Hin; by apply elem_of_nil in Hin|congruence]|].
      split; [intros l p Hin; by apply elem_of_nil in Hin|discriminate].
    - exists [SysOpen path], []. split; [apply grows_add_calls|].
      split; [intros c Hin; apply list_elem_of_singleton in Hin; tauto|].
      split; [split; [done|intros _; apply list_elem_of_here]|].
      split; [intros l p Hin; by apply elem_of_nil in Hin|discriminate].
    - exists (read_calls path w), []. split; [apply grows_add_calls|].
      split; [intros c Hin; apply read_calls_only in Hin; tauto|].
      split; [split; [done|intros _; apply list_elem_of_here]|].
      split; [intros l p Hin; by apply elem_of_nil in Hin|discriminate].
    - exists (read_calls path w ++ [SysCreate path]), []. split; [apply grows_add_calls|].
      split.
      { intros c Hin. apply elem_of_app in Hin as [Hin|Hin].
        - apply read_calls_only in Hin. tauto.
        - apply list_elem_of_singleton in Hin. tauto. }
      split; [split; [done|intros _; apply Hfirst]|].
      split; [intros l p Hin; by apply elem_of_nil in Hin|discriminate].
    - eexists _, _. split; [by apply Hwritten|].
      split; [intros c; apply Hcalls; intros c' Hin; by apply elem_of_nil in Hin|].
      split; [split; [done|intros _; apply Hfirst]|].
      split; [|discriminate].
      intros l p Hin. rewrite app_nil_r in Hin. by apply Hadj.
    - eexists _, _. split; [by apply Hwritten|].
      split; [intros c; apply Hcalls; intros c' Hin; by apply list_elem_of_singleton in Hin|].
      split; [split; [done|intros _; apply Hfirst]|].
      split; [|discriminate].
      intros l p Hin. rewrite app_nil_r in Hin. by apply Hadj.
    - eexists _, _. split; [by apply Hwritten|].
      split; [intros c; apply Hcalls; intros c' Hin; by apply list_elem_of_singleton in Hin|].
      split; [split; [done|intros _; apply Hfirst]|].
      split.
      + intros l p Hin. apply elem_of_app in Hin as [Hin|Hin]; [by apply Hadj|].
        unfold report_lines in Hin.
        destruct (verbose w); rewrite !elem_of_cons, elem_of_nil in Hin;
          intros Hl; destruct_or!; subst; cbn in Hl; congruence.
      + intros _. unfold report_lines. destruct (verbose w).
        * exists (OutProcessed path). split; [|reflexivity].
          apply elem_of_app. right. apply list_elem_of_here.
        * eexists (OutProcessedMark path _). split; [|reflexivity].
          apply elem_of_app. right. apply list_elem_of_here.
Qed.

End WalkSpec.

Lemma reported_other_stderr p os es l :
  (forall e, l <> ErrProcessingFile p e) ->
  reported p os (es ++ [l]) <-> reported p os es.
Proof.
  intros Hl. unfold reported. split.
  - intros [Hout|(e & Hin)]; [by left|].
    apply elem_of_app in Hin as [Hin|Hin]; [right; eauto|].
    apply list_elem_of_singleton in Hin. by edestruct Hl.
  - intros [Hout|(e & Hin)]; [by left|].
    right. exists e. apply elem_of_app. by left.
Qed.

(** ** Putting specifications of steps together *)

Section Post.

Context {golib : GoLib}.

Lemma post_nil w : post (fun _ => False) (fun _ => False) w w.
Proof.
    exists [], [], []. split; [apply grows_refl|].
    split; [intros d; rewrite elem_of_nil; tauto|].
    split; [intros p; split; [intros Hr; by apply reported_nil in Hr|tauto]|].
    intros p. rewrite elem_of_nil. tauto.
Qed.

Lemma post_equiv (dirs dirs' files files' : string -> Prop) w w' :
    (forall d, dirs d <-> dirs' d) -> (forall p, files p <-> files' p) ->
    post dirs files w w' -> post dirs' files' w w'.
Proof.
    intros Hd Hf (cs & os & es & Hg & Hdirs & Hfiles & Hopen).
    exists cs, os, es. split; [exact Hg|].
    split; [intros d; rewrite <- Hd; apply Hdirs|].
    split; [intros p; rewrite <- Hf; apply Hfiles|].
    intros p. rewrite <- Hf. apply Hopen.
Qed.

Lemma post_seq (dirs1 dirs2 files1 files2 : string -> Prop) w w1 w2 :
    post dirs1 files1 w w1 -> post dirs2 files2 w1 w2 ->
    post (fun d => dirs1 d \/ dirs2 d) (fun p => files1 p \/ files2 p) w w2.
Proof.
    intros (cs & os & es & Hg & Hdirs & Hfiles & Hopen)
           (cs' & os' & es' & Hg' & Hdirs' & Hfiles' & Hopen').
    exists (cs ++ cs'), (os ++ os'), (es ++ es').
    split; [eapply grows_trans; eassumption|].
    split; [intros d; rewrite elem_of_app, Hdirs, Hdirs'; tauto|].
    split; [intros p; rewrite reported_app, Hfiles, Hfiles'; tauto|].
    intros p. rewrite elem_of_app, Hopen, Hopen'. tauto.
Qed.

  (** An error line about a directory is about no file. *)
Lemma post_directory_error (dirs files : string -> Prop) w w1 d err :
    post dirs files w w1 ->
    post dirs files w (snd (Fprintf_stderr (ErrProcessingDirectory d err) w1)).
Proof.
    intros (cs & os & es & Hg & Hdirs & Hfiles & Hopen).
    exists (cs ++ []), (os ++ []), (es ++ [ErrProcessingDirectory d err]).
    split; [eapply grows_trans; [exact Hg|apply grows_stderr]|].
    rewrite !app_nil_r. split; [exact Hdirs|]. split; [|exact Hopen].
    intros p. rewrite reported_other_stderr by discriminate. apply Hfiles.
Qed.

Lemma post_ReadDir path w :
    post (fun d => d = path) (fun _ => False) w (add_calls [SysReadDir path] w).
Proof.
    exists [SysReadDir path], [], []. split; [apply grows_add_calls|].
    split; [intros d; rewrite list_elem_of_singleton; split; congruence|].
    split; [intros p; split; [intros Hr; by apply reported_nil in Hr|tauto]|].
    intros p. rewrite list_elem_of_singleton. split; [discriminate|tauto].
Qed.

  (** [processFile] followed by the printing of its error, as in the
      loop of [processDirectory]. *)
Lemma post_processFile p w :
    post (fun _ => False) (fun q => q = p) w
      (snd (match processFile p w with
            | (Ok _, w1) => (Ok tt, w1)
            | (Err err, w1) => Fprintf_stderr (ErrProcessingFile p err) w1
            end)).
Proof.
    destruct (processFile_grows p w) as (cs & os & Hg & Hcalls & Hopen & Habout & Hline).
    assert (Hdirs : forall d, SysReadDir d ∈ cs <-> False).
    { intros d. split; [|tauto]. intros Hin. apply Hcalls in Hin.
      destruct Hin as [?|[?|[?|?]]]; discriminate. }
    assert (Hopens : forall q, SysOpen q ∈ cs <->
              q = p /\ map_index supportedExtensions (ToLower (Ext q)) = true).
    { intros q. split.
      - intros Hin. assert (q = p) as ->.
        { apply Hcalls in Hin. destruct Hin as [?|[?|[?|?]]]; congruence || discriminate. }
        split; [reflexivity|by apply Hopen].
      - intros [-> Hs]. by apply Hopen. }
    destruct (processFile p w) as [[[]|err] w1]; cbn [fst snd] in *.
    - exists cs, os, []. split; [exact Hg|]. split; [exact Hdirs|]. split; [|exact Hopens].
      intros q. split.
      + intros [(l & Hin & Hl)|(e & Hin)]; [by eapply Habout|by apply elem_of_nil in Hin].
      + intros ->. left. by apply Hline.
    - exists (cs ++ []), (os ++ []), ([] ++ [ErrProcessingFile p err]).
      split; [eapply grows_trans; [exact Hg|apply grows_stderr]|].
      rewrite !app_nil_r. split; [exact Hdirs|]. split; [|exact Hopens].
      intros q. split.
      + intros [(l & Hin & Hl)|(e & Hin)]; [by eapply Habout|].
        apply list_elem_of_singleton in Hin. congruence.
      + intros ->. right. exists err. apply list_elem_of_here.
Qed.

Lemma within_bound_same_dirs m m' path cur max p :
    same_dirs m m' -> within_bound m path cur max p -> within_bound m' path cur max p.
Proof.
    intros Hsame (k & d & Hk & Hat & Hel). exists k, d. split; [exact Hk|].
    split; [by eapply dir_at_same_dirs|by eapply eligible_in_same_dirs].
Qed.

Lemma through_entry_same_dirs m m' path cur max e p :
    same_dirs m m' -> through_entry m path cur max e p -> through_entry m' path cur max e p.
Proof.
    intros Hsame [Hfile|(Hd & Hin)]; [by left|].
    right. split; [exact Hd|]. by eapply within_bound_same_dirs.
Qed.

  (** The directories and files within the bound of a listed directory
      are the directory itself and what its entries lead to. *)
Lemma dirs_of_listing m path cur max entries d :
    cur <= max -> m !! path = Some (NDir (Some entries)) ->
    (exists k : nat, cur + Z.of_nat k <= max /\ dir_at m path k d) <->
    d = path \/
    exists e, e ∈ entries /\ IsDir e = true /\
      exists k : nat, cur + 1 + Z.of_nat k <= max /\ dir_at m (filepath_Join path (Name e)) k d.
Proof.
    intros Hle Hp. split.
    - intros (k & Hk & Hat). inversion Hat as [|? entries' name k' ? Hp' Hin Hat']; subst.
      + by left.
      + right. assert (entries' = entries) as -> by congruence.
        exists (Entry name true). split; [exact Hin|]. split; [reflexivity|].
        exists k'. split; [lia|exact Hat'].
    - intros [->|([name isdir] & Hin & Hd & k & Hk & Hat)].
      + exists 0%nat. split; [lia|constructor].
      + cbn [Name IsDir] in *. subst isdir.
        exists (S k). split; [lia|]. econstructor; eassumption.
Qed.

Lemma files_of_listing m path cur max entries p :
    cur <= max -> m !! path = Some (NDir (Some entries)) ->
    within_bound m path cur max p <->
    exists e, e ∈ entries /\ through_entry m path cur max e p.
Proof.
    intros Hle Hp. split.
    - intros (k & d & Hk & Hat & Hel).
      inversion Hat as [|? entries' name k' ? Hp' Hin Hat']; subst.
      + destruct Hel as (entries' & name & Hp' & Hin & Hs & ->).
        assert (entries' = entries) as -> by congruence.
        exists (Entry name false). split; [exact Hin|]. left. by repeat split.
      + assert (entries' = entries) as -> by congruence.
        exists (Entry name true). split; [exact Hin|]. right.
        split; [reflexivity|]. exists k', d. split; [lia|]. by split.
    - intros ([name isdir] & Hin & [(Hd & Hs & ->)|(Hd & k & d & Hk & Hat & Hel)]);
        cbn [Name IsDir] in *; subst isdir.
      + exists 0%nat, path. split; [lia|]. split; [constructor|].
        exists entries, name. by repeat split.
      + exists (S k), d. split; [lia|]. split; [econstructor; eassumption|exact Hel].
Qed.

End Post.

Section WalkInduction.

Context {golib : GoLib}.

Variables (path : string) (cur max : Z).

  (** The walks nested one level deeper behave as specified. *)
Hypothesis nested :
    cur < max -> forall p w0,
      walk_post p (cur + 1) max w0 (snd (processDirectory p (cur + 1) max w0)).

Lemma processEntry_post e w :
    entry_post path cur max e w (snd (processEntry processDirectory path cur max e w)).
Proof.
    unfold processEntry, entry_post. destruct e as [name isdir]. cbn [Name IsDir].
    set (p := filepath_Join path name).
    destruct isdir; cbn [andb negb].
    - destruct (Z.ltb_spec cur max) as [Hlt|Hge].
      + io_unfold. specialize (nested Hlt p w).
        assert (Hshape : forall w1,
                  post (fun d => exists k : nat,
                          cur + 1 + Z.of_nat k <= max /\ dir_at (fs w) p k d)
                       (within_bound (fs w) p (cur + 1) max) w w1 ->
                  post (fun d => true = true /\
                          exists k : nat, cur + 1 + Z.of_nat k <= max /\ dir_at (fs w) p k d)
                       (through_entry (fs w) path cur max (Entry name true)) w w1).
        { intros w1. apply post_equiv; [intros d; tauto|].
          intros q. unfold through_entry. cbn [Name IsDir]. fold p. split; [by right|].
          intros [(? & _)|(_ & Hq)]; [discriminate|exact Hq]. }
        destruct (processDirectory p (cur + 1) max w) as [[[]|err] w1]; cbn [snd] in *.
        * by apply Hshape.
        * apply Hshape. by apply post_directory_error.
      + eapply post_equiv; [| |apply post_nil].
        * intros d. split; [tauto|]. intros (_ & k & Hk & _). lia.
        * intros q. split; [tauto|].
          intros [(? & _)|(_ & k & d & Hk & _)]; [discriminate|lia].
    - destruct (map_index supportedExtensions (ToLower (Ext name))) eqn:Hs.
      + io_unfold. pose proof (post_processFile p w) as Hpf.
        destruct (processFile p w) as [[[]|err] w1]; cbn [snd] in *;
          (eapply post_equiv; [| |exact Hpf]).
        all: try (intros d; split; [tauto|]; intros (? & _); discriminate).
        all: intros q; unfold through_entry; cbn [Name IsDir]; fold p; split;
          [ intros ->; by left
          | intros [(_ & _ & ->)|(? & _)]; [reflexivity|discriminate] ].
      + eapply post_equiv; [| |apply post_nil].
        * intros d. split; [tauto|]. intros (? & _). discriminate.
        * intros q. split; [tauto|].
          intros [(_ & ? & _)|(? & _)]; cbn [Name IsDir] in *; congruence.
Qed.

Lemma forEach_post l w :
    loop_post path cur max l w
      (snd (forEach l (processEntry processDirectory path cur max) w)).
Proof.
    revert w. induction l as [|e l IH]; intros w.
    - eapply post_equiv; [| |apply post_nil].
      + intros d. split; [tauto|]. intros (e & Hin & _). by apply elem_of_nil in Hin.
      + intros q. split; [tauto|]. intros (e & Hin & _). by apply elem_of_nil in Hin.
    - cbn [forEach]. io_unfold.
      pose proof (processEntry_post e w) as He.
      pose proof (processEntry_Ok processDirectory path cur max e w) as Hok.
      destruct (processEntry processDirectory path cur max e w) as [r w1].
      cbn [fst snd] in *. subst r.
      assert (Hsame : same_dirs (fs w) (fs w1)).
      { destruct He as (cs & os & es & Hg & _). apply Hg. }
      pose proof (same_dirs_sym _ _ Hsame) as Hsame'.
      eapply post_equiv; [| |eapply post_seq; [exact He|apply IH]].
      + intros d. cbn beta. split.
        * intros [(Hd & k & Hk & Hat)|(e' & Hin & Hd & k & Hk & Hat)].
          -- exists e. split; [apply list_elem_of_here|]. eauto.
          -- exists e'. split; [by apply list_elem_of_further|].
             split; [exact Hd|]. exists k. split; [exact Hk|].
             by eapply dir_at_same_dirs.
        * intros (e' & Hin & Hd & k & Hk & Hat).
          apply elem_of_cons in Hin as [->|Hin]; [left; eauto|].
          right. exists e'. split; [exact Hin|]. split; [exact Hd|].
          exists k. split; [exact Hk|]. by eapply dir_at_same_dirs.
      + intros q. cbn beta. split.
        * intros [Hq|(e' & Hin & Hq)].
          -- exists e. split; [apply list_elem_of_here|exact Hq].
          -- exists e'. split; [by apply list_elem_of_further|].
             by eapply through_entry_same_dirs.
        * intros (e' & Hin & Hq).
          apply elem_of_cons in Hin as [->|Hin]; [by left|].
          right. exists e'. split; [exact Hin|]. by eapply through_entry_same_dirs.
Qed.

End WalkInduction.

Section WalkTheorems.

Context {golib : GoLib}.

Lemma walk_post_unreadable path cur max w :
    cur <= max ->
    (forall entries, fs w !! path <> Some (NDir (Some entries))) ->
    walk_post path cur max w (add_calls [SysReadDir path] w).
Proof.
    intros Hle Hno. eapply post_equiv; [| |apply post_ReadDir].
    - intros d. split.
      + intros ->. exists 0%nat. split; [lia|constructor].
      + intros (k & _ & Hat). inversion Hat; subst; [reflexivity|].
        by edestruct Hno.
    - intros q. split; [tauto|].
      intros (k & d & _ & Hat & entries & name & Hd & _).
      inversion Hat; subst; by edestruct Hno.
Qed.

Lemma walk_post_of_loop path cur max entries w w' :
    cur <= max ->
    fs w !! path = Some (NDir (Some entries)) ->
    loop_post path cur max entries (add_calls [SysReadDir path] w) w' ->
    walk_post path cur max w w'.
Proof.
    intros Hle Hp Hloop. cbn [fs add_calls] in *.
    eapply post_equiv; [| |eapply post_seq; [apply post_ReadDir|exact Hloop]].
    - intros d. cbn beta. rewrite (dirs_of_listing _ _ _ _ _ _ Hle Hp). reflexivity.
    - intros q. cbn beta. rewrite (files_of_listing _ _ _ _ _ _ Hle Hp). tauto.
Qed.

  (** A walk reads exactly the directories within its depth bound and
      runs [processFile] on exactly their eligible files. *)
Lemma processDirectory_post path cur max w :
    cur <= max ->
    walk_post path cur max w (snd (processDirectory path cur max w)).
Proof.
    remember (Z.to_nat (max - cur)) as n eqn:Hn.
    revert path cur w Hn. induction n as [|n IH]; intros path cur w Hn Hle.
    all: rewrite processDirectory_unfold.
    all: destruct (Z.gtb_spec cur max) as [Hgt|_]; [lia|].
    all: io_unfold; unfold os_ReadDir; io_unfold; cbn [fs].
    all: destruct (fs w !! path) as [[f|[entries|]]|] eqn:Hp; cbn [snd];
      try (apply walk_post_unreadable; [exact Hle|intros entries'; congruence]).
    all: fold (add_calls [SysReadDir path] w).
    all: eapply walk_post_of_loop; [exact Hle|exact Hp|].
    all: apply forEach_post; intros Hlt p w0.
    - lia.
    - apply IH; lia.
Qed.

  (** C2. A walk started at depth 0 with maximum depth [N >= 0] reads
      exactly the directories at levels 0 to [N] below the root and runs
      [processFile] on exactly the files with a supported extension in
      those directories: these are the paths about which a report or an
      error is printed, and the paths on which [processFile] makes its
      first system call, the [open] for the original checksum (made
      when the extension of the whole path is supported).  With [N = 0]
      the root is the only directory read and only its own file entries
      are processed.  Each call follows the source's recursion, and
      each turn of the loop its body: a sub-directory entry is entered
      exactly when [currentDepth < maxDepth], at depth
      [currentDepth + 1]; a file entry with a supported extension is
      handed to [processFile]; any other entry is passed over. *)
Theorem walk_depth_bound (root : string) (N : Z) (w : world) :
    0 <= N ->
    exists cs os es,
      grows w (snd (processDirectory root 0 N w)) cs os es /\
      (forall d, SysReadDir d ∈ cs <->
                 exists k : nat, Z.of_nat k <= N /\ dir_at (fs w) root k d) /\
      (forall p, reported p os es <->
                 exists (k : nat) (d : string),
                   Z.of_nat k <= N /\ dir_at (fs w) root k d /\ eligible_in (fs w) d p) /\
      (forall p, SysOpen p ∈ cs <->
                 (exists (k : nat) (d : string),
                    Z.of_nat k <= N /\ dir_at (fs w) root k d /\ eligible_in (fs w) d p) /\
                 map_index supportedExtensions (ToLower (Ext p)) = true) /\
      (N = 0 ->
       (forall d, SysReadDir d ∈ cs -> d = root) /\
       (forall p, reported p os es \/ SysOpen p ∈ cs -> eligible_in (fs w) root p)) /\
      (forall path cur w0,
         processDirectory path cur N w0 =
         (if cur >? N then ret tt
          else
            entries ← wrapErr "failed to read directory" (os_ReadDir path);
            forEach entries (processEntry processDirectory path cur N)) w0) /\
      (forall recurse path cur e w0,
         processEntry recurse path cur N e w0 =
         (if IsDir e then
            if cur <? N then
              r ← catch (recurse (filepath_Join path (Name e)) (cur + 1) N);
              match r with
              | Err err =>
                  Fprintf_stderr (ErrProcessingDirectory (filepath_Join path (Name e)) err)
              | Ok _ => ret tt
              end
            else ret tt
          else if map_index supportedExtensions (ToLower (Ext (Name e))) then
            r ← catch (processFile (filepath_Join path (Name e)));
            match r with
            | Err err => Fprintf_stderr (ErrProcessingFile (filepath_Join path (Name e)) err)
            | Ok _ => ret tt
            end
          else ret tt) w0).
Proof.
    intros HN.
    destruct (processDirectory_post root 0 N w HN)
      as (cs & os & es & Hg & Hdirs & Hfiles & Hopen).
    exists cs, os, es. split; [exact Hg|]. split; [exact Hdirs|]. split; [exact Hfiles|].
    split; [exact Hopen|]. split; [|split].
    - intros ->.
      assert (Hroot : forall p, within_bound (fs w) root 0 0 p -> eligible_in (fs w) root p).
      { intros p (k & d & Hk & Hat & Hel).
        assert (k = 0%nat) as -> by lia. by inversion Hat; subst. }
      split.
      + intros d Hin. apply Hdirs in Hin as (k & Hk & Hat).
        assert (k = 0%nat) as -> by lia. by inversion Hat.
      + intros p [Hin|Hin]; [apply Hfiles in Hin|apply Hopen in Hin as [Hin _]];
          by apply Hroot.
    - intros path cur w0. apply processDirectory_unfold.
    - intros recurse path cur e w0. unfold processEntry.
      destruct (IsDir e), (cur <? N); reflexivity.
Qed.

  (** C7. The walk of a readable directory within the depth bound
      returns no error and runs the loop body on every entry, each from
      the state its predecessors left, whatever their outcome.  The body
      itself never fails: an error of [processFile] or of a nested walk
      is printed on standard error, with the path, and an entry with an
      unsupported extension changes nothing at all. *)
Theorem walk_continues_after_failures (path : string) (cur max : Z) (w : world)
      (entries : list DirEntry) :
    cur <= max ->
    fs w !! path = Some (NDir (Some entries)) ->
    fst (processDirectory path cur max w) = Ok tt /\
    snd (processDirectory path cur max w)
    = snd (forEach entries (processEntry processDirectory path cur max)
             (add_calls [SysReadDir path] w)) /\
    (forall l1 e l2 w0,
       entries = l1 ++ e :: l2 ->
       snd (forEach entries (processEntry processDirectory path cur max) w0)
       = snd (forEach l2 (processEntry processDirectory path cur max)
                (snd (processEntry processDirectory path cur max e
                        (snd (forEach l1 (processEntry processDirectory path cur max) w0)))))) /\
    (forall e w0, fst (processEntry processDirectory path cur max e w0) = Ok tt) /\
    (forall e w0,
       IsDir e = false ->
       map_index supportedExtensions (ToLower (Ext (Name e))) = true ->
       snd (processEntry processDirectory path cur max e w0)
       = match processFile (filepath_Join path (Name e)) w0 with
         | (Ok _, w1) => w1
         | (Err err, w1) =>
             World (fs w1) (recursiveDepth w1) (verbose w1) (calls w1) (stdout w1)
                   (stderr w1 ++ [ErrProcessingFile (filepath_Join path (Name e)) err])
         end) /\
    (forall e w0,
       IsDir e = false ->
       map_index supportedExtensions (ToLower (Ext (Name e))) = false ->
       processEntry processDirectory path cur max e w0 = (Ok tt, w0)) /\
    (forall e w0,
       IsDir e = true -> cur < max ->
       snd (processEntry processDirectory path cur max e w0)
       = match processDirectory (filepath_Join path (Name e)) (cur + 1) max w0 with
         | (Ok _, w1) => w1
         | (Err err, w1) =>
             World (fs w1) (recursiveDepth w1) (verbose w1) (calls w1) (stdout w1)
                   (stderr w1 ++ [ErrProcessingDirectory (filepath_Join path (Name e)) err])
         end).
Proof.
    intros Hle Hp.
    assert (Hrun : processDirectory path cur max w =
                   forEach entries (processEntry processDirectory path cur max)
                     (add_calls [SysReadDir path] w)).
    { rewrite processDirectory_unfold.
      destruct (Z.gtb_spec cur max) as [Hgt|_]; [lia|].
      io_unfold. unfold os_ReadDir. io_unfold. cbn [fs]. rewrite Hp. reflexivity. }
    split; [|split; [|split; [|split; [|split; [|split]]]]].
    - rewrite Hrun. apply forEach_Ok. intros e w0. apply processEntry_Ok.
    - by rewrite Hrun.
    - intros l1 e l2 w0 ->.
      rewrite forEach_app by (intros; apply processEntry_Ok).
      cbn [forEach]. io_unfold.
      pose proof (processEntry_Ok processDirectory path cur max e
                    (snd (forEach l1 (processEntry processDirectory path cur max) w0))) as Hok.
      destruct (processEntry processDirectory path cur max e _) as [r w1].
      cbn [fst snd] in *. by subst r.
    - intros e w0. apply processEntry_Ok.
    - intros e w0 Hd Hs. unfold processEntry. rewrite Hd, Hs. cbn [andb negb]. io_unfold.
      destruct (processFile (filepath_Join path (Name e)) w0) as [[[]|err] w1]; reflexivity.
    - intros e w0 Hd Hs. unfold processEntry. rewrite Hd, Hs. reflexivity.
    - intros e w0 Hd Hlt. unfold processEntry. rewrite Hd. cbn [andb].
      destruct (Z.ltb_spec cur max) as [_|Hge]; [|lia]. io_unfold.
      destruct (processDirectory (filepath_Join path (Name e)) (cur + 1) max w0)
        as [[[]|err] w1]; reflexivity.
Qed.

End WalkTheorems.

(** ** The program on concrete files *)

(** A walk of depth 0: the corrupt [b.jpg] is reported and [c.png] is
    still processed; [notes.txt] is skipped and [sub] is not entered. *)
Example walk_depth_0 :
  let r := processDirectory (golib := Demo.lib) "d" 0 0 (Demo.start 0 false) in
  fst r = Ok tt /\
  List.filter (fun c => match c with SysReadDir _ => true | _ => false end) (calls (snd r))
  = [SysReadDir "d"] /\
  stdout (snd r) = [OutProcessedMark "d/a.jpg" true; OutProcessedMark "d/c.png" true] /\
  stderr (snd r)
  = [ErrProcessingFile "d/b.jpg" "failed to decode image: image: unknown format"].
Proof. vm_compute. repeat split; reflexivity. Qed.

(** A walk of depth 1 enters [sub] but not [sub/deep]. *)
Example walk_depth_1 :
  let r := processDirectory (golib := Demo.lib) "d" 0 1 (Demo.start 1 false) in
  fst r = Ok tt /\
  List.filter (fun c => match c with SysReadDir _ => true | _ => false end) (calls (snd r))
  = [SysReadDir "d"; SysReadDir "d/sub"] /\
  stdout (snd r) = [OutProcessedMark "d/a.jpg" true; OutProcessedMark "d/c.png" true;
                    OutProcessedMark "d/sub/e.PNG" true].
Proof. vm_compute. repeat split; reflexivity. Qed.

(** A PNG payload under a [.webp] name is decoded, the file is
    truncated, and [imaging.Save] then refuses the format: the file is
    left empty. *)
Example webp_is_emptied :
  let r := processFile (golib := Demo.lib) "w.webp" (Demo.start 0 false) in
  fst r = Err "failed to save image: imaging: unsupported image format" /\
  fs (snd r) !! "w.webp"%string = Some (Demo.plain []).
Proof. vm_compute. split; reflexivity. Qed.

(** The whole program on a single unsupported file: exit status 1, one
    line on standard error, no file touched. *)
Example run_unsupported :
  Run (golib := Demo.lib) "d/notes.txt" (Demo.start 0 false)
  = (1, World Demo.tree 0 false [SysStat "d/notes.txt"] []
          [ErrError "unsupported file extension: .txt"]).
Proof. vm_compute. reflexivity. Qed.

(** A directory that can be listed is opened and stat'ed like a file:
    the PNG estimator maps the size the system reports for it, the JPEG
    estimator finds nothing to decode, and the checksum fails when it
    reads. *)
Example estimates_of_a_directory :
  fst (estimatePngCompressionLevel (golib := Demo.lib) "d" (Demo.start 0 false))
  = Ok NoCompression /\
  fst (estimateJpegQuality (golib := Demo.lib) "d" (Demo.start 0 false)) = Ok 75 /\
  calculateFileChecksum "d" (Demo.start 0 false)
  = (Err "read d: is a directory", World Demo.tree 0 false [SysOpen "d"] [] []).
Proof. vm_compute. repeat split; reflexivity. Qed.

(** C1, as the specification states it, fails: a PNG file of 8 bytes is
    re-encoded with the level the estimator returned for it,
    [NoCompression], not with [BestCompression]. *)
Lemma png_level_counterexample :
  let r := processFile (golib := Demo.lib) "d/c.png" (Demo.start 0 false) in
  ToLower (golib := Demo.lib) (Ext "d/c.png") = ".png"%string /\
  fst r = Ok tt /\
  calls (snd r)
  = [SysOpen "d/c.png"; SysOpen "d/c.png"; SysFstat "d/c.png"; SysOpen "d/c.png";
     SysCreate "d/c.png"; LibPngEncode NoCompression; SysOpen "d/c.png"] /\
  fst (estimatePngCompressionLevel (golib := Demo.lib) "d/c.png" (Demo.start 0 false)) = Ok NoCompression /\
  ~ (forall l, LibPngEncode l ∈ calls (snd r) -> l = BestCompression).
Proof.
  cbv zeta. split; [vm_compute; reflexivity|]. split; [vm_compute; reflexivity|].
  split; [vm_compute; reflexivity|]. split; [vm_compute; reflexivity|].
  intros Hall. specialize (Hall NoCompression).
  assert (Hin : LibPngEncode NoCompression ∈
                calls (snd (processFile (golib := Demo.lib) "d/c.png" (Demo.start 0 false)))).
  { vm_compute. repeat (first [apply list_elem_of_here|apply list_elem_of_further]). }
  apply Hall in Hin. discriminate.
Qed.

(** ** The theorems at concrete inputs *)

Lemma png_level_is_estimate_witness :
  ToLower (golib := Demo.lib) (Ext "d/c.png") = ".png"%string /\
  exists (estimate : CompressionLevel) (more : list call),
    fst (estimatePngCompressionLevel (golib := Demo.lib) "d/c.png" (Demo.start 0 false)) = Ok estimate /\
    calls (snd (processFile (golib := Demo.lib) "d/c.png" (Demo.start 0 false)))
    = calls (Demo.start 0 false) ++ more /\
    (forall l, LibPngEncode l ∈ more -> l = estimate) /\
    (fst (processFile (golib := Demo.lib) "d/c.png" (Demo.start 0 false)) = Ok tt ->
     LibPngEncode estimate ∈ more) /\
    (estimate = BestCompression <->
     (exists f, fs (Demo.start 0 false) !! "d/c.png"%string = Some (NFile f) /\
                f_open f = true /\ f_stat f = true /\
                1024 * 1024 <= Z.of_nat (length (data f))) \/
     (exists entries, fs (Demo.start 0 false) !! "d/c.png"%string
                      = Some (NDir (Some entries)) /\
                      1024 * 1024 <= dir_Size (GoLib := Demo.lib) "d/c.png")).
Proof.
  split; [vm_compute; reflexivity|].
  apply (png_level_is_estimate (golib := Demo.lib) "d/c.png" (Demo.start 0 false)).
  vm_compute. reflexivity.
Defined.

Lemma walk_depth_bound_witness :
  0 <= 1 /\
  exists cs os es,
    grows (Demo.start 1 false)
      (snd (processDirectory (golib := Demo.lib) "d" 0 1 (Demo.start 1 false))) cs os es /\
    (forall d, SysReadDir d ∈ cs <->
               exists k : nat, Z.of_nat k <= 1 /\
                 dir_at (golib := Demo.lib) (fs (Demo.start 1 false)) "d" k d).
Proof.
  split; [lia|].
  destruct (walk_depth_bound (golib := Demo.lib) "d" 1 (Demo.start 1 false))
    as (cs & os & es & Hg & Hdirs & _); [lia|].
  exists cs, os, es. split; [exact Hg|exact Hdirs].
Defined.

Lemma jpeg_quality_is_adjusted_estimate_witness :
  is_jpeg_ext (ToLower (golib := Demo.lib) (Ext "d/a.jpg")) = true /\
  exists (estimate : Z) (more : list call),
    fst (estimateJpegQuality (golib := Demo.lib) "d/a.jpg" (Demo.start 0 false)) = Ok estimate /\
    calls (snd (processFile (golib := Demo.lib) "d/a.jpg" (Demo.start 0 false)))
    = calls (Demo.start 0 false) ++ more /\
    (forall q, LibJpegEncode q ∈ more ->
       q = (if estimate >? 90 then estimate - 1 else estimate + 1) /\ q <> estimate) /\
    (fst (processFile (golib := Demo.lib) "d/a.jpg" (Demo.start 0 false)) = Ok tt ->
       LibJpegEncode (if estimate >? 90 then estimate - 1 else estimate + 1) ∈ more).
Proof.
  split; [vm_compute; reflexivity|].
  apply (jpeg_quality_is_adjusted_estimate (golib := Demo.lib) "d/a.jpg" (Demo.start 0 false)).
  vm_compute. reflexivity.
Defined.

Lemma processFile_unsupported_extension_witness :
  (ToLower (golib := Demo.lib) (Ext "d/notes.txt")
     ∉ [".jpg"; ".jpeg"; ".png"; ".gif"; ".webp"]%string) /\
  processFile (golib := Demo.lib) "d/notes.txt" (Demo.start 0 false)
  = (Err ("unsupported file extension: "
          ++ ToLower (golib := Demo.lib) (Ext "d/notes.txt"))%string,
     Demo.start 0 false).
Proof.
  assert (Hext : ToLower (golib := Demo.lib) (Ext "d/notes.txt")
                   ∉ [".jpg"; ".jpeg"; ".png"; ".gif"; ".webp"]%string).
  { apply (bool_decide_eq_false_1 _). vm_compute. reflexivity. }
  split; [exact Hext|].
  exact (processFile_unsupported_extension (golib := Demo.lib) "d/notes.txt"
           (Demo.start 0 false) Hext).
Defined.

Lemma walk_continues_after_failures_witness :
  0 <= 0 /\
  fs (Demo.start 0 false) !! "d"%string
  = Some (NDir (Some [Entry "a.jpg" false; Entry "b.jpg" false; Entry "c.png" false;
                      Entry "notes.txt" false; Entry "sub" true])) /\
  fst (processDirectory (golib := Demo.lib) "d" 0 0 (Demo.start 0 false)) = Ok tt.
Proof.
  assert (Hd : fs (Demo.start 0 false) !! "d"%string
               = Some (NDir (Some [Entry "a.jpg" false; Entry "b.jpg" false;
                                   Entry "c.png" false; Entry "notes.txt" false;
                                   Entry "sub" true]))).
  { vm_compute. reflexivity. }
  split; [lia|]. split; [exact Hd|].
  pose proof (walk_continues_after_failures (golib := Demo.lib) "d" 0 0 (Demo.start 0 false))
    as Hwalk.
  specialize (Hwalk _ (Z.le_refl 0) Hd). exact (proj1 Hwalk).
Defined.

Lemma checksum_deterministic_witness :
  fs (Demo.start 0 false) !! "d/a.jpg"%string = Some (Demo.plain Demo.jpg_bytes) /\
  exists digest : string,
    fst (calculateFileChecksum "d/a.jpg" (Demo.start 0 false)) = Ok digest /\
    String.length digest = 32%nat /\ Hex.all_hex digest = true.
Proof.
  split; [vm_compute; reflexivity|].
  destruct (checksum_deterministic (golib := Demo.lib) "d/a.jpg" (Demo.start 0 false)
              (File Demo.jpg_bytes true true true true true true))
    as (digest & Hsum & Hlen & Hhex & _);
    [vm_compute; reflexivity|reflexivity|reflexivity|].
  exists digest. split; [exact Hsum|]. split; [exact Hlen|exact Hhex].
Defined.

Lemma save_failure_destroys_file_witness :
  let w := Demo.start 0 false in
  let f := File Demo.jpg_bytes true true true true true true in
  let src := Demo.Img "jpeg" 2 2 [x10; x20; x30; x40] in
  let r := processFile (golib := Demo.failing_lib) "d/a.jpg" w in
  werr (encoder_result (golib := Demo.failing_lib) "d/a.jpg" w src)
  = Some "write: no space left on device"%string /\
  fst r = Err "failed to save image: write: no space left on device" /\
  fs (snd r) !! "d/a.jpg"%string
  = Some (NFile (with_data f
            (written (encoder_result (golib := Demo.failing_lib) "d/a.jpg" w src)))) /\
  SysCreate "d/a.jpg" ∈ calls (snd r).
Proof.
  cbv zeta. split; [vm_compute; reflexivity|].
  apply (save_failure_destroys_file (golib := Demo.failing_lib) "d/a.jpg" (Demo.start 0 false)
           (File Demo.jpg_bytes true true true true true true)
           (Demo.Img "jpeg" 2 2 [x10; x20; x30; x40]) "jpeg"
           "write: no space left on device");
    vm_compute; reflexivity.
Defined.

(** * Further properties of the program *)

(** ** What [processFile] does to the file system *)

Section FileEffects.

Context {golib : GoLib}.

  (** X1. When [processFile] succeeds, the path named a file that could
      be opened, read, decoded and created again, the encoder reported
      no error, and the file at the path now holds exactly what the
      encoder wrote for the brightened image. *)
Theorem processFile_success_rewrites_file (path : string) (w : world) :
    fst (processFile path w) = Ok tt ->
    exists (f : file) (src : Image) (format : string),
      fs w !! path = Some (NFile f) /\
      f_open f = true /\ f_read f = true /\ f_create f = true /\
      image_Decode (data f) = inr (src, format) /\
      werr (encoder_result path w src) = None /\
      exists f' : file,
        fs (snd (processFile path w)) !! path = Some (NFile f') /\
        data f' = written (encoder_result path w src).
Proof.
    intros Hok.
    destruct (processFile_run path w) as
      [Hs|e Hs Hc|f e Hs Hf Ho Hr Hd|f src fmt Hs Hf Ho Hr Hd Hcr
      |f src fmt e Hs Hf Ho Hr Hd Hcr Hw|f src fmt e Hs Hf Ho Hr Hd Hcr Hw Hsum
      |f src fmt Hs Hf Ho Hr Hd Hcr Hw Hro Hrr];
      try discriminate.
    exists f, src, fmt. repeat (split; [assumption|]).
    exists (with_data f (written (encoder_result path w src))).
    split; [apply lookup_insert_eq|reflexivity].
Qed.

  (** X2. Whatever error [processFile] returns before it writes (every
      error but the save error and the error of the new checksum, which
      come after the file has been created again), the file system is
      exactly as it was: a file that cannot be read, decoded or created
      is not modified. *)
Theorem processFile_early_error_keeps_files (path : string) (w : world) (e : string) :
    fst (processFile path w) = Err e ->
    (forall cause, e <> Errorf "failed to save image" cause) ->
    (forall cause, e <> Errorf "failed to calculate new checksum" cause) ->
    fs (snd (processFile path w)) = fs w.
Proof.
    intros Herr Hsave Hnew.
    destruct (processFile_run path w) as
      [Hs|e' Hs Hc|f e' Hs Hf Ho Hr Hd|f src fmt Hs Hf Ho Hr Hd Hcr
      |f src fmt e' Hs Hf Ho Hr Hd Hcr Hw|f src fmt e' Hs Hf Ho Hr Hd Hcr Hw Hsum
      |f src fmt Hs Hf Ho Hr Hd Hcr Hw Hro Hrr];
      try reflexivity; try discriminate.
    - injection Herr as <-. by edestruct Hsave.
    - injection Herr as <-. by edestruct Hnew.
Qed.

  (** X22. The error of the new checksum comes too late for the file:
      when [processFile] fails with it, the encoder had succeeded and
      the file already holds what the encoder wrote. *)
Theorem new_checksum_failure_keeps_rewrite (path : string) (w : world) (cause : string) :
    fst (processFile path w) = Err (Errorf "failed to calculate new checksum" cause) ->
    exists (f : file) (src : Image) (format : string) (f' : file),
      fs w !! path = Some (NFile f) /\
      image_Decode (data f) = inr (src, format) /\
      werr (encoder_result path w src) = None /\
      fs (snd (processFile path w)) !! path = Some (NFile f') /\
      data f' = written (encoder_result path w src).
Proof.
    intros Herr.
    destruct (processFile_run path w) as
      [Hs|e' Hs Hc|f e' Hs Hf Ho Hr Hd|f src fmt Hs Hf Ho Hr Hd Hcr
      |f src fmt e' Hs Hf Ho Hr Hd Hcr Hw|f src fmt e' Hs Hf Ho Hr Hd Hcr Hw Hsum
      |f src fmt Hs Hf Ho Hr Hd Hcr Hw Hro Hrr];
      try discriminate.
    exists f, src, fmt, (with_data f (written (encoder_result path w src))).
    split; [exact Hf|]. split; [exact Hd|]. split; [exact Hw|].
    split; [apply lookup_insert_eq|reflexivity].
Qed.

End FileEffects.

(** ** The program as a whole: [Run] *)

Section RunProperties.

Context {golib : GoLib}.

Lemma processDirectory_beyond_bound path cur max w :
    max < cur -> processDirectory path cur max w = (Ok tt, w).
Proof.
    intros Hlt. rewrite processDirectory_unfold.
    destruct (Z.gtb_spec cur max) as [_|Hle]; [reflexivity|lia].
Qed.

Lemma processDirectory_grows path cur max w :
    exists cs os es, grows w (snd (processDirectory path cur max w)) cs os es.
Proof.
    destruct (Z.le_gt_cases cur max) as [Hle|Hgt].
    - destruct (processDirectory_post path cur max w Hle) as (cs & os & es & Hg & _). eauto.
    - rewrite processDirectory_beyond_bound by lia. exists [], [], []. apply grows_refl.
Qed.

  (** X5. With a negative [--recursive] value, running the program on a
      directory does nothing but stat it: no directory is read, no file
      is opened, nothing is printed, and the exit status is 0. *)
Theorem Run_negative_depth (path : string) (w : world) (l : option (list DirEntry)) :
    fs w !! path = Some (NDir l) ->
    recursiveDepth w < 0 ->
    Run path w = (0, add_calls [SysStat path] w).
Proof.
    intros Hp Hneg. unfold Run, os_Stat. io_unfold. cbn [fs]. rewrite Hp.
    cbn [recursiveDepth]. rewrite processDirectory_beyond_bound by (cbn; lia). reflexivity.
Qed.

  (** X6. On a directory whose listing can be read the exit status is 0,
      whatever happens to the entries: failures inside the walk never
      reach the exit status. *)
Theorem Run_readable_directory_exits_0 (path : string) (w : world)
      (entries : list DirEntry) :
    fs w !! path = Some (NDir (Some entries)) ->
    fst (Run path w) = 0.
Proof.
    intros Hp. unfold Run, os_Stat. io_unfold. cbn [fs]. rewrite Hp.
    cbn [recursiveDepth].
    match goal with |- context [processDirectory path 0 ?N ?w1] =>
      assert (Hok : fst (processDirectory path 0 N w1) = Ok tt) end.
    { rewrite processDirectory_unfold. destruct (0 >? recursiveDepth w); [reflexivity|].
      io_unfold. unfold os_ReadDir. io_unfold. cbn [fs]. rewrite Hp.
      apply forEach_Ok. intros e w0. apply processEntry_Ok. }
    destruct (processDirectory path 0 (recursiveDepth w) _) as [[[]|err] w2];
      [reflexivity|discriminate].
Qed.

  (** X7. On a directory whose listing cannot be read (and a depth of 0
      or more) the program reads nothing else, prints one line on
      standard error and exits with status 1. *)
Theorem Run_unreadable_directory (path : string) (w : world) :
    fs w !! path = Some (NDir None) ->
    0 <= recursiveDepth w ->
    Run path w =
    (1, World (fs w) (recursiveDepth w) (verbose w)
              (calls w ++ [SysStat path; SysReadDir path]) (stdout w)
              (stderr w ++ [ErrError (Errorf "failed to read directory"
                                        (PathError "open" path "permission denied"))])).
Proof.
    intros Hp Hdepth. unfold Run, os_Stat. io_unfold. cbn [fs]. rewrite Hp.
    cbn [recursiveDepth]. rewrite processDirectory_unfold.
    destruct (Z.gtb_spec 0 (recursiveDepth w)) as [Hgt|_]; [lia|].
    io_unfold. unfold os_ReadDir. io_unfold. cbn [fs]. rewrite Hp.
    cbn. rewrite <- app_assoc. reflexivity.
Qed.

  (** X8. On a single file, exit status 0 means the file was rewritten:
      it now holds what the encoder wrote for the brightened image, and
      one report about it was printed; any other outcome gives status 1
      and one line on standard error. *)
Theorem Run_single_file (path : string) (w : world) (f : file) :
    fs w !! path = Some (NFile f) ->
    (fst (Run path w) = 0 /\
     exists (src : Image) (format : string),
       image_Decode (data f) = inr (src, format) /\
       fs (snd (Run path w))
       = <[path := NFile (with_data f (written (encoder_result path w src)))]> (fs w) /\
       stderr (snd (Run path w)) = stderr w /\
       exists l, l ∈ stdout (snd (Run path w)) /\ line_path l = Some path) \/
    (fst (Run path w) = 1 /\
     exists err, stderr (snd (Run path w)) = stderr w ++ [ErrError err]).
Proof.
    intros Hp. unfold Run, os_Stat. io_unfold. cbn [fs]. rewrite Hp.
    destruct (f_stat f); [|right; split; [reflexivity|eauto]].
    set (w1 := World _ _ _ _ _ _).
    assert (Hfs : fs w1 = fs w) by reflexivity.
    assert (Hres : forall src, encoder_result path w1 src = encoder_result path w src)
      by reflexivity.
    pose proof (processFile_run path w1) as Hrun.
    destruct (processFile path w1) as [r w2]. cbn [fst snd] in Hrun.
    destruct Hrun as
      [Hs|e' Hs Hc|f' e' Hs Hf Ho Hr Hd|f' src fmt Hs Hf Ho Hr Hd Hcr
      |f' src fmt e' Hs Hf Ho Hr Hd Hcr Hw|f' src fmt e' Hs Hf Ho Hr Hd Hcr Hw Hsum
      |f' src fmt Hs Hf Ho Hr Hd Hcr Hw Hro Hrr];
      try (right; split; [reflexivity|eexists; reflexivity]).
    left. split; [reflexivity|]. cbn [snd].
    assert (f' = f) as -> by (rewrite Hfs in Hf; congruence).
    exists src, fmt. split; [exact Hd|]. split; [by rewrite Hres|].
    split; [reflexivity|].
    unfold after_encoding, report_lines. cbn [stdout].
    destruct (verbose w1).
    - exists (OutProcessed path). split; [|reflexivity].
      rewrite !elem_of_app, !elem_of_cons. tauto.
    - eexists (OutProcessedMark path _). split; [|reflexivity].
      rewrite !elem_of_app, !elem_of_cons. tauto.
Qed.

  (** X9. Whatever it is run on, the program only appends to its logs
      and outputs: it never changes the two flags, and never creates,
      removes or changes a directory. *)
Theorem Run_only_appends (path : string) (w : world) :
    exists cs os es, grows w (snd (Run path w)) cs os es.
Proof.
    unfold Run, os_Stat. io_unfold. cbn [fs].
    set (w1 := World _ _ _ (calls w ++ [SysStat path]) _ _).
    assert (Hg1 : grows w w1 [SysStat path] [] []) by apply (grows_add_calls w).
    assert (Hfin : forall r w2 cs os es,
              grows w1 w2 cs os es ->
              exists cs' os' es',
                grows w (snd (match r : result unit with
                              | Err err => (1, snd (Fprintf_stderr (ErrError err) w2))
                              | Ok _ => (0, w2)
                              end)) cs' os' es').
    { intros r w2 cs os es Hg2. destruct r as [[]|err]; cbn [snd].
      - eexists _, _, _. eapply grows_trans; eassumption.
      - eexists _, _, _. eapply grows_trans; [eapply grows_trans; eassumption|].
        apply grows_stderr. }
    destruct (fs w !! path) as [[f|l]|].
    - destruct (f_stat f).
      + destruct (processFile_grows path w1) as (cs & os & Hg & _).
        destruct (processFile path w1) as [r w2]. cbn [snd] in Hg.
        destruct (Hfin r w2 _ _ _ Hg) as (cs' & os' & es' & Hg').
        exists cs', os', es'. by destruct r as [[]|err].
      + eexists _, _, _. eapply grows_trans; [exact Hg1|apply grows_stderr].
    - destruct (processDirectory_grows path 0 (recursiveDepth w1) w1) as (cs & os & es & Hg).
      destruct (processDirectory path 0 (recursiveDepth w1) w1) as [r w2]. cbn [snd] in Hg.
      destruct (Hfin r w2 _ _ _ Hg) as (cs' & os' & es' & Hg').
      exists cs', os', es'. by destruct r as [[]|err].
    - eexists _, _, _. eapply grows_trans; [exact Hg1|apply grows_stderr].
Qed.

End RunProperties.

(** ** The estimators and the checksum, again *)

Lemma levelOfSize_monotone (s1 s2 : Z) :
  s1 <= s2 -> zlib_level (levelOfSize s1) <= zlib_level (levelOfSize s2).
Proof.
  intros Hle. unfold levelOfSize.
  destruct (Z.ltb_spec s1 (10 * 1024)), (Z.ltb_spec s1 (100 * 1024)),
    (Z.ltb_spec s1 (1024 * 1024)), (Z.ltb_spec s2 (10 * 1024)),
    (Z.ltb_spec s2 (100 * 1024)), (Z.ltb_spec s2 (1024 * 1024)); cbn; lia.
Qed.

(** Converting a size to [float64] gives a number that is not negative. *)
Lemma of_int_nonneg (n : Z) :
  0 <= n ->
  Float64.of_int n = S754_zero false \/ Float64.of_int n = S754_infinity false \/
  Float64.of_int n = S754_nan \/ exists m e, Float64.of_int n = S754_finite false m e.
Proof.
  intros Hn. unfold Float64.of_int, binary_normalize.
  destruct n as [|p|p]; [by left| |lia].
  unfold binary_round, binary_round_aux.
  repeat case_match; eauto 6.
Qed.

Lemma quality_of_zero_pixels (size : Z) :
  0 <= size ->
  qualityOfBytesPerPixel (Float64.div (Float64.of_int size) (Float64.of_int 0)) = 95.
Proof.
  intros Hn.
  destruct (of_int_nonneg size Hn) as [->|[->|[->|(m & e & ->)]]]; reflexivity.
Qed.

Section EstimatorProperties.

Context {golib : GoLib}.

  (** X10. Estimating and checksumming only read: the two estimators and
      [calculateFileChecksum] leave every file, the flags and both
      output streams as they were, and call nothing but [open] and
      [fstat] on the path they were given. *)
Theorem estimators_only_read (path : string) (w : world) :
    (exists cs, snd (estimateJpegQuality path w) = add_calls cs w /\
                forall c, c ∈ cs -> c = SysOpen path \/ c = SysFstat path) /\
    (exists cs, snd (estimatePngCompressionLevel path w) = add_calls cs w /\
                forall c, c ∈ cs -> c = SysOpen path \/ c = SysFstat path) /\
    snd (calculateFileChecksum path w) = add_calls [SysOpen path] w.
Proof.
    assert (Hcs : forall c, c ∈ estimate_calls (fs w) path ->
                            c = SysOpen path \/ c = SysFstat path).
    { intros c. unfold estimate_calls. rewrite elem_of_cons.
      intros [->|Hin]; [by left|].
      destruct (opens _ _); [|by apply elem_of_nil in Hin].
      apply list_elem_of_singleton in Hin as ->. by right. }
    rewrite estimateJpegQuality_eq, estimatePngCompressionLevel_eq,
      calculateFileChecksum_eq. cbn [snd].
    split; [exists (estimate_calls (fs w) path); by split|].
    split; [exists (estimate_calls (fs w) path); by split|reflexivity].
Qed.

  (** X11. The PNG estimate grows with the file: of two files that can
      be opened and stat'ed, the one with at least as many bytes gets at
      least as high a zlib level. *)
Theorem png_estimate_monotone (p1 p2 : string) (w1 w2 : world) (f1 f2 : file) :
    fs w1 !! p1 = Some (NFile f1) -> f_open f1 = true -> f_stat f1 = true ->
    fs w2 !! p2 = Some (NFile f2) -> f_open f2 = true -> f_stat f2 = true ->
    (length (data f1) <= length (data f2))%nat ->
    exists l1 l2,
      fst (estimatePngCompressionLevel p1 w1) = Ok l1 /\
      fst (estimatePngCompressionLevel p2 w2) = Ok l2 /\
      zlib_level l1 <= zlib_level l2.
Proof.
    intros Hf1 Ho1 Hs1 Hf2 Ho2 Hs2 Hlen.
    exists (pngLevelOf (fs w1) p1), (pngLevelOf (fs w2) p2).
    split; [apply estimatePngCompressionLevel_value|].
    split; [apply estimatePngCompressionLevel_value|].
    unfold pngLevelOf. rewrite Hf1, Ho1, Hs1, Hf2, Ho2, Hs2. cbn [andb].
    apply levelOfSize_monotone. lia.
Qed.

  (** X12. A JPEG that decodes to an image without pixels does not stop
      the estimator: the division by a zero pixel count gives an
      infinite (or undefined) ratio, no comparison of the table accepts
      it, and the estimate is 95. *)
Theorem jpeg_estimate_without_pixels (path : string) (w : world) (f : file) (img : Image) :
    fs w !! path = Some (NFile f) ->
    f_open f = true -> f_stat f = true -> f_read f = true ->
    image_Decode (data f) = inr (img, "jpeg"%string) ->
    Dx img = 0 \/ Dy img = 0 ->
    fst (estimateJpegQuality path w) = Ok 95.
Proof.
    intros Hf Ho Hs Hr Hd Hzero. rewrite estimateJpegQuality_value. f_equal.
    unfold jpegQualityOf, decodedAt. rewrite Hf, Ho, Hs, Hr, Hd. cbn [andb String.eqb].
    replace (String.eqb "jpeg" "jpeg") with true by reflexivity.
    unfold bytesPerPixelOf.
    replace (Dx img * Dy img) with 0 by (destruct Hzero as [-> | ->]; lia).
    change (int64_wrap 0) with 0. apply quality_of_zero_pixels. lia.
Qed.

End EstimatorProperties.

(** ** Extensions of joined paths *)

Lemma list_ascii_of_string_app (s1 s2 : string) :
  String.list_ascii_of_string (s1 ++ s2)
  = String.list_ascii_of_string s1 ++ String.list_ascii_of_string s2.
Proof.
  induction s1 as [|c s1 IH]; [reflexivity|].
  change (String.list_ascii_of_string (String c (s1 ++ s2))
          = c :: (String.list_ascii_of_string s1 ++ String.list_ascii_of_string s2)).
  cbn [String.list_ascii_of_string]. by rewrite IH.
Qed.

Lemma ext_scan_separator (xs ys : list ascii) (suffix : string) :
  ext_scan (xs ++ "/"%char :: ys) suffix = ext_scan xs suffix.
Proof.
  revert suffix. induction xs as [|c xs IH]; intros suffix; [reflexivity|].
  cbn [app ext_scan]. by rewrite IH.
Qed.

(** The extension of [dir/name] is the extension of [name]. *)
Lemma Ext_join (dir name : string) : Ext (dir ++ "/" ++ name) = Ext name.
Proof.
  unfold Ext. rewrite list_ascii_of_string_app.
  change (String.list_ascii_of_string ("/" ++ name))
    with ("/"%char :: String.list_ascii_of_string name).
  rewrite rev_app_distr. cbn [rev]. rewrite <- app_assoc. cbn [app].
  apply ext_scan_separator.
Qed.

Section FilterAgreement.

Context {golib : GoLib}.

  (** X13. The walk filters on the extension of the entry's name and
      [processFile] checks the extension of the joined path.  Provided
      [filepath.Join] keeps the extension of a name that a directory
      listing can return (one that is not empty, has no separator and
      is neither [.] nor [..]), the two checks agree on such an entry:
      a file the walk lets through is never refused as unsupported. *)
Theorem walk_filter_agrees_with_processFile (path : string) (e : DirEntry) (w : world) :
    (forall d n, entry_name n = true -> Ext (filepath_Join d n) = Ext n) ->
    entry_name (Name e) = true ->
    map_index supportedExtensions (ToLower (Ext (Name e))) = true ->
    forall ext : string,
      fst (processFile (filepath_Join path (Name e)) w)
      <> Err ("unsupported file extension: " ++ ext)%string.
Proof.
    intros Hjoin Hname Hs ext.
    destruct (processFile_run (filepath_Join path (Name e)) w) as
      [Hs'|e' Hs' Hc|f e' Hs' Hf Ho Hr Hd|f src fmt Hs' Hf Ho Hr Hd Hcr
      |f src fmt e' Hs' Hf Ho Hr Hd Hcr Hw|f src fmt e' Hs' Hf Ho Hr Hd Hcr Hw Hsum
      |f src fmt Hs' Hf Ho Hr Hd Hcr Hw Hro Hrr];
      try (cbn; discriminate).
    unfold extOf in Hs'. rewrite Hjoin in Hs' by exact Hname. congruence.
Qed.

End FilterAgreement.

(** ** Checksums as strings *)

Lemma hex_roundtrip (bs : list byte) :
  HexDecode.DecodeString (Hex.EncodeToString bs) = Some bs.
Proof.
  induction bs as [|b bs IH]; [reflexivity|].
  cbn [Hex.EncodeToString HexDecode.DecodeString]. rewrite IH.
  destruct b; reflexivity.
Qed.

Lemma hex_injective (bs bs' : list byte) :
  Hex.EncodeToString bs = Hex.EncodeToString bs' -> bs = bs'.
Proof.
  intros Heq. apply (f_equal HexDecode.DecodeString) in Heq.
  rewrite !hex_roundtrip in Heq. congruence.
Qed.

Section Mark.

Context {golib : GoLib}.

  (** X14. After a successful [processFile] the flag it prints (the mark
      of the short report, or the last line of the verbose one) is
      [false] exactly when the MD5 digests of the bytes before and after
      are the same 16 bytes: printing the digests in hexadecimal loses
      nothing. *)
Theorem mark_reflects_digests (path : string) (w : world) (f : file) :
    fst (processFile path w) = Ok tt ->
    fs w !! path = Some (NFile f) ->
    exists (f' : file) (os : list out_line),
      fs (snd (processFile path w)) !! path = Some (NFile f') /\
      stdout (snd (processFile path w)) = stdout w ++ os /\
      (exists b, OutProcessedMark path b ∈ os \/ OutChecksumChanged b ∈ os) /\
      (forall b, OutProcessedMark path b ∈ os \/ OutChecksumChanged b ∈ os ->
         (b = false <-> Md5.sum (data f) = Md5.sum (data f'))).
Proof.
    intros Hok Hp.
    destruct (processFile_run path w) as
      [Hs|e' Hs Hc|f0 e' Hs Hf Ho Hr Hd|f0 src fmt Hs Hf Ho Hr Hd Hcr
      |f0 src fmt e' Hs Hf Ho Hr Hd Hcr Hw|f0 src fmt e' Hs Hf Ho Hr Hd Hcr Hw Hsum
      |f0 src fmt Hs Hf Ho Hr Hd Hcr Hw Hro Hrr];
      try discriminate.
    assert (f0 = f) as -> by congruence.
    set (bs := written (encoder_result path w src)).
    set (d := Hex.EncodeToString (Md5.sum (data f))).
    set (d' := Hex.EncodeToString (Md5.sum bs)).
    exists (with_data f bs), (adjustment_lines path w ++ report_lines path w d d').
    split; [apply lookup_insert_eq|]. split; [reflexivity|].
    assert (Hflag : forall b,
              OutProcessedMark path b ∈ adjustment_lines path w ++ report_lines path w d d' \/
              OutChecksumChanged b ∈ adjustment_lines path w ++ report_lines path w d d' ->
              b = negb (String.eqb d d')).
    { intros b. rewrite !elem_of_app. unfold adjustment_lines, report_lines.
      destruct (_ && _), (verbose w);
        rewrite ?elem_of_cons, ?elem_of_nil; intros Hin; destruct_or?;
        congruence || contradiction. }
    split.
    - exists (negb (String.eqb d d')). unfold report_lines.
      destruct (verbose w); [right|left]; rewrite elem_of_app, !elem_of_cons; tauto.
    - intros b Hin. rewrite (Hflag b Hin), negb_false_iff, String.eqb_eq.
      cbn [with_data data]. subst d d'. split; [apply hex_injective|congruence].
Qed.

End Mark.

(** ** The npm wrapper and the build script *)

Lemma getPlatformName_windows (e : Wrapper.env) :
  Wrapper.os_platform e <> "windows"%string ->
  String.eqb (Wrapper.getPlatformName e) "windows" = String.eqb (Wrapper.os_platform e) "win32".
Proof.
  intros Hne. unfold Wrapper.getPlatformName, Wrapper.lookup_or_key, Wrapper.platforms.
  repeat (rewrite lookup_insert; case_decide;
          [match goal with H : _ = Wrapper.os_platform e |- _ => rewrite <- H end;
           reflexivity|]).
  rewrite lookup_empty.
  destruct (String.eqb_spec (Wrapper.os_platform e) "windows"); [contradiction|].
  destruct (String.eqb_spec (Wrapper.os_platform e) "win32"); congruence.
Qed.

Lemma plain_word_not_empty (s : string) :
  Build.plain_word s = true -> s <> ""%string.
Proof. intros Hp ->. discriminate. Qed.

(** X15. The wrapper looks first for the name under which the build
    script copies the binary to [npm/bin]: whenever the platform name
    the wrapper forms is a plain word for the shell and Node does not
    call the platform ["windows"] (it never does), the script's name
    for that platform and architecture is the wrapper's
    platform-specific name; and the five files the script produces are
    the names the wrapper forms on macOS, Linux and Windows for x64
    and arm64. *)
Theorem wrapper_name_matches_build (e : Wrapper.env) :
  Wrapper.os_platform e <> "windows"%string ->
  Build.plain_word (Wrapper.getPlatformName e) = true ->
  Build.NPM_BINARY (Wrapper.getPlatformName e) (Wrapper.getArchName e)
  = Some (Wrapper.platformSpecificBinary e) /\
  Build.npm_binaries
  = List.map (fun '(platform, arch) =>
                Some (Wrapper.platformSpecificBinary
                        (Wrapper.Env platform arch (Wrapper.dirname e) (Wrapper.argv e)
                           (Wrapper.path_join e) (Wrapper.accessSync_X_OK e)
                           (Wrapper.execFileSync e))))
       [("darwin", "x64"); ("darwin", "arm64"); ("linux", "x64"); ("linux", "arm64");
        ("win32", "x64")]%string.
Proof.
  intros Hne Hplain. split; [|reflexivity].
  unfold Build.NPM_BINARY, Build.is_windows. rewrite Hplain.
  unfold Wrapper.platformSpecificBinary, Build.BINARY, Wrapper.extension.
  rewrite (getPlatformName_windows e Hne).
  reflexivity.
Qed.

Lemma findBinary_spec (e : Wrapper.env) (locations : list string) (b : string) :
  Wrapper.findBinary e locations None = Some b <->
  exists i : nat,
    locations !! i = Some b /\ Wrapper.accessSync_X_OK e b = true /\
    forall (j : nat) l, (j < i)%nat -> locations !! j = Some l ->
                        Wrapper.accessSync_X_OK e l = false.
Proof.
  induction locations as [|l locations IH]; cbn [Wrapper.findBinary].
  - split; [discriminate|]. intros (i & Hi & _). by rewrite lookup_nil in Hi.
  - destruct (Wrapper.accessSync_X_OK e l) eqn:Hl.
    + split.
      * intros [= <-]. exists 0%nat. split; [reflexivity|]. split; [exact Hl|]. intros; lia.
      * intros ([|i] & Hi & Hb & Hfirst); [by injection Hi as ->|].
        specialize (Hfirst 0%nat l ltac:(lia) eq_refl). congruence.
    + rewrite IH. split.
      * intros (i & Hi & Hb & Hfirst). exists (S i). split; [exact Hi|].
        split; [exact Hb|]. intros [|j] l' Hj Hl'.
        -- by injection Hl' as <-.
        -- apply (Hfirst j); [lia|exact Hl'].
      * intros ([|i] & Hi & Hb & Hfirst).
        -- injection Hi as ->. congruence.
        -- exists i. split; [exact Hi|]. split; [exact Hb|].
           intros j l' Hj Hl'. apply (Hfirst (S j)); [lia|exact Hl'].
Qed.

Lemma findBinary_none (e : Wrapper.env) (locations : list string) :
  Wrapper.findBinary e locations None = None <->
  forall l, l ∈ locations -> Wrapper.accessSync_X_OK e l = false.
Proof.
  induction locations as [|l locations IH]; cbn [Wrapper.findBinary].
  - split; [|reflexivity]. intros _ l Hin. by apply elem_of_nil in Hin.
  - destruct (Wrapper.accessSync_X_OK e l) eqn:Hl.
    + split; [discriminate|]. intros Hall.
      specialize (Hall l (list_elem_of_here _ _)). congruence.
    + rewrite IH. split.
      * intros Hall l' Hin. apply elem_of_cons in Hin as [->|Hin]; [exact Hl|by apply Hall].
      * intros Hall l' Hin. apply Hall. by apply list_elem_of_further.
Qed.

(** X16. The wrapper runs a binary exactly when one of its four
    locations can be accessed: it runs the first such location, in the
    order of the list, with the arguments after the script name; when
    none can be accessed it runs nothing, prints the error and exits
    with status 1 (a binary that is only on the search path is not
    found). *)
Theorem wrapper_runs_first_accessible (e : Wrapper.env) :
  (forall b args,
     Wrapper.executed (Wrapper.main e) = Some (b, args) <->
     args = drop 2 (Wrapper.argv e) /\ b <> ""%string /\
     exists i : nat,
       Wrapper.binLocations e !! i = Some b /\ Wrapper.accessSync_X_OK e b = true /\
       forall (j : nat) l, (j < i)%nat -> Wrapper.binLocations e !! j = Some l ->
                           Wrapper.accessSync_X_OK e l = false) /\
  ((forall l, l ∈ Wrapper.binLocations e -> Wrapper.accessSync_X_OK e l = false) ->
   Wrapper.executed (Wrapper.main e) = None /\
   Wrapper.exit_code (Wrapper.main e) = 1 /\
   length (Wrapper.console_error (Wrapper.main e)) = 1%nat).
Proof.
  split.
  - intros b args. unfold Wrapper.main.
    destruct (Wrapper.findBinary e (Wrapper.binLocations e) None) as [b0|] eqn:Hfind.
    + pose proof (proj1 (findBinary_spec e _ b0) Hfind) as Hspec.
      destruct (String.eqb_spec b0 "") as [->|Hne].
      * cbn. split; [discriminate|]. intros (_ & Hb & Hex).
        apply findBinary_spec in Hex. congruence.
      * assert (Hexec : Wrapper.executed
                  (match Wrapper.execFileSync e b0 (drop 2 (Wrapper.argv e)) with
                   | Wrapper.Returned => Wrapper.Outcome 0 [] (Some (b0, drop 2 (Wrapper.argv e)))
                   | Wrapper.Threw status =>
                       Wrapper.Outcome (Wrapper.status_or_1 status) []
                         (Some (b0, drop 2 (Wrapper.argv e)))
                   end) = Some (b0, drop 2 (Wrapper.argv e))).
        { by destruct (Wrapper.execFileSync e b0 _). }
        cbv zeta. rewrite Hexec. split.
        -- intros [= <- <-]. by repeat split.
        -- intros (-> & _ & Hex). apply findBinary_spec in Hex. congruence.
    + cbn. split; [discriminate|]. intros (_ & _ & Hex).
      apply findBinary_spec in Hex. congruence.
  - intros Hall. apply findBinary_none in Hall. unfold Wrapper.main. rewrite Hall.
    by repeat split.
Qed.

(** X17. The wrapper exits with status 0 exactly when it ran a binary
    and that run returned normally; when the run fails with a status
    other than 0 the wrapper exits with that status, and when the status
    is missing (or 0) it exits with 1. *)
Theorem wrapper_exit_status (e : Wrapper.env) :
  (Wrapper.exit_code (Wrapper.main e) = 0 <->
   exists b args,
     Wrapper.executed (Wrapper.main e) = Some (b, args) /\
     Wrapper.execFileSync e b args = Wrapper.Returned) /\
  (forall b args status,
     Wrapper.executed (Wrapper.main e) = Some (b, args) ->
     Wrapper.execFileSync e b args = Wrapper.Threw status ->
     Wrapper.exit_code (Wrapper.main e) <> 0 /\
     Wrapper.exit_code (Wrapper.main e)
     = match status with
       | Some n => if n =? 0 then 1 else n
       | None => 1
       end).
Proof.
  unfold Wrapper.main.
  destruct (Wrapper.findBinary e (Wrapper.binLocations e) None) as [b0|];
    [destruct (String.eqb b0 "")|]; cbn.
  1,3: split; [split; [discriminate|intros (b & args & Hex & _); discriminate]
              |intros b args status Hex; discriminate].
  destruct (Wrapper.execFileSync e b0 (drop 2 (Wrapper.argv e))) as [|status] eqn:Hrun; cbn.
  - split; [split; [eauto|reflexivity]|].
    intros b args status [= <- <-] Hthrew. congruence.
  - assert (Hnz : Wrapper.status_or_1 status <> 0).
    { unfold Wrapper.status_or_1. destruct status as [n|]; [|discriminate].
      destruct (Z.eqb_spec n 0); [discriminate|assumption]. }
    split.
    + split; [intros Hz; contradiction|].
      intros (b & args & [= <- <-] & Hret). congruence.
    + intros b args status' [= <- <-] Hthrew.
      assert (status' = status) as -> by congruence.
      split; [exact Hnz|reflexivity].
Qed.

Lemma after_first_slash_join (os arch : string) :
  no_slash os = true ->
  Build.after_first_slash (os ++ "/" ++ arch) = Some arch.
Proof.
  induction os as [|c os IH]; intros Hos; [reflexivity|].
  cbn [no_slash] in Hos. apply andb_true_iff in Hos as [Hc Hos].
  change (Build.after_first_slash (String c (os ++ "/" ++ arch)) = Some arch).
  cbn [Build.after_first_slash]. apply negb_true_iff in Hc. rewrite Hc. by apply IH.
Qed.

Lemma before_last_slash_none (s : string) :
  no_slash s = true -> Build.before_last_slash s = None.
Proof.
  induction s as [|c s IH]; intros Hs; [reflexivity|].
  cbn [no_slash] in Hs. apply andb_true_iff in Hs as [Hc Hs].
  cbn [Build.before_last_slash]. rewrite (IH Hs).
  apply negb_true_iff in Hc. by rewrite Hc.
Qed.

Lemma before_last_slash_join (os arch : string) :
  no_slash arch = true ->
  Build.before_last_slash (os ++ "/" ++ arch) = Some os.
Proof.
  intros Harch. induction os as [|c os IH].
  - change (Build.before_last_slash (String "/" arch) = Some EmptyString).
    cbn [Build.before_last_slash]. by rewrite before_last_slash_none.
  - change (Build.before_last_slash (String c (os ++ "/" ++ arch)) = Some (String c os)).
    cbn [Build.before_last_slash]. by rewrite IH.
Qed.

(** X18. The build script splits a target [os/arch] back into its two
    parts: when neither part contains a slash, [GOOS] is the part before
    the slash and [GOARCH] the part after it. *)
Theorem build_target_split (os arch : string) :
  no_slash os = true -> no_slash arch = true ->
  Build.GOOS (os ++ "/" ++ arch) = os /\ Build.GOARCH (os ++ "/" ++ arch) = arch.
Proof.
  intros Hos Harch. unfold Build.GOOS, Build.GOARCH.
  by rewrite before_last_slash_join, after_first_slash_join.
Qed.

(** ** The earlier copy of [processFile] *)

Section LegacyProperties.

Context {golib : GoLib}.

Lemma legacy_processFile_calls (path : string) (w : world) :
    exists more,
      calls (snd (Legacy.processFile path w)) = calls w ++ more /\
      (forall c, c ∈ more ->
         c = SysOpen path \/ c = SysCreate path \/ c = Legacy.encoder_call path) /\
      (fst (Legacy.processFile path w) = Ok tt -> Legacy.encoder_call path ∈ more).
Proof.
    assert (Hleaf : forall (r : result unit) (w' : world) (more : list call),
              calls w' = calls w ++ more ->
              (forall c, c ∈ more ->
                 c = SysOpen path \/ c = SysCreate path \/ c = Legacy.encoder_call path) ->
              (r = Ok tt -> Legacy.encoder_call path ∈ more) ->
              exists more,
                calls (snd (r, w')) = calls w ++ more /\
                (forall c, c ∈ more ->
                   c = SysOpen path \/ c = SysCreate path \/ c = Legacy.encoder_call path) /\
                (fst (r, w') = Ok tt -> Legacy.encoder_call path ∈ more)).
    { intros r w' more H1 H2 H3. exists more. by repeat split. }
    assert (Hin : forall (c : call) (l : list call),
              Forall (fun c => c = SysOpen path \/ c = SysCreate path
                               \/ c = Legacy.encoder_call path) l ->
              c ∈ l -> c = SysOpen path \/ c = SysCreate path \/ c = Legacy.encoder_call path).
    { intros c l Hall Hc. by apply (proj1 (Forall_forall _ _) Hall). }
    unfold Legacy.processFile, Legacy.encoder_call.
    destruct (map_index supportedExtensions (ToLower (Ext path))) eqn:Hs; cbn [negb].
    2: { apply (Hleaf _ _ []); [by rewrite app_nil_r| |discriminate].
         intros c Hc. by apply elem_of_nil in Hc. }
    io_unfold. rewrite calculateFileChecksum_eq.
    destruct (checksumOf (fs w) path) as [sum|e] eqn:Hc.
    2: { apply (Hleaf _ _ [SysOpen path]); [reflexivity| |discriminate].
         intros c. apply Hin. repeat constructor. }
    destruct (checksumOf_Ok _ _ _ Hc) as (f & Hf & Ho & Hr & ->).
    rewrite imaging_Open_eq. cbn [fs add_calls]. unfold openOf. rewrite Hf, Ho.
    unfold decodedAt. rewrite Hf, Hr.
    destruct (image_Decode (data f)) as [e|[src format]] eqn:Hd.
    { apply (Hleaf _ _ [SysOpen path; SysOpen path]);
        [cbn; by rewrite <- app_assoc| |discriminate].
      intros c. apply Hin. repeat constructor. }
    cbn [fst snd]. unfold os_Create. io_unfold. cbn [fs add_calls]. rewrite Hf.
    destruct (f_create f) eqn:Hcr.
    2: { apply (Hleaf _ _ [SysOpen path; SysOpen path; SysCreate path]);
           [cbn; by rewrite <- !app_assoc| |discriminate].
         intros c. apply Hin. repeat constructor; tauto. }
    cbn [fst snd].
    destruct (is_jpeg_ext (ToLower (Ext path))) eqn:Hj;
      [|destruct (String.eqb (ToLower (Ext path)) ".png") eqn:Hp];
      first [ erewrite run_encoder_eq by (cbn; apply lookup_insert_eq)
            | erewrite imaging_Save_file_eq by (cbn; apply lookup_insert_eq) ];
      wsimpl; rewrite insert_insert_eq;
      match goal with |- context [werr ?r] => destruct (werr r) as [e|] end;
      wsimpl;
      try rewrite calculateFileChecksum_eq; unfold checksumOf; wsimpl;
      rewrite ?lookup_insert_eq; wsimpl;
      (destruct (f_reopen f); [destruct (f_reread f)|]); wsimpl;
      destruct (verbose w); wsimpl.
    all: rewrite <- !app_assoc; cbn [app]; eexists; (split; [reflexivity|]).
    all: split;
      [intros c Hmem; rewrite !elem_of_cons, elem_of_nil in Hmem; tauto
      |first [discriminate|intros _; rewrite !elem_of_cons; tauto]].
Qed.

End LegacyProperties.

Section LegacyTheorems.

Context {golib : GoLib}.

  (** X19. The earlier copy of [processFile] makes no estimate: its
      only calls are [open], [create] and the encoder call of the
      file's format, so it never stats the file; every quality it
      passes to [jpeg.Encode] is 99 and every level it passes to the
      PNG encoder is [BestCompression]; a run that succeeds made the
      encoder call of its format. *)
Theorem legacy_encoder_parameters (path : string) (w : world) :
    exists more,
      calls (snd (Legacy.processFile path w)) = calls w ++ more /\
      (forall c, c ∈ more ->
         c = SysOpen path \/ c = SysCreate path \/
         c = (let ext := ToLower (Ext path) in
              if is_jpeg_ext ext then LibJpegEncode 99
              else if String.eqb ext ".png" then LibPngEncode BestCompression
              else LibImagingSave path)) /\
      (forall q, LibJpegEncode q ∈ more -> q = 99) /\
      (forall l, LibPngEncode l ∈ more -> l = BestCompression) /\
      (forall p, SysFstat p ∉ more) /\
      (fst (Legacy.processFile path w) = Ok tt -> Legacy.encoder_call path ∈ more).
Proof.
    destruct (legacy_processFile_calls path w) as (more & Hcalls & Honly & Hlive).
    exists more. split; [exact Hcalls|]. split; [exact Honly|].
    assert (Hcase : Legacy.encoder_call path = LibJpegEncode 99 \/
                    Legacy.encoder_call path = LibPngEncode BestCompression \/
                    Legacy.encoder_call path = LibImagingSave path).
    { unfold Legacy.encoder_call. repeat case_match; tauto. }
    split; [|split; [|split; [|exact Hlive]]].
    - intros q Hin. apply Honly in Hin as [?|[?|Heq]]; try discriminate.
      rewrite <- Heq in Hcase. destruct Hcase as [[= ->]|[?|?]]; [reflexivity|discriminate..].
    - intros l Hin. apply Honly in Hin as [?|[?|Heq]]; try discriminate.
      rewrite <- Heq in Hcase. destruct Hcase as [?|[[= ->]|?]]; [discriminate|reflexivity|discriminate].
    - intros p Hin. apply Honly in Hin as [?|[?|Heq]]; try discriminate.
      rewrite <- Heq in Hcase. destruct Hcase as [?|[?|?]]; discriminate.
Qed.

  (** X20. For a file that is neither JPEG nor PNG (so GIF or WebP, or
      an unsupported extension) the two copies of [processFile] leave
      the same state and return the same result, up to the wording of
      the decoding error ("open" in the earlier copy, "decode" in
      [main.go]). *)
Theorem legacy_agrees_on_other_formats (path : string) (w : world) :
    is_jpeg_ext (ToLower (Ext path)) = false ->
    String.eqb (ToLower (Ext path)) ".png" = false ->
    snd (Legacy.processFile path w) = snd (processFile path w) /\
    (fst (Legacy.processFile path w) = fst (processFile path w) \/
     exists cause,
       fst (Legacy.processFile path w) = Err (Errorf "failed to open image" cause) /\
       fst (processFile path w) = Err (Errorf "failed to decode image" cause)).
Proof.
    intros Hj Hp. unfold Legacy.processFile, processFile. rewrite Hj, Hp.
    destruct (map_index supportedExtensions (ToLower (Ext path))); cbn [negb];
      [|split; [reflexivity|by left]].
    io_unfold.
    destruct (calculateFileChecksum path w) as [[sum|e] w1]; [|split; [reflexivity|by left]].
    destruct (imaging_Open path w1) as [[src|e] w2]; [|split; [reflexivity|right; eauto]].
    split; [reflexivity|by left].
Qed.

End LegacyTheorems.

Section FailureOutput.

Context {golib : GoLib}.

  (** X21. [processFile] returns its errors and never prints them: it
      leaves standard error alone.  When it fails it has printed nothing
      on standard output either, with one exception: in verbose mode a
      JPEG that reached the encoder has got its "quality adjustment"
      line, which is printed before the save error is looked at; the
      error is then the save error or the error of the new checksum. *)
Theorem processFile_failure_output (path : string) (w : world) (e : string) :
    fst (processFile path w) = Err e ->
    stderr (snd (processFile path w)) = stderr w /\
    (stdout (snd (processFile path w)) = stdout w \/
     (verbose w = true /\ is_jpeg_ext (ToLower (Ext path)) = true /\
      (exists cause, e = Errorf "failed to save image" cause \/
                     e = Errorf "failed to calculate new checksum" cause) /\
      exists q, stdout (snd (processFile path w))
                = stdout w ++ [OutJpegAdjustment q (adjustQuality q)])).
Proof.
    intros Herr.
    destruct (processFile_run path w) as
      [Hs|e' Hs Hc|f e' Hs Hf Ho Hr Hd|f src fmt Hs Hf Ho Hr Hd Hcr
      |f src fmt e' Hs Hf Ho Hr Hd Hcr Hw|f src fmt e' Hs Hf Ho Hr Hd Hcr Hw Hsum
      |f src fmt Hs Hf Ho Hr Hd Hcr Hw Hro Hrr];
      try discriminate; try (split; [reflexivity|left; reflexivity]).
    all: injection Herr as <-; split; [reflexivity|].
    all: unfold after_encoding, adjustment_lines, extOf; cbn [stdout].
    all: destruct (is_jpeg_ext (ToLower (Ext path))) eqn:Hj, (verbose w) eqn:Hv;
      cbn [andb app]; rewrite ?app_nil_r; try (by left).
    all: right; split; [reflexivity|]; split; [reflexivity|]; split; [eauto|].
    all: eexists; reflexivity.
Qed.

End FailureOutput.

(** ** The further properties at concrete inputs *)

Lemma processFile_success_rewrites_file_witness :
  fst (processFile (golib := Demo.lib) "d/a.jpg" (Demo.start 0 false)) = Ok tt /\
  exists (f : file) (src : Demo.img) (format : string),
    fs (Demo.start 0 false) !! "d/a.jpg"%string = Some (NFile f) /\
    f_open f = true /\ f_read f = true /\ f_create f = true /\
    Demo.decode (data f) = inr (src, format) /\
    werr (encoder_result (golib := Demo.lib) "d/a.jpg" (Demo.start 0 false) src) = None /\
    exists f' : file,
      fs (snd (processFile (golib := Demo.lib) "d/a.jpg" (Demo.start 0 false)))
        !! "d/a.jpg"%string = Some (NFile f') /\
      data f' = written (encoder_result (golib := Demo.lib) "d/a.jpg"
                           (Demo.start 0 false) src).
Proof.
  assert (Hok : fst (processFile (golib := Demo.lib) "d/a.jpg" (Demo.start 0 false)) = Ok tt).
  { vm_compute. reflexivity. }
  split; [exact Hok|].
  exact (processFile_success_rewrites_file (golib := Demo.lib) "d/a.jpg" (Demo.start 0 false) Hok).
Defined.

Lemma processFile_early_error_keeps_files_witness :
  fst (processFile (golib := Demo.lib) "d/b.jpg" (Demo.start 0 false))
  = Err "failed to decode image: image: unknown format" /\
  fs (snd (processFile (golib := Demo.lib) "d/b.jpg" (Demo.start 0 false)))
  = fs (Demo.start 0 false).
Proof.
  assert (Herr : fst (processFile (golib := Demo.lib) "d/b.jpg" (Demo.start 0 false))
                 = Err "failed to decode image: image: unknown format").
  { vm_compute. reflexivity. }
  split; [exact Herr|].
  apply (processFile_early_error_keeps_files (golib := Demo.lib) "d/b.jpg"
           (Demo.start 0 false) _ Herr).
  - intros cause Heq. cbn in Heq. discriminate.
  - intros cause Heq. cbn in Heq. discriminate.
Defined.

Lemma new_checksum_failure_keeps_rewrite_witness :
  fst (processFile (golib := Demo.lib) "a.jpg" DemoMore.fragile)
  = Err (Errorf "failed to calculate new checksum"
           (PathError "open" "a.jpg" "permission denied")) /\
  exists f' : file,
    fs (snd (processFile (golib := Demo.lib) "a.jpg" DemoMore.fragile)) !! "a.jpg"%string
    = Some (NFile f') /\
    data f' <> Demo.jpg_bytes.
Proof.
  assert (Herr : fst (processFile (golib := Demo.lib) "a.jpg" DemoMore.fragile)
                 = Err (Errorf "failed to calculate new checksum"
                          (PathError "open" "a.jpg" "permission denied"))).
  { vm_compute. reflexivity. }
  split; [exact Herr|].
  destruct (new_checksum_failure_keeps_rewrite (golib := Demo.lib) "a.jpg" DemoMore.fragile
              _ Herr) as (f & src & format & f' & Hf & Hd & _ & Hf' & Hdata).
  exists f'. split; [exact Hf'|].
  rewrite Hdata. vm_compute in Hf. injection Hf as <-.
  vm_compute in Hd. injection Hd as <- <-. vm_compute. discriminate.
Defined.

Lemma Run_negative_depth_witness :
  recursiveDepth (Demo.start (-1) false) < 0 /\
  Run (golib := Demo.lib) "d" (Demo.start (-1) false)
  = (0, add_calls [SysStat "d"] (Demo.start (-1) false)).
Proof.
  split; [reflexivity|].
  eapply (Run_negative_depth (golib := Demo.lib) "d" (Demo.start (-1) false)
            (Some [Entry "a.jpg" false; Entry "b.jpg" false; Entry "c.png" false;
                   Entry "notes.txt" false; Entry "sub" true])).
  - vm_compute. reflexivity.
  - reflexivity.
Defined.

Lemma Run_readable_directory_exits_0_witness :
  fs (Demo.start 1 false) !! "d"%string
  = Some (NDir (Some [Entry "a.jpg" false; Entry "b.jpg" false; Entry "c.png" false;
                      Entry "notes.txt" false; Entry "sub" true])) /\
  fst (Run (golib := Demo.lib) "d" (Demo.start 1 false)) = 0.
Proof.
  assert (Hd : fs (Demo.start 1 false) !! "d"%string
               = Some (NDir (Some [Entry "a.jpg" false; Entry "b.jpg" false;
                                   Entry "c.png" false; Entry "notes.txt" false;
                                   Entry "sub" true]))).
  { vm_compute. reflexivity. }
  split; [exact Hd|].
  exact (Run_readable_directory_exits_0 (golib := Demo.lib) "d" (Demo.start 1 false) _ Hd).
Defined.

Lemma Run_unreadable_directory_witness :
  fs DemoMore.locked !! "secret"%string = Some (NDir None) /\
  fst (Run (golib := Demo.lib) "secret" DemoMore.locked) = 1.
Proof.
  assert (Hd : fs DemoMore.locked !! "secret"%string = Some (NDir None)).
  { vm_compute. reflexivity. }
  split; [exact Hd|].
  pose proof (Run_unreadable_directory (golib := Demo.lib) "secret" DemoMore.locked Hd) as Hrun.
  rewrite Hrun; [reflexivity|]. cbn. lia.
Defined.

Lemma Run_single_file_witness :
  fs (Demo.start 0 false) !! "d/a.jpg"%string = Some (Demo.plain Demo.jpg_bytes) /\
  (fst (Run (golib := Demo.lib) "d/a.jpg" (Demo.start 0 false)) = 0 \/
   fst (Run (golib := Demo.lib) "d/a.jpg" (Demo.start 0 false)) = 1).
Proof.
  assert (Hf : fs (Demo.start 0 false) !! "d/a.jpg"%string = Some (Demo.plain Demo.jpg_bytes)).
  { vm_compute. reflexivity. }
  split; [exact Hf|].
  destruct (Run_single_file (golib := Demo.lib) "d/a.jpg" (Demo.start 0 false) _ Hf)
    as [[H0 _]|[H1 _]]; [by left|by right].
Defined.

Lemma png_estimate_monotone_witness :
  (length (data (File [x68; x69] true true true true true true))
   <= length (data (File Demo.png_bytes true true true true true true)))%nat /\
  exists l1 l2,
    fst (estimatePngCompressionLevel (golib := Demo.lib) "d/notes.txt" (Demo.start 0 false)) = Ok l1 /\
    fst (estimatePngCompressionLevel (golib := Demo.lib) "d/c.png" (Demo.start 0 false)) = Ok l2 /\
    zlib_level l1 <= zlib_level l2.
Proof.
  split; [cbn; lia|].
  apply (png_estimate_monotone "d/notes.txt" "d/c.png" (Demo.start 0 false) (Demo.start 0 false)
           (File [x68; x69] true true true true true true) (File Demo.png_bytes true true true true true true));
    try reflexivity; try (vm_compute; reflexivity). cbn. lia.
Defined.

Lemma jpeg_estimate_without_pixels_witness :
  Demo.decode [x4a; x00; x02; x50] = inr (Demo.Img "jpeg" 0 2 [], "jpeg"%string) /\
  fst (estimateJpegQuality (golib := Demo.lib) "z.jpg" DemoMore.empty_jpeg) = Ok 95.
Proof.
  split; [reflexivity|].
  apply (jpeg_estimate_without_pixels (golib := Demo.lib) "z.jpg" DemoMore.empty_jpeg
           (File [x4a; x00; x02; x50] true true true true true true) (Demo.Img "jpeg" 0 2 []));
    try reflexivity; try (vm_compute; reflexivity). by left.
Defined.

Lemma walk_filter_agrees_with_processFile_witness :
  (forall d n, entry_name n = true ->
               Ext (filepath_Join (GoLib := Demo.lib) d n) = Ext n) /\
  entry_name "a.jpg" = true /\
  fst (processFile (golib := Demo.lib) (filepath_Join (GoLib := Demo.lib) "d" "a.jpg")
         (Demo.start 0 false))
  <> Err "unsupported file extension: .jpg".
Proof.
  assert (Hjoin : forall d n, entry_name n = true ->
                    Ext (filepath_Join (GoLib := Demo.lib) d n) = Ext n).
  { intros d n _. apply Ext_join. }
  split; [exact Hjoin|]. split; [reflexivity|].
  apply (walk_filter_agrees_with_processFile (golib := Demo.lib) "d" (Entry "a.jpg" false)
           (Demo.start 0 false) Hjoin); reflexivity.
Defined.

Lemma mark_reflects_digests_witness :
  fst (processFile (golib := Demo.lib) "d/a.jpg" (Demo.start 0 false)) = Ok tt /\
  exists (f' : file) (os : list out_line),
    fs (snd (processFile (golib := Demo.lib) "d/a.jpg" (Demo.start 0 false))) !! "d/a.jpg"%string
    = Some (NFile f') /\
    stdout (snd (processFile (golib := Demo.lib) "d/a.jpg" (Demo.start 0 false)))
    = stdout (Demo.start 0 false) ++ os.
Proof.
  assert (Hok : fst (processFile (golib := Demo.lib) "d/a.jpg" (Demo.start 0 false)) = Ok tt).
  { vm_compute. reflexivity. }
  split; [exact Hok|].
  destruct (mark_reflects_digests (golib := Demo.lib) "d/a.jpg" (Demo.start 0 false)
              (File Demo.jpg_bytes true true true true true true) Hok)
    as (f' & os & Hf' & Hout & _); [vm_compute; reflexivity|].
  exists f', os. by split.
Defined.

Lemma wrapper_name_matches_build_witness :
  Wrapper.os_platform Wrapper.demo <> "windows"%string /\
  Build.plain_word (Wrapper.getPlatformName Wrapper.demo) = true /\
  Build.NPM_BINARY (Wrapper.getPlatformName Wrapper.demo) (Wrapper.getArchName Wrapper.demo)
  = Some (Wrapper.platformSpecificBinary Wrapper.demo).
Proof.
  assert (Hne : Wrapper.os_platform Wrapper.demo <> "windows"%string) by discriminate.
  split; [exact Hne|]. split; [reflexivity|].
  exact (proj1 (wrapper_name_matches_build Wrapper.demo Hne eq_refl)).
Defined.

Lemma build_target_split_witness :
  no_slash "windows" = true /\ no_slash "amd64" = true /\
  Build.GOOS ("windows" ++ "/" ++ "amd64") = "windows"%string /\
  Build.GOARCH ("windows" ++ "/" ++ "amd64") = "amd64"%string.
Proof.
  split; [reflexivity|]. split; [reflexivity|].
  apply (build_target_split "windows" "amd64"); reflexivity.
Defined.

Lemma legacy_agrees_on_other_formats_witness :
  is_jpeg_ext (ToLower (golib := Demo.lib) (Ext "w.webp")) = false /\
  String.eqb (ToLower (golib := Demo.lib) (Ext "w.webp")) ".png" = false /\
  snd (Legacy.processFile (golib := Demo.lib) "w.webp" (Demo.start 0 false))
  = snd (processFile (golib := Demo.lib) "w.webp" (Demo.start 0 false)).
Proof.
  split; [reflexivity|]. split; [reflexivity|].
  apply (legacy_agrees_on_other_formats (golib := Demo.lib) "w.webp" (Demo.start 0 false));
    reflexivity.
Defined.

Lemma processFile_failure_output_witness :
  fst (processFile (golib := Demo.failing_lib) "d/a.jpg" (Demo.start 0 true))
  = Err "failed to save image: write: no space left on device" /\
  stderr (snd (processFile (golib := Demo.failing_lib) "d/a.jpg" (Demo.start 0 true)))
  = stderr (Demo.start 0 true).
Proof.
  assert (Herr : fst (processFile (golib := Demo.failing_lib) "d/a.jpg" (Demo.start 0 true))
                 = Err "failed to save image: write: no space left on device").
  { vm_compute. reflexivity. }
  split; [exact Herr|].
  exact (proj1 (processFile_failure_output (golib := Demo.failing_lib) "d/a.jpg"
                  (Demo.start 0 true) _ Herr)).
Defined.

(** The wrapper on Windows: the platform-specific binary is missing,
    the generic one is found and run with the arguments after the script
    name, and its exit status 1 is passed on. *)
Example wrapper_on_windows :
  Wrapper.main Wrapper.demo
  = Wrapper.Outcome 1 [] (Some ("/pkg/bin/alternate-assets.exe", ["photos"; "-r"; "1"]))%string.
Proof. vm_compute. reflexivity. Qed.
